(** * btc-dac: the back-testing engine of the DCA strategy lab

    A shallow embedding of the simulation core of [scripts/app.js]:
    the schedule generator [buildScheduleIdx], the four strategy simulators,
    the statistics of [metricsFromTimeline] and the stage splitter
    [buildStages], followed by the properties of the specification that
    concern them.

    Conventions of the embedding.
    - A JavaScript [Date] is its time value, an integer number of
      milliseconds ([Z]); comparisons of dates are comparisons of these.
    - Array positions are [nat]; an array is a [list].
    - A JavaScript number that is read from the input (a price, the
      contribution amount, the dip threshold) is a rational [Q]; a number the
      code computes with a division is a [num]: a rational, one of the two
      infinities, or NaN.  Rounding to binary64, overflow and the sign of
      zero are not part of this exact embedding.
    - The module [B64] embeds the four simulators and [sma] a second time,
      on the binary64 numbers of the platform, where every operation
      rounds; it shows where a result depends on rounding, and the
      properties of the invested capital are proved for both. *)

From Stdlib Require Import ZArith QArith Qminmax Lia Lqa.
From Stdlib Require PrimFloat.
From stdpp Require Import base option list strings pretty gmap sets.

Local Open Scope Z_scope.

(** ** Numbers *)

Module Num.

Inductive num : Type :=
| Fin (q : Q)
| PInf
| NInf
| NaN.

(** Sign of a rational as a comparison with zero. *)
Definition sgn (q : Q) : comparison := (q ?= 0)%Q.

Definition neg (a : num) : num :=
  match a with
  | Fin q => Fin (- q)
  | PInf => NInf
  | NInf => PInf
  | NaN => NaN
  end.

Definition add (a b : num) : num :=
  match a, b with
  | NaN, _ | _, NaN => NaN
  | Fin x, Fin y => Fin (x + y)
  | PInf, NInf | NInf, PInf => NaN
  | PInf, _ | _, PInf => PInf
  | NInf, _ | _, NInf => NInf
  end.

Definition sub (a b : num) : num := add a (neg b).

(** An infinity scaled by the sign of a finite factor. *)
Definition scale_inf (positive_inf : bool) (s : comparison) : num :=
  match s with
  | Eq => NaN
  | Gt => if positive_inf then PInf else NInf
  | Lt => if positive_inf then NInf else PInf
  end.

Definition mul (a b : num) : num :=
  match a, b with
  | NaN, _ | _, NaN => NaN
  | Fin x, Fin y => Fin (x * y)
  | Fin x, PInf | PInf, Fin x => scale_inf true (sgn x)
  | Fin x, NInf | NInf, Fin x => scale_inf false (sgn x)
  | PInf, PInf | NInf, NInf => PInf
  | PInf, NInf | NInf, PInf => NaN
  end.

(** [a / b]; a finite non-zero value divided by zero is an infinity of
    the sign of the dividend, zero by zero is NaN. *)
Definition div (a b : num) : num :=
  match a, b with
  | NaN, _ | _, NaN => NaN
  | Fin x, Fin y =>
      match sgn y with
      | Eq => match sgn x with Eq => NaN | Gt => PInf | Lt => NInf end
      | _ => Fin (x / y)
      end
  | Fin _, (PInf | NInf) => Fin 0
  | PInf, Fin y => match sgn y with Lt => NInf | _ => PInf end
  | NInf, Fin y => match sgn y with Lt => PInf | _ => NInf end
  | (PInf | NInf), (PInf | NInf) => NaN
  end.

(** [a < b] of JavaScript: false as soon as one side is NaN. *)
Definition ltb (a b : num) : bool :=
  match a, b with
  | NaN, _ | _, NaN => false
  | Fin x, Fin y => match (x ?= y)%Q with Lt => true | _ => false end
  | NInf, (Fin _ | PInf) => true
  | Fin _, PInf => true
  | _, _ => false
  end.

(** [a <= b] of JavaScript. *)
Definition leb (a b : num) : bool :=
  match a, b with
  | NaN, _ | _, NaN => false
  | Fin x, Fin y => match (x ?= y)%Q with Gt => false | _ => true end
  | NInf, _ => true
  | _, PInf => true
  | _, _ => false
  end.

Definition gtb (a b : num) : bool := ltb b a.
Definition geb (a b : num) : bool := leb b a.

(** [Math.max(a, b)] and [Math.min(a, b)]: NaN if either is. *)
Definition max (a b : num) : num :=
  match a, b with
  | NaN, _ | _, NaN => NaN
  | _, _ => if ltb a b then b else a
  end.

Definition min (a b : num) : num :=
  match a, b with
  | NaN, _ | _, NaN => NaN
  | _, _ => if ltb b a then b else a
  end.

Definition isFinite (a : num) : bool :=
  match a with Fin _ => true | _ => false end.

(** [a || 0]: NaN and zero are the falsy numbers. *)
Definition orZero (a : num) : num :=
  match a with
  | NaN => Fin 0
  | Fin q => match sgn q with Eq => Fin 0 | _ => a end
  | _ => a
  end.

(** Equality of numbers as values: rationals up to [Qeq]; NaN is related
    to itself here (this is identity of results, not JavaScript's [===]). *)
Definition eqv (a b : num) : Prop :=
  match a, b with
  | Fin x, Fin y => (x == y)%Q
  | PInf, PInf | NInf, NInf | NaN, NaN => True
  | _, _ => False
  end.

End Num.

Import Num.

Declare Scope num_scope.
Delimit Scope num_scope with num.
Bind Scope num_scope with num.
Infix "+" := Num.add : num_scope.
Infix "-" := Num.sub : num_scope.
Infix "*" := Num.mul : num_scope.
Infix "/" := Num.div : num_scope.
Infix "<?" := Num.ltb : num_scope.
Infix "<=?" := Num.leb : num_scope.
Infix ">?" := Num.gtb (at level 70) : num_scope.
Infix ">=?" := Num.geb (at level 70) : num_scope.
Infix "=n=" := Num.eqv (at level 70).

(** Boolean comparisons on the rationals of the input. *)
Definition Qltb (x y : Q) : bool := match (x ?= y)%Q with Lt => true | _ => false end.
Definition Qgtb (x y : Q) : bool := Qltb y x.

(** A count (an array length) as a number. *)
Definition Qnat (n : nat) : Q := inject_Z (Z.of_nat n).

(** ** Price series *)

(** One row of the CSV: [{ t: Date, p: number }]. *)
Record PricePoint : Type := mkPoint { t : Z; p : Q }.

Abbreviation Series := (list PricePoint).

(** Prices are positive (the data model of the specification). *)
Definition positivePrices (data : Series) : Prop :=
  ∀ d, d ∈ data → (0 < p d)%Q.

(** [data.findIndex(d => f d)], with [None] for [-1]. *)
Fixpoint findIndexFrom (f : PricePoint → bool) (rest : Series) (i : nat) : option nat :=
  match rest with
  | [] => None
  | d :: rest' => if f d then Some i else findIndexFrom f rest' (S i)
  end.

Definition findIndex (f : PricePoint → bool) (data : Series) : option nat :=
  findIndexFrom f data 0.

(** ** Schedule *)

Definition msPerDay : Z := 86400000.

(** [frequency === 'daily' ? 1 : (frequency === 'weekly' ? 7 : 30)] *)
Definition stepDays (frequency : string) : Z :=
  if String.eqb frequency "daily" then 1
  else if String.eqb frequency "weekly" then 7
  else 30.

(** [while (j < data.length && data[j].t < cursor) j++], entered with
    [rest] the part of the array from position [j] on. *)
Fixpoint scanFrom (rest : Series) (j : nat) (cursor : Z) : nat :=
  match rest with
  | [] => j
  | d :: rest' => if t d <? cursor then scanFrom rest' (S j) cursor else j
  end.

(** [if (j < data.length && data[j].t <= endDate) idx.push(j)] *)
Definition pushIfInRange (data : Series) (endDate : Z) (j : nat) (idx : list nat) : list nat :=
  match data !! j with
  | Some d => if t d <=? endDate then idx ++ [j] else idx
  | None => idx
  end.

(** The [while (cursor <= endDate)] loop; [fuel] bounds the number of
    turns, [schedule_fuel] below is the number the loop makes. *)
Fixpoint scheduleLoop (fuel : nat) (data : Series) (iStart : nat) (endDate stepMs cursor : Z)
    (idx : list nat) : list nat :=
  match fuel with
  | O => idx
  | S fuel' =>
      if cursor <=? endDate then
        let j := scanFrom (drop iStart data) iStart cursor in
        scheduleLoop fuel' data iStart endDate stepMs (cursor + stepMs)
          (pushIfInRange data endDate j idx)
      else idx
  end.

(** Number of cursor values [cursor, cursor + stepMs, ...] that are
    [<= endDate]. *)
Definition schedule_fuel (endDate stepMs cursor : Z) : nat :=
  Z.to_nat ((endDate - cursor) / stepMs + 1).

Definition lastDate (data : Series) : option Z := t <$> last data.

Definition buildScheduleIdx (data : Series) (start end_ : Z) (frequency : string) : list nat :=
  match findIndex (λ d, start <=? t d) data with
  | None => []
  | Some iStart =>
      match data !! iStart, lastDate data with
      | Some d0, Some lastD =>
          let cursor := t d0 in
          let endDate := if end_ <=? lastD then end_ else lastD in
          let stepMs := stepDays frequency * msPerDay in
          scheduleLoop (schedule_fuel endDate stepMs cursor) data iStart endDate stepMs cursor []
      | _, _ => []
      end
  end.

(** ** Timelines *)

(** One row of a timeline: [{ t, p, cashIn, units, value, cashPile?, ma? }].
    The last two fields exist only in the rows of the strategies that hold
    idle cash. *)
Record Entry : Type := mkEntry {
  e_t : Z;
  e_p : Q;
  e_cashIn : Q;
  e_units : num;
  e_value : num;
  e_cashPile : option Q;
  e_ma : option num
}.

Abbreviation Timeline := (list Entry).

(** [{ cashIn, units, endValue }] *)
Record Summary : Type := mkSummary {
  r_cashIn : Q;
  r_units : num;
  r_endValue : num
}.

(** [{ timeline, result }] *)
Record Simulation : Type := mkSimulation {
  timeline : Timeline;
  result : Summary
}.

(** [timeline.at(-1)?.value || 0] *)
Definition endValueOf (tl : Timeline) : num :=
  match last tl with
  | Some e => orZero (e_value e)
  | None => Fin 0
  end.

(** [t < start || t > end], the test that skips a day. *)
Definition outOfWindow (start end_ : Z) (d : PricePoint) : bool :=
  (t d <? start) || (end_ <? t d).

(** The loop that three of the simulators share:
    [for (let i = 0; i < data.length; i++) {
       if (t < start || t > end) continue;  body }],
    entered with [rest] the part of the array from position [i] on and
    [st] the variables the body updates. *)
Fixpoint windowLoop {St : Type} (start end_ : Z) (body : nat → PricePoint → St → St)
    (rest : Series) (i : nat) (st : St) : St :=
  match rest with
  | [] => st
  | d :: rest' =>
      windowLoop start end_ body rest' (S i)
        (if outOfWindow start end_ d then st else body i d st)
  end.

(** ** simulateDCA *)

Record DcaState : Type := mkDca {
  dca_cashIn : Q;
  dca_units : num;
  dca_sPtr : nat;
  dca_timeline : Timeline
}.

(** [sPtr < schedule.length && i === schedule[sPtr]] *)
Definition dcaHit (schedule : list nat) (i : nat) (st : DcaState) : bool :=
  match schedule !! dca_sPtr st with
  | Some s => Nat.eqb i s
  | None => false
  end.

(** The body of the loop of [simulateDCA] for a day inside the window. *)
Definition dcaDay (amount : Q) (schedule : list nat) (i : nat) (d : PricePoint)
    (st : DcaState) : DcaState :=
  let hit := dcaHit schedule i st in
  let cashIn := if hit then (dca_cashIn st + amount)%Q else dca_cashIn st in
  let units := if hit then (dca_units st + Fin amount / Fin (p d))%num else dca_units st in
  let sPtr := if hit then S (dca_sPtr st) else dca_sPtr st in
  let value := (units * Fin (p d))%num in
  mkDca cashIn units sPtr
        (dca_timeline st ++ [mkEntry (t d) (p d) cashIn units value None None]).

Definition dcaLoop (start end_ : Z) (amount : Q) (schedule : list nat)
    (rest : Series) (i : nat) (st : DcaState) : DcaState :=
  windowLoop start end_ (dcaDay amount schedule) rest i st.

Definition simulateDCA (data : Series) (start end_ : Z) (amount : Q) (frequency : string)
    : Simulation :=
  let schedule := buildScheduleIdx data start end_ frequency in
  let st := dcaLoop start end_ amount schedule data 0 (mkDca 0 (Fin 0) 0 []) in
  mkSimulation (dca_timeline st)
    (mkSummary (dca_cashIn st) (dca_units st) (endValueOf (dca_timeline st))).

(** ** simulateLumpSum *)

(** [for (let i = iStart; i < data.length && data[i].t <= end; i++)],
    entered with [rest] the part of the array from [iStart] on. *)
Fixpoint lumpLoop (end_ : Z) (total : Q) (units : num) (rest : Series) (tl : Timeline)
    : Timeline :=
  match rest with
  | [] => tl
  | d :: rest' =>
      if t d <=? end_ then
        lumpLoop end_ total units rest'
          (tl ++ [mkEntry (t d) (p d) total units (units * Fin (p d))%num None None])
      else tl
  end.

Definition simulateLumpSum (data : Series) (start end_ : Z) (amount : Q) (frequency : string)
    : Simulation :=
  let periods := length (buildScheduleIdx data start end_ frequency) in
  let total := (Qnat periods * amount)%Q in
  match findIndex (λ d, start <=? t d) data with
  | None => mkSimulation [] (mkSummary 0 (Fin 0) (Fin 0))
  | Some iStart =>
      match data !! iStart with
      | None => mkSimulation [] (mkSummary 0 (Fin 0) (Fin 0))
      | Some d0 =>
          let units := (Fin total / Fin (p d0))%num in
          let tl := lumpLoop end_ total units (drop iStart data) [] in
          mkSimulation tl (mkSummary total units (endValueOf tl))
      end
  end.

(** ** simulateDipBuy *)

(** [new Set(schedule)] and [scheduleSet.has(i)] *)
Definition scheduleSetOf (schedule : list nat) : gset nat := list_to_set schedule.
Definition has (s : gset nat) (i : nat) : bool := bool_decide (i ∈ s).

Record PileState : Type := mkPile {
  ps_cashIn : Q;
  ps_units : num;
  ps_cashPile : Q;
  ps_peak : num;
  ps_timeline : Timeline
}.

(** The variables of [simulateDipBuy] before the loop; the peak starts at
    [-Infinity]. *)
Definition dipInit : PileState := mkPile 0 (Fin 0) 0 NInf [].

(** [(peak - p) / peak] *)
Definition drawdownOf (peak : num) (price : Q) : num := ((peak - Fin price) / peak)%num.

(** The body of the loop of [simulateDipBuy] for a day inside the window. *)
Definition dipDay (amount dipPct : Q) (scheduleSet : gset nat) (i : nat) (d : PricePoint)
    (st : PileState) : PileState :=
  let hit := has scheduleSet i in
  let cashIn := if hit then (ps_cashIn st + amount)%Q else ps_cashIn st in
  let pile := if hit then (ps_cashPile st + amount)%Q else ps_cashPile st in
  let peak := Num.max (ps_peak st) (Fin (p d)) in
  let drawdown := drawdownOf peak (p d) in
  let buy := isFinite drawdown && (drawdown >=? Fin dipPct)%num && Qgtb pile 0 in
  let units := if buy then (ps_units st + Fin pile / Fin (p d))%num else ps_units st in
  let pile' := if buy then 0%Q else pile in
  let value := (units * Fin (p d) + Fin pile')%num in
  mkPile cashIn units pile' peak
         (ps_timeline st ++ [mkEntry (t d) (p d) cashIn units value (Some pile') None]).

Definition dipLoop (start end_ : Z) (amount dipPct : Q) (scheduleSet : gset nat)
    (rest : Series) (i : nat) (st : PileState) : PileState :=
  windowLoop start end_ (dipDay amount dipPct scheduleSet) rest i st.

Definition simulateDipBuy (data : Series) (start end_ : Z) (amount : Q) (frequency : string)
    (dipPct : Q) : Simulation :=
  let schedule := buildScheduleIdx data start end_ frequency in
  let scheduleSet := scheduleSetOf schedule in
  let st := dipLoop start end_ amount dipPct scheduleSet data 0 dipInit in
  mkSimulation (ps_timeline st)
    (mkSummary (ps_cashIn st) (ps_units st) (endValueOf (ps_timeline st))).

(** ** simulateTrendDCA *)

(** [arr[k]] for a possibly out-of-range position: [undefined] in
    arithmetic is NaN. *)
Definition readNum (arr : list Q) (k : Z) : num :=
  if k <? 0 then NaN
  else match arr !! Z.to_nat k with
       | Some x => Fin x
       | None => NaN
       end.

(** The loop of [sma]: [sum] is the running sum, the result lists [out]. *)
Fixpoint smaLoop (arr : list Q) (window : Z) (rest : list Q) (i : nat) (sum : num) : list num :=
  match rest with
  | [] => []
  | x :: rest' =>
      let sum1 := (sum + Fin x)%num in
      let sum2 := if window <=? Z.of_nat i
                  then (sum1 - readNum arr (Z.of_nat i - window))%num else sum1 in
      let out_i := if window - 1 <=? Z.of_nat i
                   then (sum2 / Fin (inject_Z window))%num else NaN in
      out_i :: smaLoop arr window rest' (S i) sum2
  end.

Definition sma (arr : list Q) (window : Z) : list num := smaLoop arr window arr 0 (Fin 0).

Record TrendState : Type := mkTrend {
  ts_cashIn : Q;
  ts_units : num;
  ts_cashPile : Q;
  ts_timeline : Timeline
}.

(** The body of the loop of [simulateTrendDCA] for a day inside the window. *)
Definition trendDay (amount : Q) (maN : Z) (ma : list num) (scheduleSet : gset nat)
    (i : nat) (d : PricePoint) (st : TrendState) : TrendState :=
  let hit := has scheduleSet i in
  let cashIn := if hit then (ts_cashIn st + amount)%Q else ts_cashIn st in
  let pile := if hit then (ts_cashPile st + amount)%Q else ts_cashPile st in
  let ma_i := default NaN (ma !! i) in
  let buy := (maN - 1 <=? Z.of_nat i) && (Fin (p d) >? ma_i)%num && Qgtb pile 0 in
  let units := if buy then (ts_units st + Fin pile / Fin (p d))%num else ts_units st in
  let pile' := if buy then 0%Q else pile in
  let value := (units * Fin (p d) + Fin pile')%num in
  mkTrend cashIn units pile'
          (ts_timeline st ++ [mkEntry (t d) (p d) cashIn units value (Some pile') (Some ma_i)]).

Definition trendLoop (start end_ : Z) (amount : Q) (maN : Z) (ma : list num)
    (scheduleSet : gset nat) (rest : Series) (i : nat) (st : TrendState) : TrendState :=
  windowLoop start end_ (trendDay amount maN ma scheduleSet) rest i st.

Definition simulateTrendDCA (data : Series) (start end_ : Z) (amount : Q) (frequency : string)
    (maN : Z) : Simulation :=
  let prices := map p data in
  let ma := sma prices maN in
  let schedule := buildScheduleIdx data start end_ frequency in
  let scheduleSet := scheduleSetOf schedule in
  let st := trendLoop start end_ amount maN ma scheduleSet data 0 (mkTrend 0 (Fin 0) 0 []) in
  mkSimulation (ts_timeline st)
    (mkSummary (ts_cashIn st) (ts_units st) (endValueOf (ts_timeline st))).

(** ** metricsFromTimeline *)

(** [daysBetween(a, b)]: [(b - a) / 86400000] *)
Definition daysBetween (a b : Z) : Q := (inject_Z (b - a) / inject_Z msPerDay)%Q.

(** The return of one day: [prev > 0 ? (cur / prev - 1) : 0] *)
Definition dayReturn (prev cur : num) : num :=
  if (prev >? Fin 0)%num then (cur / prev - Fin 1)%num else Fin 0.

(** [if (isFinite(r)) rets.push(r)] *)
Definition pushIfFinite (r : num) (rets : list Q) : list Q :=
  match r with
  | Fin q => rets ++ [q]
  | _ => rets
  end.

(** [for (let i = 1; i < tl.length; i++)]; [positions] lists the values
    of [i] still to come. *)
Fixpoint retsLoop (tl : Timeline) (positions : list nat) (rets : list Q) : list Q :=
  match positions with
  | [] => rets
  | i :: positions' =>
      match tl !! (i - 1)%nat, tl !! i with
      | Some a, Some b =>
          retsLoop tl positions' (pushIfFinite (dayReturn (e_value a) (e_value b)) rets)
      | _, _ => retsLoop tl positions' rets
      end
  end.

Definition dailyReturns (tl : Timeline) : list Q :=
  retsLoop tl (seq 1 (length tl - 1)) [].

(** [rets.reduce((a, b) => a + b, 0) / (rets.length || 1)] *)
Definition meanOf (rets : list Q) : Q :=
  (foldl Qplus 0 rets / Qnat (if (length rets =? 0)%nat then 1 else length rets))%Q.

(** [rets.reduce((s, x) => s + Math.pow(x - mean, 2), 0)
     / Math.max(1, rets.length - 1)]; the power with the literal exponent 2
    of a finite number is its square. *)
Definition varianceOf (rets : list Q) : Q :=
  let mean := meanOf rets in
  (foldl (λ s x, s + (x - mean) * (x - mean)) 0 rets
   / Qnat (Nat.max 1 (length rets - 1)))%Q.

(** The loop of the maximum drawdown:
    [peak = Math.max(peak, p); if (peak > 0) mdd = Math.min(mdd, p / peak - 1)] *)
Fixpoint mddLoop (values : list num) (peak mdd : num) : num :=
  match values with
  | [] => mdd
  | v :: rest =>
      let peak' := Num.max peak v in
      let mdd' := if (peak' >? Fin 0)%num then Num.min mdd (v / peak' - Fin 1)%num else mdd in
      mddLoop rest peak' mdd'
  end.

(** [{ cashIn, endValue, pnl, rtn, cagr, volAnn, sharpe, mdd }] *)
Record Metrics : Type := mkMetrics {
  m_cashIn : Q;
  m_endValue : num;
  m_pnl : num;
  m_rtn : num;
  m_cagr : num;
  m_volAnn : num;
  m_sharpe : num;
  m_mdd : num
}.

Section MetricsOf.

(** [Math.pow] with a fractional exponent and [Math.sqrt] are functions of
    the platform; the statistics are stated for any such pair. *)
Variable Math_pow : num → num → num.
Variable Math_sqrt : num → num.

(** [volDaily * Math.sqrt(365)] with
    [volDaily = Math.sqrt(Math.max(0, variance))] *)
Definition volAnnOf (rets : list Q) : num :=
  (Math_sqrt (Num.max (Fin 0) (Fin (varianceOf rets))) * Math_sqrt (Fin 365))%num.

(** The result [{}] of an empty timeline, an object without fields, is
    [None]. *)
Definition metricsFromTimeline (tl : Timeline) : option Metrics :=
  match tl, last tl with
  | first :: _, Some lst =>
      let cashIn := e_cashIn lst in
      let endValue := orZero (e_value lst) in
      let years := (daysBetween (e_t first) (e_t lst) / (1461 # 4))%Q in
      let pnl := (endValue - Fin cashIn)%num in
      let rtn := if Qgtb cashIn 0 then (endValue / Fin cashIn - Fin 1)%num else Fin 0 in
      let cagr := if Qgtb cashIn 0 && Qgtb years 0
                  then (Math_pow (endValue / Fin cashIn) (Fin 1 / Fin years) - Fin 1)%num
                  else Fin 0 in
      let volAnn := volAnnOf (dailyReturns tl) in
      let sharpe := if (volAnn >? Fin 0)%num then (cagr / volAnn)%num else Fin 0 in
      let mdd := mddLoop (map e_value tl) NInf (Fin 0) in
      Some (mkMetrics cashIn endValue pnl rtn cagr volAnn sharpe mdd)
  | _, _ => None
  end.

End MetricsOf.

(** ** Calendar of the platform

    [buildStages] reads the local year and month of a [Date] and builds
    dates with [new Date(y, m, 1)].  These functions of the platform are
    modelled for the proleptic Gregorian calendar and a host whose local
    time is UTC plus a fixed offset of [tz] milliseconds (no daylight
    saving). *)

(** Days from 1 March of year 0 to the first day of month [s], the months
    being counted from that March on. *)
Definition daysToMonth (s : Z) : Z :=
  let ya := s / 12 in
  let mp := s mod 12 in
  365 * ya + ya / 4 - ya / 100 + ya / 400 + (153 * mp + 2) / 5.

(** Day number (days since 1970-01-01) of day [d] of month [m] (January is
    0; a month outside 0..11 carries into the year) of year [y]. *)
Definition daysFromCivil (y m d : Z) : Z :=
  daysToMonth (12 * y + m - 2) - 719468 + (d - 1).

(** Year, month (January is 0) and day of the month of a day number. *)
Definition civilFromDays (z : Z) : Z * Z * Z :=
  let z' := z + 719468 in
  let era := z' / 146097 in
  let doe := z' mod 146097 in
  let yoe := (doe - doe / 1460 + doe / 36524 - doe / 146096) / 365 in
  let doy := doe - (365 * yoe + yoe / 4 - yoe / 100) in
  let mp := (5 * doy + 2) / 153 in
  let d := doy - (153 * mp + 2) / 5 + 1 in
  let m := if mp <? 10 then mp + 2 else mp - 10 in
  let y := yoe + era * 400 + (if mp <? 10 then 0 else 1) in
  (y, m, d).

(** The local day on which the instant [time] falls. *)
Definition localDay (tz time : Z) : Z := (time + tz) / msPerDay.

(** [date.getFullYear()] and [date.getMonth()] *)
Definition getFullYear (tz time : Z) : Z := (civilFromDays (localDay tz time)).1.1.
Definition getMonth (tz time : Z) : Z := (civilFromDays (localDay tz time)).1.2.

(** A year from 0 to 99 given to the [Date] constructor means 1900 + year. *)
Definition twoDigitYear (y : Z) : Z := if (0 <=? y) && (y <=? 99) then 1900 + y else y.

(** The time value of [new Date(y, m, d)]: local midnight of that day. *)
Definition newDate (tz y m d : Z) : Z := daysFromCivil (twoDigitYear y) m d * msPerDay - tz.

(** ** buildStages *)

(** [Math.floor(date.getMonth() / 3) + 1] *)
Definition quarterOf (tz date : Z) : Z := getMonth tz date / 3 + 1.

(** [new Date(date.getFullYear(), q * 3, 1)] with
    [q = Math.floor(date.getMonth() / 3)] *)
Definition startOfQuarter (tz date : Z) : Z :=
  newDate tz (getFullYear tz date) (getMonth tz date / 3 * 3) 1.

(** [{ start, end, label }] *)
Record Stage : Type := mkStage {
  s_start : Z;
  s_end : Z;
  s_label : string
}.

(** The first day of the calendar unit that follows the one of [cur]. *)
Definition nextStart (tz : Z) (granularity : string) (cur : Z) : Z :=
  if String.eqb granularity "year" then newDate tz (getFullYear tz cur + 1) 0 1
  else if String.eqb granularity "quarter" then
    let qStart := startOfQuarter tz cur in
    newDate tz (getFullYear tz qStart) (getMonth tz qStart + 3) 1
  else newDate tz (getFullYear tz cur) (getMonth tz cur + 1) 1.

(** [String(n).padStart(2, '0')] *)
Definition padStart2 (n : Z) : string :=
  let s := pretty n in
  if (String.length s <? 2)%nat then "0" +:+ s else s.

Definition stageLabel (tz : Z) (granularity : string) (stageStart : Z) : string :=
  if String.eqb granularity "year" then pretty (getFullYear tz stageStart)
  else if String.eqb granularity "quarter" then
    pretty (getFullYear tz stageStart) +:+ "-Q" +:+ pretty (quarterOf tz stageStart)
  else pretty (getFullYear tz stageStart) +:+ "-" +:+ padStart2 (getMonth tz stageStart + 1).

(** The [while (cur <= end)] loop of [buildStages]; [fuel] bounds the
    number of turns. *)
Fixpoint stagesLoop (fuel : nat) (tz : Z) (granularity : string) (end_ cur : Z)
    (stages : list Stage) : list Stage :=
  match fuel with
  | O => stages
  | S fuel' =>
      if cur <=? end_ then
        let next := nextStart tz granularity cur in
        let stageEnd := Z.min end_ (next - msPerDay) in
        stagesLoop fuel' tz granularity end_ next
          (stages ++ [mkStage cur stageEnd (stageLabel tz granularity cur)])
      else stages
  end.

(** After its first turn the loop advances by whole months, each of at
    least 28 days. *)
Definition stages_fuel (start end_ : Z) : nat :=
  Z.to_nat ((end_ - start) / (28 * msPerDay) + 2).

Definition buildStages (tz start end_ : Z) (granularity : string) : list Stage :=
  stagesLoop (stages_fuel start end_) tz granularity end_ start [].

(** ** clampRange and drawdownSeries *)

(** [data.filter(d => d.t >= start && d.t <= end)] *)
Definition clampRange (data : Series) (start end_ : Z) : Series :=
  List.filter (λ d, (start <=? t d) && (t d <=? end_)) data.

(** [{ t, dd }] *)
Record DrawdownPoint : Type := mkDrawdown {
  dd_t : Z;
  dd_value : num
}.

(** [tl.map(({ t, value }) => { peak = Math.max(peak, value);
      const dd = peak > 0 ? (value / peak - 1) : 0; return { t, dd } })];
    [peak] is the variable the callback updates. *)
Fixpoint drawdownLoop (rest : Timeline) (peak : num) : list DrawdownPoint :=
  match rest with
  | [] => []
  | e :: rest' =>
      let peak' := Num.max peak (e_value e) in
      let dd := if (peak' >? Fin 0)%num then (e_value e / peak' - Fin 1)%num else Fin 0 in
      mkDrawdown (e_t e) dd :: drawdownLoop rest' peak'
  end.

Definition drawdownSeries (tl : Timeline) : list DrawdownPoint := drawdownLoop tl NInf.

(** ** computeStageReturns *)

(** [{ labels, dca, ls, dip, trend }] *)
Record StageReturns : Type := mkStageReturns {
  sr_labels : list string;
  sr_dca : list num;
  sr_ls : list num;
  sr_dip : list num;
  sr_trend : list num
}.

(** [metrics.rtn || 0]: the field is missing in the object of an empty
    timeline. *)
Definition rtnOrZero (m : option Metrics) : num :=
  match m with
  | Some m => orZero (m_rtn m)
  | None => Fin 0
  end.

Section StageReturnsOf.

Variable Math_pow : num → num → num.
Variable Math_sqrt : num → num.

(** The series [state.raw] and the offset of local time. *)
Variables (raw : Series) (tz : Z).

(** The body of [for (const s of stages)]. *)
Definition stageReturnsStep (amount : Q) (frequency : string) (dipPct : Q) (maDays : Z)
    (acc : StageReturns) (s : Stage) : StageReturns :=
  let rtnOf sim := rtnOrZero (metricsFromTimeline Math_pow Math_sqrt (timeline sim)) in
  let rDCA := rtnOf (simulateDCA raw (s_start s) (s_end s) amount frequency) in
  let rLS := rtnOf (simulateLumpSum raw (s_start s) (s_end s) amount frequency) in
  let rDip := rtnOf (simulateDipBuy raw (s_start s) (s_end s) amount frequency dipPct) in
  let rTrend := rtnOf (simulateTrendDCA raw (s_start s) (s_end s) amount frequency maDays) in
  mkStageReturns (sr_labels acc ++ [s_label s]) (sr_dca acc ++ [rDCA]) (sr_ls acc ++ [rLS])
    (sr_dip acc ++ [rDip]) (sr_trend acc ++ [rTrend]).

Definition computeStageReturns (start end_ : Z) (amount : Q) (frequency : string)
    (dipPct : Q) (maDays : Z) (granularity : string) : StageReturns :=
  let stages := buildStages tz start end_ granularity in
  foldl (stageReturnsStep amount frequency dipPct maDays) (mkStageReturns [] [] [] [] []) stages.

End StageReturnsOf.

(** ** The simulators on binary64 numbers

    The functions above compute with exact rationals.  The module [B64]
    embeds the same code with the numbers of the platform: IEEE 754
    binary64, rounded to nearest, with its infinities, NaN and signed
    zeros (the kernel's primitive floats).  Dates, positions and the
    schedule are integers and are shared with the exact embedding; a price
    of the series is read as the double nearest to the rational of the
    input (the quotient of numerator and denominator, exact below 2^53). *)

Module B64.

Abbreviation float := PrimFloat.float.

Declare Scope b64_scope.
Delimit Scope b64_scope with b64.
Infix "+" := PrimFloat.add : b64_scope.
Infix "-" := PrimFloat.sub : b64_scope.
Infix "*" := PrimFloat.mul : b64_scope.
Infix "/" := PrimFloat.div : b64_scope.
Infix "<?" := PrimFloat.ltb : b64_scope.
Infix "<=?" := PrimFloat.leb : b64_scope.

(** An integer as a double; exact below 2^53. *)
Fixpoint ofPos (n : positive) : float :=
  match n with
  | xH => PrimFloat.one
  | xO n' => (PrimFloat.two * ofPos n')%b64
  | xI n' => (PrimFloat.two * ofPos n' + PrimFloat.one)%b64
  end.

Definition ofZ (z : Z) : float :=
  match z with
  | Z0 => PrimFloat.zero
  | Zpos n => ofPos n
  | Zneg n => PrimFloat.opp (ofPos n)
  end.

Definition ofNat (n : nat) : float := ofZ (Z.of_nat n).

(** A rational of the input as the double nearest to it. *)
Definition ofQ (q : Q) : float := (ofZ (Qnum q) / ofPos (Qden q))%b64.

(** [a || 0]: NaN and the two zeros are the falsy numbers. *)
Definition orZero (a : float) : float :=
  if PrimFloat.is_nan a || PrimFloat.is_zero a then PrimFloat.zero else a.

(** [Math.max(a, b)]: NaN if either is; of the two zeros the positive one. *)
Definition max (a b : float) : float :=
  if PrimFloat.is_nan a || PrimFloat.is_nan b then PrimFloat.nan
  else if (a <? b)%b64 then b
  else if (b <? a)%b64 then a
  else if PrimFloat.get_sign a then b else a.

Record Entry : Type := mkEntry {
  e_t : Z;
  e_p : float;
  e_cashIn : float;
  e_units : float;
  e_value : float;
  e_cashPile : option float;
  e_ma : option float
}.

Abbreviation Timeline := (list Entry).

Record Summary : Type := mkSummary {
  r_cashIn : float;
  r_units : float;
  r_endValue : float
}.

Record Simulation : Type := mkSimulation {
  timeline : Timeline;
  result : Summary
}.

(** [timeline.at(-1)?.value || 0] *)
Definition endValueOf (tl : Timeline) : float :=
  match last tl with
  | Some e => orZero (e_value e)
  | None => PrimFloat.zero
  end.

(** *** simulateDCA *)

Record DcaState : Type := mkDca {
  dca_cashIn : float;
  dca_units : float;
  dca_sPtr : nat;
  dca_timeline : Timeline
}.

Definition dcaHit (schedule : list nat) (i : nat) (st : DcaState) : bool :=
  match schedule !! dca_sPtr st with
  | Some s => Nat.eqb i s
  | None => false
  end.

Definition dcaDay (amount : float) (schedule : list nat) (i : nat) (d : PricePoint)
    (st : DcaState) : DcaState :=
  let price := ofQ (p d) in
  let hit := dcaHit schedule i st in
  let cashIn := if hit then (dca_cashIn st + amount)%b64 else dca_cashIn st in
  let units := if hit then (dca_units st + amount / price)%b64 else dca_units st in
  let sPtr := if hit then S (dca_sPtr st) else dca_sPtr st in
  let value := (units * price)%b64 in
  mkDca cashIn units sPtr
        (dca_timeline st ++ [mkEntry (t d) price cashIn units value None None]).

Definition simulateDCA (data : Series) (start end_ : Z) (amount : float) (frequency : string)
    : Simulation :=
  let schedule := buildScheduleIdx data start end_ frequency in
  let st := windowLoop start end_ (dcaDay amount schedule) data 0
              (mkDca PrimFloat.zero PrimFloat.zero 0 []) in
  mkSimulation (dca_timeline st)
    (mkSummary (dca_cashIn st) (dca_units st) (endValueOf (dca_timeline st))).

(** *** simulateLumpSum *)

Fixpoint lumpLoop (end_ : Z) (total units : float) (rest : Series) (tl : Timeline)
    : Timeline :=
  match rest with
  | [] => tl
  | d :: rest' =>
      if t d <=? end_ then
        lumpLoop end_ total units rest'
          (tl ++ [mkEntry (t d) (ofQ (p d)) total units (units * ofQ (p d))%b64 None None])
      else tl
  end.

Definition simulateLumpSum (data : Series) (start end_ : Z) (amount : float)
    (frequency : string) : Simulation :=
  let periods := length (buildScheduleIdx data start end_ frequency) in
  let total := (ofNat periods * amount)%b64 in
  match findIndex (λ d, start <=? t d) data with
  | None => mkSimulation [] (mkSummary PrimFloat.zero PrimFloat.zero PrimFloat.zero)
  | Some iStart =>
      match data !! iStart with
      | None => mkSimulation [] (mkSummary PrimFloat.zero PrimFloat.zero PrimFloat.zero)
      | Some d0 =>
          let units := (total / ofQ (p d0))%b64 in
          let tl := lumpLoop end_ total units (drop iStart data) [] in
          mkSimulation tl (mkSummary total units (endValueOf tl))
      end
  end.

(** *** simulateDipBuy *)

Record PileState : Type := mkPile {
  ps_cashIn : float;
  ps_units : float;
  ps_cashPile : float;
  ps_peak : float;
  ps_timeline : Timeline
}.

Definition dipInit : PileState :=
  mkPile PrimFloat.zero PrimFloat.zero PrimFloat.zero PrimFloat.neg_infinity [].

Definition dipDay (amount dipPct : float) (scheduleSet : gset nat) (i : nat) (d : PricePoint)
    (st : PileState) : PileState :=
  let price := ofQ (p d) in
  let hit := has scheduleSet i in
  let cashIn := if hit then (ps_cashIn st + amount)%b64 else ps_cashIn st in
  let pile := if hit then (ps_cashPile st + amount)%b64 else ps_cashPile st in
  let peak := max (ps_peak st) price in
  let drawdown := ((peak - price) / peak)%b64 in
  let buy := PrimFloat.is_finite drawdown && (dipPct <=? drawdown)%b64
             && (PrimFloat.zero <? pile)%b64 in
  let units := if buy then (ps_units st + pile / price)%b64 else ps_units st in
  let pile' := if buy then PrimFloat.zero else pile in
  let value := (units * price + pile')%b64 in
  mkPile cashIn units pile' peak
         (ps_timeline st ++ [mkEntry (t d) price cashIn units value (Some pile') None]).

Definition simulateDipBuy (data : Series) (start end_ : Z) (amount : float)
    (frequency : string) (dipPct : float) : Simulation :=
  let schedule := buildScheduleIdx data start end_ frequency in
  let scheduleSet := scheduleSetOf schedule in
  let st := windowLoop start end_ (dipDay amount dipPct scheduleSet) data 0 dipInit in
  mkSimulation (ps_timeline st)
    (mkSummary (ps_cashIn st) (ps_units st) (endValueOf (ps_timeline st))).

(** *** sma and simulateTrendDCA *)

(** [arr[k]]: [undefined], in arithmetic NaN, outside the array. *)
Definition readNum (arr : list float) (k : Z) : float :=
  if k <? 0 then PrimFloat.nan else default PrimFloat.nan (arr !! Z.to_nat k).

Fixpoint smaLoop (arr : list float) (window : Z) (rest : list float) (i : nat) (sum : float)
    : list float :=
  match rest with
  | [] => []
  | x :: rest' =>
      let sum1 := (sum + x)%b64 in
      let sum2 := if window <=? Z.of_nat i
                  then (sum1 - readNum arr (Z.of_nat i - window))%b64 else sum1 in
      let out_i := if window - 1 <=? Z.of_nat i
                   then (sum2 / ofZ window)%b64 else PrimFloat.nan in
      out_i :: smaLoop arr window rest' (S i) sum2
  end.

Definition sma (arr : list float) (window : Z) : list float :=
  smaLoop arr window arr 0 PrimFloat.zero.

Record TrendState : Type := mkTrend {
  ts_cashIn : float;
  ts_units : float;
  ts_cashPile : float;
  ts_timeline : Timeline
}.

Definition trendDay (amount : float) (maN : Z) (ma : list float) (scheduleSet : gset nat)
    (i : nat) (d : PricePoint) (st : TrendState) : TrendState :=
  let price := ofQ (p d) in
  let hit := has scheduleSet i in
  let cashIn := if hit then (ts_cashIn st + amount)%b64 else ts_cashIn st in
  let pile := if hit then (ts_cashPile st + amount)%b64 else ts_cashPile st in
  let ma_i := default PrimFloat.nan (ma !! i) in
  let buy := (maN - 1 <=? Z.of_nat i) && (ma_i <? price)%b64
             && (PrimFloat.zero <? pile)%b64 in
  let units := if buy then (ts_units st + pile / price)%b64 else ts_units st in
  let pile' := if buy then PrimFloat.zero else pile in
  let value := (units * price + pile')%b64 in
  mkTrend cashIn units pile'
          (ts_timeline st ++ [mkEntry (t d) price cashIn units value (Some pile') (Some ma_i)]).

Definition simulateTrendDCA (data : Series) (start end_ : Z) (amount : float)
    (frequency : string) (maN : Z) : Simulation :=
  let prices := map (λ d, ofQ (p d)) data in
  let ma := sma prices maN in
  let schedule := buildScheduleIdx data start end_ frequency in
  let scheduleSet := scheduleSetOf schedule in
  let st := windowLoop start end_ (trendDay amount maN ma scheduleSet) data 0
              (mkTrend PrimFloat.zero PrimFloat.zero PrimFloat.zero []) in
  mkSimulation (ts_timeline st)
    (mkSummary (ts_cashIn st) (ts_units st) (endValueOf (ts_timeline st))).

End B64.

(** * Vocabulary of the properties *)

(** ** Series used in examples *)

(** Dates as day numbers, for examples. *)
Definition day (n : Z) : Z := n * msPerDay.

(** Two days of data ten days apart. *)
Definition gapSeries : Series := [mkPoint (day 0) 100; mkPoint (day 10) 100].

(** Two consecutive days, the price halves. *)
Definition crashSeries : Series := [mkPoint (day 0) 100; mkPoint (day 1) 50].

(** ** Lists whose neighbours are related *)

Definition chain {A : Type} (R : A → A → Prop) (l : list A) : Prop :=
  ∀ i a b, l !! i = Some a → l !! S i = Some b → R a b.

Definition nondecreasing (l : list nat) : Prop := chain le l.
Definition strictlyIncreasing (l : list nat) : Prop := chain lt l.

(** ** The longest strictly increasing prefix of a schedule *)

Fixpoint incPrefix (l : list nat) : list nat :=
  match l with
  | [] => []
  | x :: l' =>
      x :: match l' with
           | y :: _ => if (x <? y)%nat then incPrefix l' else []
           | [] => []
           end
  end.

(** ** simulateDCA: what its pointer into the schedule consumes *)

(** The pointer of [simulateDCA] has consumed the entries before it, which
    are behind the loop position [i]; the entry it points to, while inside
    the increasing prefix, is still ahead. *)
Definition dcaInv (amount : Q) (schedule : list nat) (i : nat) (st : DcaState) : Prop :=
  (dca_sPtr st ≤ length (incPrefix schedule))%nat
  ∧ (∀ m a, (m < dca_sPtr st)%nat → schedule !! m = Some a → (a < i)%nat)
  ∧ (∀ a, (dca_sPtr st < length (incPrefix schedule))%nat →
          schedule !! dca_sPtr st = Some a → (i ≤ a)%nat)
  ∧ (dca_cashIn st == amount * Qnat (dca_sPtr st))%Q.

(** ** Checking a concrete series *)

Definition positivePricesb (data : Series) : bool :=
  forallb (λ d, Qltb 0 (p d)) data.

(** ** Strategies that hold a cash pile: how often they contribute *)

(** Is position [i] a day of the series inside [start, end]? *)
Definition inWindowAt (data : Series) (start end_ : Z) (i : nat) : bool :=
  match data !! i with
  | Some d => negb (outOfWindow start end_ d)
  | None => false
  end.

(** Number of distinct scheduled positions that are days inside the window. *)
Definition distinctInWindow (data : Series) (start end_ : Z) (schedule : list nat) : nat :=
  size (filter (λ i, inWindowAt data start end_ i = true) (scheduleSetOf schedule)).

(** Contributions made by the loop over [rest], which starts at position [i]. *)
Fixpoint countHits (start end_ : Z) (scheduleSet : gset nat) (rest : Series) (i : nat) : nat :=
  match rest with
  | [] => O
  | d :: rest' =>
      ((if negb (outOfWindow start end_ d) && has scheduleSet i then 1 else 0)
       + countHits start end_ scheduleSet rest' (S i))%nat
  end.

(** ** Timelines that never go down *)

Definition cashStep (a b : Entry) : Prop := (e_cashIn a <= e_cashIn b)%Q.
Definition unitsStep (a b : Entry) : Prop := (e_units a <=? e_units b)%num = true.

(** [cumulativeCashIn] and [unitsHeld] are non-decreasing from each entry
    to the next. *)
Definition monotoneTimeline (tl : Timeline) : Prop :=
  chain cashStep tl ∧ chain unitsStep tl.

(** The timeline built so far is monotone and its last row carries the
    current values of the running variables [cashIn] and [units]. *)
Definition tracks (tl : Timeline) (cashIn : Q) (units : num) : Prop :=
  monotoneTimeline tl
  ∧ (∃ u, units = Fin u)
  ∧ ∀ e, last tl = Some e → e_cashIn e = cashIn ∧ e_units e = units.

(** ** Empty windows *)

Definition zeroSummary : Summary := mkSummary 0 (Fin 0) (Fin 0).

Definition summaryEqv (a b : Summary) : Prop :=
  (r_cashIn a == r_cashIn b)%Q ∧ r_units a =n= r_units b ∧ r_endValue a =n= r_endValue b.

Definition emptyResult (s : Simulation) : Prop :=
  timeline s = [] ∧ summaryEqv (result s) zeroSummary.

(** ** Daily returns and volatility *)

Definition finiteOnly (r : num) : option Q :=
  match r with
  | Fin q => Some q
  | _ => None
  end.

(** One return for each pair of neighbouring rows, in order: the ratio
    minus one when the earlier value is positive, zero otherwise; kept
    when finite. *)
Definition returnsOfPairs (tl : Timeline) : list Q :=
  omap (λ ab, finiteOnly (dayReturn (e_value ab.1) (e_value ab.2))) (zip tl (tail tl)).

(** The collection in which a pair whose earlier value is not positive
    leaves no element. *)
Definition returnsOfPositivePairs (tl : Timeline) : list Q :=
  omap (λ ab, if (e_value ab.1 >? Fin 0)%num
              then finiteOnly (e_value ab.2 / e_value ab.1 - Fin 1)%num
              else None)
       (zip tl (tail tl)).

Definition Qsum (l : list Q) : Q := foldr Qplus 0%Q l.

Definition sampleMean (l : list Q) : Q := (Qsum l / Qnat (length l))%Q.

(** Sample variance with Bessel's correction. *)
Definition sampleVariance (l : list Q) : Q :=
  (Qsum (map (λ x, (x - sampleMean l) * (x - sampleMean l)) l) / (Qnat (length l) - 1))%Q.

(** ** simulateDipBuy: deployment of the pile *)


(** ** The calendar

    Arithmetic with the floor divisions of the calendar formulas. *)

(** Days from 1 March of year 0 to 1 March of year [y]. *)
Definition daysToYear (y : Z) : Z := 365 * y + y / 4 - y / 100 + y / 400.
(** Days from 1 March to the first day of the month [mp] months later. *)
Definition daysInYearTo (mp : Z) : Z := (153 * mp + 2) / 5.

(** ** Months as seen through the [Date] functions *)

(** The month of an instant, counted from January of year 0. *)
Definition monthIndexOf (tz time : Z) : Z := 12 * getFullYear tz time + getMonth tz time.

(** Local midnight of the first day of month [idx]. *)
Definition monthStart (tz idx : Z) : Z := (daysToMonth (idx - 2) - 719468) * msPerDay - tz.

(** ** The stages *)






Definition stagesMonth : Z := 28 * msPerDay.

(** [new Date('YYYY-MM-DD')]: midnight UTC of that day (January is month 0
    here, as for [newDate]). *)
Definition utcMidnight (y m d : Z) : Z := daysFromCivil y m d * msPerDay.


(** * Vocabulary of the further properties *)

(** ** sma *)

(** The running sum of [sma] at position [i]: the sum of the [min i w]
    elements before [i], as a difference of prefix sums. *)
Definition smaSumInv (arr : list Q) (w i : nat) (s : Q) : Prop :=
  (s == Qsum (take i arr) - Qsum (take (i - Nat.min i w) arr))%Q.

(** What [sma] writes at position [j]. *)
Definition smaOut (arr : list Q) (window : Z) (j : nat) (o : option num) : Prop :=
  if (Z.of_nat j <? window - 1) then o = Some NaN
  else ∃ q, o = Some (Fin q)
            ∧ (q == (Qsum (take (S j) arr) - Qsum (take (S j - Z.to_nat window) arr))
                    / inject_Z window)%Q.

(** ** simulateTrendDCA with a window longer than the series *)

(** A row whose contributions are all still in the pile. *)
Definition nothingBought (e : Entry) : Prop :=
  e_units e = Fin 0 ∧ e_cashPile e = Some (e_cashIn e).

(** ** drawdownSeries and the maximum drawdown *)

(** A running peak: still [-Infinity] or a finite number. *)
Definition peakSoFar (peak : num) : Prop := peak = NInf ∨ ∃ x, peak = Fin x.

(** A finite number that is at most zero. *)
Definition atMostZero (a : num) : Prop := ∃ q, a = Fin q ∧ (q <= 0)%Q.

Definition finiteValues (tl : Timeline) : Prop :=
  Forall (λ e, isFinite (e_value e) = true) tl.

(** [Math.min] over the drawdown curve, from 0. *)
Definition minDrawdown (dds : list DrawdownPoint) : num :=
  foldl (λ m pt, Num.min m (dd_value pt)) (Fin 0) dds.

(** ** Finite values *)



(** ** Rows of a timeline and clampRange *)

(** The date and the price of each row, and of each day of a series. *)
Definition rowsOf (tl : Timeline) : list (Z * Q) := map (λ e, (e_t e, e_p e)) tl.
Definition pointsOf (data : Series) : list (Z * Q) := map (λ d, (t d, p d)) data.

(** The series is in ascending order of date, as [loadCSV] sorts it. *)
Definition ascending (data : Series) : Prop :=
  ∀ i j a b, (i ≤ j)%nat → data !! i = Some a → data !! j = Some b → t a ≤ t b.

(** ** The metrics and the summary of a simulation *)

(** [metricsFromTimeline] reports the cash paid in and the final value
    that the summary of the simulation holds. *)
Definition metricsMatchSummary (Math_pow : num → num → num) (Math_sqrt : num → num)
    (s : Simulation) : Prop :=
  match metricsFromTimeline Math_pow Math_sqrt (timeline s) with
  | Some m => m_cashIn m = r_cashIn (result s) ∧ m_endValue m = r_endValue (result s)
  | None => timeline s = []
  end.

(** The last row carries the running total of the cash paid in. *)
Definition lastCashIn (tl : Timeline) (cashIn : Q) : Prop :=
  ∀ e, last tl = Some e → e_cashIn e = cashIn.

(** ** The cash pile *)

(** The pile recorded on a row is never negative and never more than the
    cash paid in so far. *)
Definition pileWithinCashIn (e : Entry) : Prop :=
  ∃ pile, e_cashPile e = Some pile ∧ (0 <= pile <= e_cashIn e)%Q.

Definition pileRun (tl : Timeline) (pile cashIn : Q) : Prop :=
  (0 <= pile <= cashIn)%Q ∧ Forall pileWithinCashIn tl.

(** ** Series without gaps *)

(** From each day of the series to the next, at most [stepMs] pass. *)
Definition gapsAtMost (stepMs : Z) (data : Series) : Prop :=
  chain (λ a b, t b - t a ≤ stepMs) data.

(** The position pushed last is behind the scan of the cursor and its day
    is before the cursor. *)
Definition lastBehind (data : Series) (iStart : nat) (cursor : Z) (idx : list nat) : Prop :=
  ∀ a, last idx = Some a →
       (a ≤ scanFrom (drop iStart data) iStart cursor)%nat
       ∧ ∃ d, data !! a = Some d ∧ t d < cursor.

(** ** computeStageReturns *)

(** The five lists after the loop of [computeStageReturns] has gone through
    [stages], started from [acc]. *)
Definition stageColumns (acc : StageReturns) : list (list num) :=
  [sr_dca acc; sr_ls acc; sr_dip acc; sr_trend acc].

(** ** simulateTrendDCA buys above the moving average *)

(** The row is the day at some position of the series, with the moving
    average of the prices at that position. *)
Definition trendRowAt (data : Series) (maN : Z) (e : Entry) : Prop :=
  ∃ i d, data !! i = Some d ∧ e_t e = t d ∧ e_p e = p d
         ∧ e_ma e = sma (map p data) maN !! i.

(** The price of the row is above the moving average that it records. *)
Definition aboveMA (e : Entry) : Prop :=
  ∃ ma, e_ma e = Some ma ∧ (Fin (e_p e) >? ma)%num = true.

(** From one row to the next the units change only on a row whose price is
    above its moving average. *)
Definition buysAboveMA (a b : Entry) : Prop := e_units a = e_units b ∨ aboveMA b.

Definition trendRun (data : Series) (maN : Z) (s : TrendState) : Prop :=
  Forall (trendRowAt data maN) (ts_timeline s)
  ∧ (∀ e, head (ts_timeline s) = Some e → e_units e = Fin 0 ∨ aboveMA e)
  ∧ chain buysAboveMA (ts_timeline s)
  ∧ (∀ e, last (ts_timeline s) = Some e → e_units e = ts_units s)
  ∧ (ts_timeline s = [] → ts_units s = Fin 0).

(** * Vocabulary of the properties of capital, schedule and stages *)

(** ** Contributions added one by one *)

(** [amount] added [n] times, starting from [zero]: what [n] executions of
    [cashIn += amount] leave in [cashIn]. *)
Definition addedTimes {C : Type} (add : C → C → C) (zero : C) (n : nat) (amount : C) : C :=
  Nat.iter n (λ c, add c amount) zero.

(** [sPtr < schedule.length && i === schedule[sPtr]] for a pointer at [sPtr]. *)
Definition hitAt (schedule : list nat) (i sPtr : nat) : bool :=
  match schedule !! sPtr with
  | Some s => Nat.eqb i s
  | None => false
  end.

(** The pointer has consumed the entries before it, which are behind the
    loop position [i]; the entry it points to, while inside the increasing
    prefix, is still ahead. *)
Definition ptrInv (schedule : list nat) (i sPtr : nat) : Prop :=
  (sPtr ≤ length (incPrefix schedule))%nat
  ∧ (∀ m a, (m < sPtr)%nat → schedule !! m = Some a → (a < i)%nat)
  ∧ (∀ a, (sPtr < length (incPrefix schedule))%nat → schedule !! sPtr = Some a → (i ≤ a)%nat).

(** Consecutive days, one row a day, all at the same price. *)
Definition dailySeries (n : nat) (price : Q) : Series :=
  map (λ i, mkPoint (day (Z.of_nat i)) price) (seq 0 n).

(** ** The schedule, tick by tick *)

(** [j] is the first position from [from] on whose day is on or after
    [date]. *)
Definition firstDayAtOrAfter (data : Series) (from : nat) (date : Z) (j : nat) : Prop :=
  (from ≤ j)%nat
  ∧ (∃ d, data !! j = Some d ∧ date ≤ t d)
  ∧ ∀ i d, (from ≤ i < j)%nat → data !! i = Some d → t d < date.

(** The schedule advances by [stepMs]: its entry number [k] is the first
    day on or after the date [k] steps after the first day on or after
    [start], and there is such an entry exactly when that day is neither
    after [end] nor after the last day of the series. *)
Definition advancesBy (stepMs : Z) (data : Series) (start end_ : Z) (schedule : list nat)
    : Prop :=
  match findIndex (λ d, start <=? t d) data with
  | None => schedule = []
  | Some iStart =>
      ∀ d0 lastD, data !! iStart = Some d0 → lastDate data = Some lastD →
      ∀ k j, schedule !! k = Some j ↔
             firstDayAtOrAfter data iStart (t d0 + Z.of_nat k * stepMs) j
             ∧ ∃ d, data !! j = Some d ∧ t d ≤ Z.min end_ lastD
  end.

(** What the loop of [buildScheduleIdx] pushes from the cursor on. *)
Fixpoint ticksFrom (fuel : nat) (data : Series) (iStart : nat) (endDate stepMs cursor : Z)
    : list nat :=
  match fuel with
  | O => []
  | S fuel' =>
      if cursor <=? endDate then
        pushIfInRange data endDate (scanFrom (drop iStart data) iStart cursor) []
        ++ ticksFrom fuel' data iStart endDate stepMs (cursor + stepMs)
      else []
  end.

(** ** simulateDipBuy: the running peak *)

(** Three consecutive days, the price slides from 100 to 90 to 80. *)
Definition slideSeries : Series :=
  [mkPoint (day 0) 100; mkPoint (day 1) 90; mkPoint (day 2) 80].



(** ** Daily returns and volatility, as the specification words them *)

(** The return of one pair of neighbouring values: [cur / prev - 1] when
    [prev > 0], and 0 when it is not. *)
Definition specReturn (prev cur : num) : num :=
  if (Fin 0 <? prev)%num then (cur / prev - Fin 1)%num else Fin 0.

(** One return for each pair of neighbouring rows, in order, kept when it
    is a finite number. *)
Definition specReturns (tl : Timeline) : list Q :=
  omap (λ ab, finiteOnly (specReturn (e_value ab.1) (e_value ab.2))) (zip tl (tail tl)).

(** The sample variance with Bessel's correction from two returns on, and
    0 for fewer. *)
Definition specVariance (rets : list Q) : Q :=
  match rets with
  | _ :: _ :: _ => sampleVariance rets
  | _ => 0%Q
  end.

(** Three days of contributions while the price slides. *)
Definition slideTimeline : Timeline :=
  timeline (simulateDCA slideSeries (day 0) (day 2) 100 "daily").

(** ** Empty windows and a price of zero *)

(** One day, of price 0, after the window. *)
Definition zeroPriceSeries : Series := [mkPoint (day 5) 0].

(** * Properties *)

(** ** The embedding on examples *)

Example schedule_gap_daily :
  buildScheduleIdx gapSeries (day 0) (day 10) "daily" = [0; 1; 1; 1; 1; 1; 1; 1; 1; 1; 1]%nat.
Proof. vm_compute. reflexivity. Qed.

Example dca_gap : r_cashIn (result (simulateDCA gapSeries (day 0) (day 10) 100 "daily")) = 200%Q.
Proof. vm_compute. reflexivity. Qed.

Example epoch_is_day_0 : daysFromCivil 1970 0 1 = 0 ∧ civilFromDays 0 = (1970, 0, 1).
Proof. by vm_compute. Qed.

Example leap_day_2024 : daysFromCivil 2024 1 29 = 19782 ∧ civilFromDays 19782 = (2024, 1, 29).
Proof. by vm_compute. Qed.

Example month_12_is_next_january : daysFromCivil 2020 12 1 = daysFromCivil 2021 0 1.
Proof. by vm_compute. Qed.

(** ** Positions found by [findIndex] and by the scan *)

Lemma findIndexFrom_Some f rest i k :
  findIndexFrom f rest i = Some k →
  (i ≤ k)%nat ∧ ∃ d, rest !! (k - i)%nat = Some d ∧ f d = true.
Proof.
  revert i. induction rest as [|d rest IH]; intros i H; simpl in H; [done|].
  destruct (f d) eqn:Hf.
  - inversion H; subst. split; [lia|]. exists d. by rewrite Nat.sub_diag.
  - destruct (IH _ H) as [Hle (d' & Hd' & Hfd')]. split; [lia|].
    exists d'. split; [|done].
    replace (k - i)%nat with (S (k - S i)) by lia. done.
Qed.

Lemma findIndex_Some f data k :
  findIndex f data = Some k → ∃ d, data !! k = Some d ∧ f d = true.
Proof.
  intros H. destruct (findIndexFrom_Some _ _ _ _ H) as [_ (d & Hd & Hf)].
  exists d. by rewrite Nat.sub_0_r in Hd.
Qed.

Lemma scanFrom_ge rest j cursor : (j ≤ scanFrom rest j cursor)%nat.
Proof.
  revert j. induction rest as [|d rest IH]; intros j; simpl; [lia|].
  destruct (t d <? cursor); [|lia]. specialize (IH (S j)). lia.
Qed.

(** A later cursor never resolves to an earlier position. *)
Lemma scanFrom_mono rest j c1 c2 :
  c1 ≤ c2 → (scanFrom rest j c1 ≤ scanFrom rest j c2)%nat.
Proof.
  intros Hc. revert j. induction rest as [|d rest IH]; intros j; simpl; [lia|].
  destruct (t d <? c1) eqn:H1; destruct (t d <? c2) eqn:H2; try lia.
  - apply IH.
  - pose proof (scanFrom_ge rest (S j) c2). lia.
Qed.

(** The scan stops on a day that is not before the cursor. *)
Lemma scanFrom_reaches (data rest : Series) j cursor d :
  drop j data = rest → data !! scanFrom rest j cursor = Some d → cursor ≤ t d.
Proof.
  revert j. induction rest as [|d0 rest IH]; intros j Hdrop; simpl.
  - intros Hd. apply lookup_lt_Some in Hd.
    apply (f_equal length) in Hdrop. rewrite length_drop in Hdrop. simpl in Hdrop. lia.
  - assert (data !! j = Some d0 ∧ drop (S j) data = rest) as [Hj Hrest].
    { split.
      - rewrite <- (Nat.add_0_r j), <- lookup_drop, Hdrop. done.
      - replace (S j) with (j + 1)%nat by lia. rewrite <- drop_drop, Hdrop. done. }
    destruct (t d0 <? cursor) eqn:E; [by apply IH|].
    rewrite Hj. intros [= <-]. lia.
Qed.

(** ** The schedule *)

Lemma pushIfInRange_elem data endDate j idx k :
  k ∈ pushIfInRange data endDate j idx →
  k ∈ idx ∨ (k = j ∧ ∃ d, data !! j = Some d ∧ t d ≤ endDate).
Proof.
  unfold pushIfInRange. destruct (data !! j) as [d|] eqn:Hd; [|by left].
  destruct (t d <=? endDate) eqn:Hle; [|by left].
  intros [Hk|Hk]%elem_of_app; [by left|].
  apply list_elem_of_singleton in Hk. right. split; [done|].
  exists d. split; [done|]. by apply Z.leb_le.
Qed.

Lemma scheduleLoop_elem fuel data iStart endDate stepMs cursor idx k :
  0 ≤ stepMs →
  k ∈ scheduleLoop fuel data iStart endDate stepMs cursor idx →
  k ∈ idx ∨ ((iStart ≤ k)%nat ∧ ∃ d, data !! k = Some d ∧ t d ≤ endDate ∧ cursor ≤ t d).
Proof.
  intros Hs. revert cursor idx.
  induction fuel as [|fuel IH]; intros cursor idx; simpl; [by left|].
  destruct (cursor <=? endDate); [|by left].
  intros [Hk|(Hge & d & Hd & Hle & Hc)]%IH.
  - apply pushIfInRange_elem in Hk as [Hk|[-> (d & Hd & Hle)]]; [by left|].
    right. split; [apply scanFrom_ge|]. exists d. split; [done|]. split; [done|].
    by apply (scanFrom_reaches data (drop iStart data) iStart cursor).
  - right. split; [done|]. exists d. repeat split; try done. lia.
Qed.

(** The loop leaves by its own test: any fuel from [schedule_fuel] on
    gives the same schedule. *)
Lemma schedule_fuel_step endDate stepMs cursor :
  0 < stepMs → cursor ≤ endDate →
  schedule_fuel endDate stepMs cursor = S (schedule_fuel endDate stepMs (cursor + stepMs)).
Proof.
  intros Hs Hc. unfold schedule_fuel.
  replace (endDate - cursor) with ((endDate - (cursor + stepMs)) + 1 * stepMs) by lia.
  rewrite Z.div_add by lia.
  assert (-1 ≤ (endDate - (cursor + stepMs)) / stepMs).
  { apply Z.div_le_lower_bound; lia. }
  rewrite <- Z2Nat.inj_succ by lia. f_equal; lia.
Qed.

Lemma schedule_fuel_done endDate stepMs cursor :
  0 < stepMs → endDate < cursor → schedule_fuel endDate stepMs cursor = O.
Proof.
  intros Hs Hc. unfold schedule_fuel.
  assert ((endDate - cursor) / stepMs < 0) by (apply Z.div_lt_upper_bound; lia).
  lia.
Qed.

Lemma scheduleLoop_fuel_enough fuel data iStart endDate stepMs cursor idx :
  0 < stepMs →
  (schedule_fuel endDate stepMs cursor ≤ fuel)%nat →
  scheduleLoop fuel data iStart endDate stepMs cursor idx =
  scheduleLoop (schedule_fuel endDate stepMs cursor) data iStart endDate stepMs cursor idx.
Proof.
  intros Hs. revert cursor idx. induction fuel as [|fuel IH]; intros cursor idx Hf.
  - by replace (schedule_fuel endDate stepMs cursor) with O by lia.
  - destruct (Z_le_gt_dec cursor endDate) as [Hc|Hc].
    + rewrite schedule_fuel_step in * by done. simpl.
      destruct (cursor <=? endDate); [|done]. apply IH. lia.
    + rewrite schedule_fuel_done by lia. simpl.
      destruct (cursor <=? endDate) eqn:E; [apply Z.leb_le in E; lia|done].
Qed.

Lemma stepDays_pos frequency : 0 < stepDays frequency * msPerDay.
Proof.
  unfold stepDays, msPerDay.
  destruct (String.eqb frequency "daily"); [lia|].
  destruct (String.eqb frequency "weekly"); lia.
Qed.

(** Every scheduled position is a position of the series. *)
Lemma schedule_in_bounds data start end_ frequency k :
  k ∈ buildScheduleIdx data start end_ frequency → (k < length data)%nat.
Proof.
  unfold buildScheduleIdx.
  destruct (findIndex _ data) as [iStart|]; [|by intros ?%elem_of_nil].
  destruct (data !! iStart) as [d0|]; [|by intros ?%elem_of_nil].
  destruct (lastDate data) as [lastD|]; [|by intros ?%elem_of_nil].
  intros [Hk|[_ (d & Hd & _)]]%scheduleLoop_elem; [by apply elem_of_nil in Hk| |].
  - by eapply lookup_lt_Some.
  - pose proof (stepDays_pos frequency). lia.
Qed.

(** Every scheduled day lies in the window: it is not before the cursor,
    which starts at the first day on or after [start], nor after [endDate]. *)
Lemma schedule_in_window data start end_ frequency k :
  k ∈ buildScheduleIdx data start end_ frequency →
  ∃ d, data !! k = Some d ∧ outOfWindow start end_ d = false.
Proof.
  unfold buildScheduleIdx.
  destruct (findIndex _ data) as [iStart|] eqn:Hfi; [|by intros ?%elem_of_nil].
  apply findIndex_Some in Hfi as (d0 & Hd0 & Hstart). rewrite Hd0.
  destruct (lastDate data) as [lastD|]; [|by intros ?%elem_of_nil].
  intros [Hk|[Hge (d & Hd & Hle & Hc)]]%scheduleLoop_elem;
    [by apply elem_of_nil in Hk| |pose proof (stepDays_pos frequency); lia].
  exists d. split; [done|].
  apply Z.leb_le in Hstart. unfold outOfWindow.
  apply orb_false_intro; [apply Z.ltb_ge; lia|apply Z.ltb_ge].
  destruct (end_ <=? lastD) eqn:E; [lia|]. apply Z.leb_gt in E. lia.
Qed.

(** ** Lists whose neighbours are related *)

Lemma chain_nil {A : Type} (R : A → A → Prop) : chain R [].
Proof. intros i a b H. by rewrite lookup_nil in H. Qed.

Lemma chain_snoc {A : Type} (R : A → A → Prop) (l : list A) (x : A) :
  chain R l → (∀ a, last l = Some a → R a x) → chain R (l ++ [x]).
Proof.
  intros Hl Hx i a b Ha Hb.
  assert (S i < length (l ++ [x]))%nat as Hlen by (by eapply lookup_lt_Some).
  rewrite length_app in Hlen. simpl in Hlen.
  rewrite lookup_app_l in Ha by lia.
  destruct (decide (S i < length l)%nat) as [Hin|Hout].
  - rewrite lookup_app_l in Hb by lia. by eapply Hl.
  - rewrite lookup_app_r in Hb by lia.
    replace (S i - length l)%nat with O in Hb by lia. simpl in Hb.
    inversion Hb; subst. apply Hx. rewrite last_lookup.
    by replace (pred (length l)) with i by lia.
Qed.

Lemma scheduleLoop_nondecreasing fuel data iStart endDate stepMs cursor idx :
  0 ≤ stepMs →
  nondecreasing idx →
  (∀ a, last idx = Some a → (a ≤ scanFrom (drop iStart data) iStart cursor)%nat) →
  nondecreasing (scheduleLoop fuel data iStart endDate stepMs cursor idx).
Proof.
  intros Hs. revert cursor idx.
  induction fuel as [|fuel IH]; intros cursor idx Hidx Hlast; simpl; [done|].
  destruct (cursor <=? endDate); [|done].
  pose proof (scanFrom_mono (drop iStart data) iStart cursor (cursor + stepMs)) as Hm.
  apply IH.
  - unfold pushIfInRange.
    destruct (data !! scanFrom (drop iStart data) iStart cursor) as [d|]; [|exact Hidx].
    destruct (t d <=? endDate); [|exact Hidx]. apply chain_snoc; [exact Hidx|exact Hlast].
  - intros a. unfold pushIfInRange. destruct (data !! scanFrom (drop iStart data) iStart cursor) as [d|].
    + destruct (t d <=? endDate).
      * rewrite last_snoc. intros [= <-]. lia.
      * intros Ha%Hlast. lia.
    + intros Ha%Hlast. lia.
Qed.

Lemma schedule_nondecreasing data start end_ frequency :
  nondecreasing (buildScheduleIdx data start end_ frequency).
Proof.
  unfold buildScheduleIdx.
  destruct (findIndex _ data) as [iStart|]; [|apply chain_nil].
  destruct (data !! iStart) as [d0|]; [|apply chain_nil].
  destruct (lastDate data) as [lastD|]; [|apply chain_nil].
  apply scheduleLoop_nondecreasing; [|apply chain_nil|done].
  pose proof (stepDays_pos frequency). lia.
Qed.

(** The schedule does not depend on the fuel: the loop of
    [buildScheduleIdx] always leaves by [cursor > endDate]. *)
Lemma buildScheduleIdx_fuel data start end_ frequency iStart d0 lastD extra :
  findIndex (λ d, start <=? t d) data = Some iStart →
  data !! iStart = Some d0 → lastDate data = Some lastD →
  let endDate := if end_ <=? lastD then end_ else lastD in
  let stepMs := stepDays frequency * msPerDay in
  scheduleLoop (schedule_fuel endDate stepMs (t d0) + extra) data iStart endDate stepMs (t d0) []
  = buildScheduleIdx data start end_ frequency.
Proof.
  intros Hfi Hd0 Hl. unfold buildScheduleIdx. rewrite Hfi, Hd0, Hl. simpl.
  apply scheduleLoop_fuel_enough; [apply stepDays_pos|lia].
Qed.

(** ** Counting with rationals *)

Lemma Qnat_S n : (Qnat (S n) == Qnat n + 1)%Q.
Proof.
  unfold Qnat. rewrite Nat2Z.inj_succ. unfold Z.succ. by rewrite inject_Z_plus.
Qed.

Lemma Qnat_0 : (Qnat 0 == 0)%Q.
Proof. reflexivity. Qed.

(** ** The longest strictly increasing prefix of a schedule *)

Lemma incPrefix_prefix l : incPrefix l `prefix_of` l.
Proof.
  induction l as [|x l IH]; [done|]. simpl.
  apply prefix_cons. destruct l as [|y l]; [done|].
  destruct (x <? y)%nat; [done|apply prefix_nil].
Qed.

Lemma incPrefix_increasing l : strictlyIncreasing (incPrefix l).
Proof.
  induction l as [|x l IH]; [apply chain_nil|].
  intros i a b Ha Hb. simpl in Ha, Hb.
  destruct l as [|y l]; [done|].
  destruct (x <? y)%nat eqn:Hxy; [|done].
  destruct i as [|i].
  - simpl in Ha, Hb. inversion Ha; inversion Hb; subst. by apply Nat.ltb_lt.
  - by eapply IH.
Qed.

(** Past the prefix the schedule does not go up: the prefix is the longest. *)
Lemma incPrefix_stop l b :
  l !! length (incPrefix l) = Some b →
  ∃ a, l !! pred (length (incPrefix l)) = Some a ∧ (b ≤ a)%nat
       ∧ (0 < length (incPrefix l))%nat.
Proof.
  induction l as [|x l IH]; [done|].
  simpl. destruct l as [|y l]; [done|].
  destruct (x <? y)%nat eqn:Hxy.
  - intros Hb. destruct (IH Hb) as (a & Ha & Hle & Hpos).
    exists a. split; [|split; [done|lia]].
    destruct (length (incPrefix (y :: l))) as [|n] eqn:E; [lia|done].
  - simpl. intros [= <-]. exists x. apply Nat.ltb_ge in Hxy. split; [done|]. split; lia.
Qed.

Lemma incPrefix_lookup l m a :
  (m < length (incPrefix l))%nat → l !! m = Some a → incPrefix l !! m = Some a.
Proof.
  intros Hm Ha. destruct (incPrefix_prefix l) as [k Hk].
  rewrite Hk in Ha at 1. by rewrite lookup_app_l in Ha.
Qed.

Lemma incPrefix_length l : (length (incPrefix l) ≤ length l)%nat.
Proof. apply prefix_length, incPrefix_prefix. Qed.

(** ** simulateDCA: what its pointer into the schedule consumes *)

Lemma drop_cons_inv {A : Type} (l : list A) (i : nat) (x : A) (rest : list A) :
  drop i l = x :: rest → l !! i = Some x ∧ drop (S i) l = rest.
Proof.
  intros H. split.
  - rewrite <- (Nat.add_0_r i), <- lookup_drop, H. done.
  - replace (S i) with (i + 1)%nat by lia. rewrite <- drop_drop, H. done.
Qed.

Lemma drop_nil_length {A : Type} (l : list A) (i : nat) :
  drop i l = [] → (length l ≤ i)%nat.
Proof. intros H. apply (f_equal length) in H. rewrite length_drop in H. simpl in H. lia. Qed.

Lemma dcaDay_cashIn amount schedule i d st :
  dca_cashIn (dcaDay amount schedule i d st) =
  if dcaHit schedule i st then (dca_cashIn st + amount)%Q else dca_cashIn st.
Proof. reflexivity. Qed.

Lemma dcaDay_sPtr amount schedule i d st :
  dca_sPtr (dcaDay amount schedule i d st) =
  if dcaHit schedule i st then S (dca_sPtr st) else dca_sPtr st.
Proof. reflexivity. Qed.

Section DcaPointer.

Variables (start end_ : Z) (amount : Q) (schedule : list nat) (data : Series).

Hypothesis scheduled_in_window :
  ∀ k, k ∈ schedule → ∃ d, data !! k = Some d ∧ outOfWindow start end_ d = false.

Local Abbreviation n := (length (incPrefix schedule)).

Lemma dcaHit_inside i st a :
  dcaInv amount schedule i st → schedule !! dca_sPtr st = Some a → a = i → (dca_sPtr st < n)%nat.
Proof.
  intros (Hle & Hpast & _ & _) Ha ->.
  destruct (decide (dca_sPtr st < n)%nat) as [|Hge]; [done|exfalso].
  assert (dca_sPtr st = n) as Heq by lia. rewrite Heq in Ha.
  destruct (incPrefix_stop _ _ Ha) as (a' & Ha' & Hle' & Hpos).
  assert (a' < i)%nat; [|lia].
  apply (Hpast (pred n)); [lia|done].
Qed.

Lemma dcaInv_step i d st :
  data !! i = Some d → dcaInv amount schedule i st →
  dcaInv amount schedule (S i)
    (if outOfWindow start end_ d then st else dcaDay amount schedule i d st).
Proof.
  intros Hd Hinv. destruct (dcaHit schedule i st) eqn:Hhit.
  - unfold dcaHit in Hhit.
    destruct (schedule !! dca_sPtr st) as [a|] eqn:Ha; [|done].
    apply Nat.eqb_eq in Hhit. subst a.
    pose proof (dcaHit_inside _ _ _ Hinv Ha eq_refl) as Hlt.
    destruct (scheduled_in_window i) as (d' & Hd' & Hwin).
    { apply list_elem_of_lookup. eauto. }
    rewrite Hd in Hd'. inversion Hd'; subst d'. rewrite Hwin.
    destruct Hinv as (Hle & Hpast & Hnext & Hcash).
    unfold dcaInv. rewrite dcaDay_cashIn, dcaDay_sPtr.
    unfold dcaHit. rewrite Ha, Nat.eqb_refl.
    split; [lia|]. split; [|split].
    + intros m a Hm Hma. destruct (decide (m = dca_sPtr st)) as [->|Hne].
      * rewrite Ha in Hma. inversion Hma. lia.
      * assert (a < i)%nat; [|lia]. apply (Hpast m); [lia|done].
    + intros b Hb1 Hb2.
      assert (i < b)%nat; [|lia].
      apply (incPrefix_increasing schedule (dca_sPtr st));
        apply incPrefix_lookup; try done; lia.
    + rewrite Hcash, Qnat_S. ring.
  - assert (dca_sPtr (if outOfWindow start end_ d then st
                      else dcaDay amount schedule i d st) = dca_sPtr st) as Hp.
    { destruct (outOfWindow start end_ d); [done|]. by rewrite dcaDay_sPtr, Hhit. }
    assert (dca_cashIn (if outOfWindow start end_ d then st
                        else dcaDay amount schedule i d st) = dca_cashIn st) as Hc.
    { destruct (outOfWindow start end_ d); [done|]. by rewrite dcaDay_cashIn, Hhit. }
    destruct Hinv as (Hle & Hpast & Hnext & Hcash).
    unfold dcaInv. rewrite Hp, Hc. split; [done|]. split; [|split; [|done]].
    + intros m a Hm Hma. specialize (Hpast m a Hm Hma). lia.
    + intros a Hlt Ha. specialize (Hnext a Hlt Ha).
      unfold dcaHit in Hhit. rewrite Ha in Hhit. apply Nat.eqb_neq in Hhit. lia.
Qed.

Lemma dcaLoop_inv rest i st :
  drop i data = rest → dcaInv amount schedule i st →
  dcaInv amount schedule (length data) (dcaLoop start end_ amount schedule rest i st).
Proof.
  unfold dcaLoop. revert i st. induction rest as [|d rest IH]; intros i st Hdrop Hinv.
  - simpl. apply drop_nil_length in Hdrop.
    destruct Hinv as (Hle & Hpast & Hnext & Hcash).
    split; [done|]. split; [|split; [|done]].
    + intros m a Hm Hma.
      destruct (scheduled_in_window a) as (d & Hd & _).
      { apply list_elem_of_lookup. eauto. }
      by apply lookup_lt_Some in Hd.
    + intros a Hlt Ha. specialize (Hnext a Hlt Ha).
      destruct (scheduled_in_window a) as (d & Hd & _).
      { apply list_elem_of_lookup. eauto. }
      apply lookup_lt_Some in Hd. lia.
  - apply drop_cons_inv in Hdrop as [Hd Hdrop]. simpl.
    apply (IH (S i)); [done|]. by apply dcaInv_step.
Qed.

(** At the end of the series the pointer stands at the end of the
    increasing prefix. *)
Lemma dcaLoop_cashIn :
  (dca_cashIn (dcaLoop start end_ amount schedule data 0 (mkDca 0 (Fin 0) 0 []))
   == amount * Qnat n)%Q.
Proof.
  assert (dcaInv amount schedule 0 (mkDca 0 (Fin 0) 0 [])) as H0.
  { split; [simpl; lia|]. split; [intros m a Hm; simpl in Hm; lia|].
    split; [intros; lia|]. simpl. rewrite Qnat_0. ring. }
  pose proof (dcaLoop_inv data 0 _ eq_refl H0) as (Hle & Hpast & Hnext & Hcash).
  set (st := dcaLoop _ _ _ _ _ _ _) in *.
  destruct (decide (dca_sPtr st < n)%nat) as [Hlt|Hge].
  - destruct (lookup_lt_is_Some_2 schedule (dca_sPtr st)) as [a Ha].
    { pose proof (incPrefix_length schedule). lia. }
    specialize (Hnext a Hlt Ha).
    destruct (scheduled_in_window a) as (d & Hd & _).
    { apply list_elem_of_lookup. eauto. }
    apply lookup_lt_Some in Hd. lia.
  - replace n with (dca_sPtr st) by lia. done.
Qed.

End DcaPointer.

(** ** Checking a concrete series *)

Lemma Qltb_lt x y : Qltb x y = true → (x < y)%Q.
Proof.
  unfold Qltb. destruct (x ?= y)%Q eqn:E; [done| |done]. intros _. by apply Qlt_alt.
Qed.


Lemma positivePricesb_correct data : positivePricesb data = true → positivePrices data.
Proof.
  unfold positivePricesb, positivePrices. rewrite forallb_forall.
  intros H d Hd. apply Qltb_lt, H. by apply list_elem_of_In.
Qed.

(** ** Strategies that hold a cash pile: how often they contribute *)

Lemma size_zero_intro (X : gset nat) : (∀ k, k ∉ X) → size X = O.
Proof. intros H. apply size_empty_iff, elem_of_equiv_empty. exact H. Qed.

Lemma countHits_size data start end_ (scheduleSet : gset nat) rest i :
  drop i data = rest →
  countHits start end_ scheduleSet rest i =
  size (filter (λ k, inWindowAt data start end_ k = true ∧ (i ≤ k)%nat) scheduleSet).
Proof.
  revert i. induction rest as [|d rest IH]; intros i Hdrop.
  - apply drop_nil_length in Hdrop. simpl. symmetry. apply size_zero_intro.
    intros k [[Hk Hik] _]%elem_of_filter. unfold inWindowAt in Hk.
    destruct (data !! k) eqn:E; [|done]. apply lookup_lt_Some in E. lia.
  - apply drop_cons_inv in Hdrop as [Hd Hdrop]. simpl. rewrite (IH (S i) Hdrop).
    set (here := filter (λ k, k = i) (filter (λ k, inWindowAt data start end_ k = true)
                                               scheduleSet)).
    assert (filter (λ k, inWindowAt data start end_ k = true ∧ (i ≤ k)%nat) scheduleSet
            = here ∪ filter (λ k, inWindowAt data start end_ k = true ∧ (S i ≤ k)%nat)
                       scheduleSet) as ->.
    { apply set_eq. intros k. unfold here.
      rewrite elem_of_union, !elem_of_filter. split.
      - intros [[Hw Hle] Hs]. destruct (decide (k = i)); [left|right]; repeat split; try done.
        lia.
      - intros [(-> & Hw & Hs)|[[Hw Hle] Hs]]; repeat split; try done; lia. }
    rewrite size_union.
    2:{ intros k. unfold here. rewrite !elem_of_filter. intros (-> & _) [[_ Hle] _]. lia. }
    f_equal. unfold here, has, inWindowAt.
    destruct (negb (outOfWindow start end_ d)) eqn:Hw; simpl.
    + destruct (bool_decide (i ∈ scheduleSet)) eqn:Hs.
      * apply bool_decide_eq_true in Hs. symmetry.
        replace (filter _ (filter _ scheduleSet)) with ({[i]} : gset nat);
          [apply size_singleton|].
        apply set_eq. intros k. rewrite elem_of_singleton, !elem_of_filter.
        split; [intros ->; by rewrite Hd, Hw|by intros [-> _]].
      * apply bool_decide_eq_false in Hs. symmetry. apply size_zero_intro.
        intros k [-> [_ Hk]%elem_of_filter]%elem_of_filter. done.
    + symmetry. apply size_zero_intro.
      intros k [-> [Hk _]%elem_of_filter]%elem_of_filter.
      rewrite Hd, Hw in Hk. done.
Qed.

Lemma countHits_distinct data start end_ schedule :
  countHits start end_ (scheduleSetOf schedule) data 0 = distinctInWindow data start end_ schedule.
Proof.
  rewrite (countHits_size data) by done. unfold distinctInWindow. f_equal.
  apply set_eq. intros k. rewrite !elem_of_filter. split; [tauto|].
  intros [? ?]; repeat split; [done|lia|done].
Qed.

(** ** Arithmetic of [num] on finite values *)

Lemma sgn_pos q : (0 < q)%Q → sgn q = Gt.
Proof. intros H. unfold sgn. by apply Qgt_alt. Qed.

Lemma div_Fin_pos x y : (0 < y)%Q → (Fin x / Fin y)%num = Fin (x / y).
Proof. intros H. unfold Num.div. by rewrite (sgn_pos y H). Qed.

Lemma leb_Fin x y : (Fin x <=? Fin y)%num = true ↔ (x <= y)%Q.
Proof.
  unfold Num.leb. rewrite Qle_alt. destruct (x ?= y)%Q; split; done.
Qed.

Lemma Qdiv_nonneg x y : (0 <= x)%Q → (0 < y)%Q → (0 <= x / y)%Q.
Proof. intros Hx Hy. apply Qle_shift_div_l; [done|]. by rewrite Qmult_0_l. Qed.

(** Buying for a non-negative sum at a positive price does not lower the
    number of units, and keeps it finite. *)
Lemma units_grow u x price :
  (0 <= x)%Q → (0 < price)%Q →
  (Fin u <=? Fin u + Fin x / Fin price)%num = true
  ∧ ∃ y, (Fin u + Fin x / Fin price)%num = Fin y.
Proof.
  intros Hx Hp. rewrite div_Fin_pos by done. simpl. split; [|by eexists].
  apply leb_Fin. pose proof (Qdiv_nonneg x price Hx Hp). lra.
Qed.

(** ** Invariants of the shared loop *)

Lemma windowLoop_invariant {St : Type} (I : St → Prop) start end_
    (body : nat → PricePoint → St → St) rest i st :
  (∀ k d s, d ∈ rest → outOfWindow start end_ d = false → I s → I (body k d s)) →
  I st → I (windowLoop start end_ body rest i st).
Proof.
  revert i st. induction rest as [|d rest IH]; intros i st Hbody Hst; [done|].
  simpl. apply IH.
  - intros k d' s Hd'. apply Hbody. by apply list_elem_of_further.
  - destruct (outOfWindow start end_ d) eqn:E; [done|].
    apply Hbody; [apply list_elem_of_here|done|done].
Qed.


(** A loop whose body adds [amount] to a counter on the days of
    [scheduleSet] ends with [amount] times the number of such days inside the
    window. *)
Lemma windowLoop_cashIn {St : Type} (cash : St → Q) start end_ amount (scheduleSet : gset nat)
    (body : nat → PricePoint → St → St) rest i st :
  (∀ k d s, cash (body k d s) = if has scheduleSet k then (cash s + amount)%Q else cash s) →
  (cash (windowLoop start end_ body rest i st)
   == cash st + amount * Qnat (countHits start end_ scheduleSet rest i))%Q.
Proof.
  intros Hbody. revert i st. induction rest as [|d rest IH]; intros i st; simpl.
  - rewrite Qnat_0. ring.
  - rewrite IH. destruct (outOfWindow start end_ d); cbn [negb andb Nat.add].
    + reflexivity.
    + rewrite Hbody. destruct (has scheduleSet i); cbn [Nat.add].
      * rewrite Qnat_S. ring.
      * reflexivity.
Qed.

(** ** Timelines that never go down *)

Lemma tracks_nil : tracks [] 0 (Fin 0).
Proof. split; [split; apply chain_nil|]. split; [by eexists|done]. Qed.

Lemma tracks_push tl c u c' u' e :
  tracks tl c u → (c <= c')%Q → (u <=? u')%num = true → (∃ x, u' = Fin x) →
  e_cashIn e = c' → e_units e = u' →
  tracks (tl ++ [e]) c' u'.
Proof.
  intros ([Hc Hu] & _ & Hlast) Hcc Huu Hfin Hec Heu.
  split; [split|split; [done|]].
  - apply chain_snoc; [done|]. intros a [Ha _]%Hlast. unfold cashStep. by rewrite Ha, Hec.
  - apply chain_snoc; [done|]. intros a [_ Ha]%Hlast. unfold unitsStep. by rewrite Ha, Heu.
  - rewrite last_snoc. by intros e' [= <-].
Qed.

Lemma leb_refl_Fin u : (Fin u <=? Fin u)%num = true.
Proof. apply leb_Fin. apply Qle_refl. Qed.

Lemma dcaDay_tracks amount schedule i d st :
  (0 <= amount)%Q → (0 < p d)%Q →
  tracks (dca_timeline st) (dca_cashIn st) (dca_units st) →
  let st' := dcaDay amount schedule i d st in
  tracks (dca_timeline st') (dca_cashIn st') (dca_units st').
Proof.
  intros Ha Hp Htr. pose proof Htr as (_ & [u Hu] & _).
  unfold dcaDay; simpl. eapply tracks_push; [exact Htr| | | |done|done].
  - destruct (dcaHit schedule i st); lra.
  - rewrite Hu. destruct (dcaHit schedule i st); [|apply leb_refl_Fin].
    by apply units_grow.
  - rewrite Hu. destruct (dcaHit schedule i st); [|by eexists].
    by apply units_grow.
Qed.

Lemma dipDay_tracks amount dipPct scheduleSet i d st :
  (0 <= amount)%Q → (0 < p d)%Q →
  tracks (ps_timeline st) (ps_cashIn st) (ps_units st) →
  let st' := dipDay amount dipPct scheduleSet i d st in
  tracks (ps_timeline st') (ps_cashIn st') (ps_units st').
Proof.
  intros Ha Hp Htr. pose proof Htr as (_ & [u Hu] & _).
  unfold dipDay; simpl. eapply tracks_push; [exact Htr| | | |done|done].
  - destruct (has scheduleSet i); lra.
  - rewrite Hu.
    match goal with |- context [if ?b then _ else Fin u] => destruct b eqn:Hbuy end;
      [|apply leb_refl_Fin].
    apply andb_true_iff in Hbuy as [_ Hpile]. apply Qltb_lt in Hpile.
    apply units_grow; [by apply Qlt_le_weak|done].
  - rewrite Hu.
    match goal with |- context [if ?b then _ else Fin u] => destruct b eqn:Hbuy end;
      [|by eexists].
    apply andb_true_iff in Hbuy as [_ Hpile]. apply Qltb_lt in Hpile.
    apply units_grow; [by apply Qlt_le_weak|done].
Qed.

Lemma trendDay_tracks amount maN ma scheduleSet i d st :
  (0 <= amount)%Q → (0 < p d)%Q →
  tracks (ts_timeline st) (ts_cashIn st) (ts_units st) →
  let st' := trendDay amount maN ma scheduleSet i d st in
  tracks (ts_timeline st') (ts_cashIn st') (ts_units st').
Proof.
  intros Ha Hp Htr. pose proof Htr as (_ & [u Hu] & _).
  unfold trendDay; simpl. eapply tracks_push; [exact Htr| | | |done|done].
  - destruct (has scheduleSet i); lra.
  - rewrite Hu.
    match goal with |- context [if ?b then _ else Fin u] => destruct b eqn:Hbuy end;
      [|apply leb_refl_Fin].
    apply andb_true_iff in Hbuy as [_ Hpile]. apply Qltb_lt in Hpile.
    apply units_grow; [by apply Qlt_le_weak|done].
  - rewrite Hu.
    match goal with |- context [if ?b then _ else Fin u] => destruct b eqn:Hbuy end;
      [|by eexists].
    apply andb_true_iff in Hbuy as [_ Hpile]. apply Qltb_lt in Hpile.
    apply units_grow; [by apply Qlt_le_weak|done].
Qed.

(** The rows of [simulateLumpSum] all carry the same [cashIn] and [units]. *)
Lemma lumpLoop_rows end_ total units rest tl e :
  e ∈ lumpLoop end_ total units rest tl →
  e ∈ tl ∨ (e_cashIn e = total ∧ e_units e = units).
Proof.
  revert tl. induction rest as [|d rest IH]; intros tl; simpl; [by left|].
  destruct (t d <=? end_); [|by left].
  intros [[He|He]%elem_of_app|He]%IH; [by left| |by right].
  apply list_elem_of_singleton in He. subst e. by right.
Qed.

Lemma chain_all {A : Type} (R : A → A → Prop) (l : list A) :
  (∀ a b, a ∈ l → b ∈ l → R a b) → chain R l.
Proof. intros H i a b Ha Hb. apply H; apply list_elem_of_lookup; eauto. Qed.

(** ** Results on the schedule and on invested capital *)

(** C2, as the code has it. The positions returned by [buildScheduleIdx]
    never go down and each is a position of the series; they may repeat. *)
Theorem schedule_nondecreasing_in_bounds (data : Series) (start end_ : Z) (frequency : string) :
  nondecreasing (buildScheduleIdx data start end_ frequency)
  ∧ Forall (λ k, (k < length data)%nat) (buildScheduleIdx data start end_ frequency).
Proof.
  split; [apply schedule_nondecreasing|].
  apply Forall_forall. intros k Hk. by eapply schedule_in_bounds.
Qed.

(** C2, as stated, fails: with daily contributions over a ten-day gap the
    second position is returned ten times. *)
Lemma schedule_repeats_in_gap :
  buildScheduleIdx gapSeries (day 0) (day 10) "daily" = [0; 1; 1; 1; 1; 1; 1; 1; 1; 1; 1]%nat
  ∧ ¬ strictlyIncreasing (buildScheduleIdx gapSeries (day 0) (day 10) "daily").
Proof.
  split; [apply schedule_gap_daily|].
  rewrite schedule_gap_daily. intros H.
  specialize (H 1%nat 1%nat 1%nat eq_refl eq_refl). lia.
Qed.

(** The capital of [simulateDCA], for use with other simulators. *)
Lemma simulateDCA_cashIn data start end_ amount frequency :
  (r_cashIn (result (simulateDCA data start end_ amount frequency))
   == amount * Qnat (length (incPrefix (buildScheduleIdx data start end_ frequency))))%Q.
Proof.
  unfold simulateDCA. simpl.
  apply dcaLoop_cashIn. intros k Hk. by eapply schedule_in_window.
Qed.

Lemma incPrefix_strict l : strictlyIncreasing l → incPrefix l = l.
Proof.
  induction l as [|x l IH]; intros H; [done|]. simpl.
  destruct l as [|y l]; [done|].
  assert (x < y)%nat as Hxy by (by apply (H 0%nat)).
  apply Nat.ltb_lt in Hxy. rewrite Hxy. f_equal. apply IH.
  intros i a b Ha Hb. by apply (H (S i)).
Qed.

(** When the schedule does not repeat a position the two strategies invest
    the same capital. *)
Lemma lumpSum_dca_parity_when_strict data start end_ amount frequency :
  strictlyIncreasing (buildScheduleIdx data start end_ frequency) →
  (r_cashIn (result (simulateLumpSum data start end_ amount frequency))
   == r_cashIn (result (simulateDCA data start end_ amount frequency)))%Q.
Proof.
  intros Hstrict. rewrite simulateDCA_cashIn, (incPrefix_strict _ Hstrict).
  unfold simulateLumpSum.
  destruct (findIndex _ data) as [iStart|] eqn:Hfi.
  - destruct (findIndex_Some _ _ _ Hfi) as (d0 & Hd0 & _). rewrite Hd0.
    cbn [result r_cashIn]. ring.
  - unfold buildScheduleIdx. rewrite Hfi. cbn [result r_cashIn length]. rewrite Qnat_0. ring.
Qed.

(** C1 fails on the code. Over a gap in the series the schedule repeats a
    position; [simulateLumpSum] invests [amount] for every entry of the
    schedule, [simulateDCA] only for the entries its pointer consumes. *)
Theorem lumpSum_dca_capital_differ :
  (r_cashIn (result (simulateLumpSum gapSeries (day 0) (day 10) 100 "daily")) == 1100)%Q
  ∧ (r_cashIn (result (simulateDCA gapSeries (day 0) (day 10) 100 "daily")) == 200)%Q
  ∧ ¬ (r_cashIn (result (simulateLumpSum gapSeries (day 0) (day 10) 100 "daily"))
       == r_cashIn (result (simulateDCA gapSeries (day 0) (day 10) 100 "daily")))%Q.
Proof.
  split; [by vm_compute|]. split; [by vm_compute|]. by vm_compute.
Qed.

(** Every scheduled position is a day inside the window, so the distinct
    scheduled positions inside the window are all the distinct ones. *)
Lemma distinctInWindow_all data start end_ frequency :
  distinctInWindow data start end_ (buildScheduleIdx data start end_ frequency)
  = size (scheduleSetOf (buildScheduleIdx data start end_ frequency)).
Proof.
  unfold distinctInWindow. f_equal. apply set_eq. intros k.
  rewrite elem_of_filter. split; [tauto|]. intros Hk. split; [|done].
  unfold scheduleSetOf in Hk. apply elem_of_list_to_set in Hk.
  destruct (schedule_in_window _ _ _ _ _ Hk) as (d & Hd & Hin).
  unfold inWindowAt. by rewrite Hd, Hin.
Qed.

(** ** Monotone timelines *)

Lemma lumpSum_monotone data start end_ amount frequency :
  positivePrices data →
  monotoneTimeline (timeline (simulateLumpSum data start end_ amount frequency)).
Proof.
  intros Hpos. unfold simulateLumpSum.
  destruct (findIndex _ data) as [iStart|]; [|split; apply chain_nil].
  destruct (data !! iStart) as [d0|] eqn:Hd0; [|split; apply chain_nil].
  cbn [timeline]. set (total := (Qnat _ * amount)%Q).
  assert (0 < p d0)%Q as Hp by (apply Hpos, list_elem_of_lookup; eauto).
  rewrite div_Fin_pos by done.
  split; apply chain_all; intros a b Ha Hb;
    apply lumpLoop_rows in Ha as [Ha|[Hac Hau]]; try (by apply elem_of_nil in Ha);
    apply lumpLoop_rows in Hb as [Hb|[Hbc Hbu]]; try (by apply elem_of_nil in Hb).
  - unfold cashStep. rewrite Hac, Hbc. apply Qle_refl.
  - unfold unitsStep. rewrite Hau, Hbu. apply leb_refl_Fin.
Qed.

(** C3, as the code has it. For a contribution [amount >= 0] and positive
    prices, [cumulativeCashIn] and [unitsHeld] never go down from one entry
    of the timeline to the next, in each of the four simulators. *)
Theorem timelines_monotone (data : Series) (start end_ : Z) (amount : Q) (frequency : string)
    (dipPct : Q) (maN : Z) :
  (0 <= amount)%Q → positivePrices data →
  monotoneTimeline (timeline (simulateDCA data start end_ amount frequency))
  ∧ monotoneTimeline (timeline (simulateLumpSum data start end_ amount frequency))
  ∧ monotoneTimeline (timeline (simulateDipBuy data start end_ amount frequency dipPct))
  ∧ monotoneTimeline (timeline (simulateTrendDCA data start end_ amount frequency maN)).
Proof.
  intros Ha Hpos. split; [|split; [|split]].
  - unfold simulateDCA, dcaLoop. simpl.
    apply (windowLoop_invariant
             (λ st, tracks (dca_timeline st) (dca_cashIn st) (dca_units st))).
    + intros k d s Hd _ Hs. apply dcaDay_tracks; [done|by apply Hpos|done].
    + apply tracks_nil.
  - by apply lumpSum_monotone.
  - unfold simulateDipBuy, dipLoop. simpl.
    apply (windowLoop_invariant
             (λ st, tracks (ps_timeline st) (ps_cashIn st) (ps_units st))).
    + intros k d s Hd _ Hs. apply dipDay_tracks; [done|by apply Hpos|done].
    + apply tracks_nil.
  - unfold simulateTrendDCA, trendLoop. simpl.
    apply (windowLoop_invariant
             (λ st, tracks (ts_timeline st) (ts_cashIn st) (ts_units st))).
    + intros k d s Hd _ Hs. apply trendDay_tracks; [done|by apply Hpos|done].
    + apply tracks_nil.
Qed.

Lemma timelines_monotone_witness :
  (0 <= 100)%Q ∧ positivePrices crashSeries
  ∧ monotoneTimeline (timeline (simulateDCA crashSeries (day 0) (day 1) 100 "daily"))
  ∧ monotoneTimeline (timeline (simulateLumpSum crashSeries (day 0) (day 1) 100 "daily"))
  ∧ monotoneTimeline (timeline (simulateDipBuy crashSeries (day 0) (day 1) 100 "daily" (1 # 5)))
  ∧ monotoneTimeline (timeline (simulateTrendDCA crashSeries (day 0) (day 1) 100 "daily" 2)).
Proof.
  split; [by vm_compute|]. split; [apply positivePricesb_correct; reflexivity|].
  apply (timelines_monotone crashSeries (day 0) (day 1) 100 "daily" (1 # 5) 2).
  - by vm_compute.
  - apply positivePricesb_correct. reflexivity.
Defined.

(** C3, as stated, fails for a negative amount: each contribution of
    [simulateDCA] then lowers [cashIn] (and [units]). *)
Lemma negative_amount_not_monotone :
  ¬ monotoneTimeline (timeline (simulateDCA crashSeries (day 0) (day 1) (-100) "daily")).
Proof.
  intros [Hcash _].
  assert (∃ a b, timeline (simulateDCA crashSeries (day 0) (day 1) (-100) "daily") !! 0%nat
                 = Some a
                 ∧ timeline (simulateDCA crashSeries (day 0) (day 1) (-100) "daily") !! 1%nat
                   = Some b
                 ∧ (e_cashIn b < e_cashIn a)%Q) as (a & b & Ha & Hb & Hlt).
  { eexists. eexists. split; [by vm_compute|]. split; [by vm_compute|]. by vm_compute. }
  specialize (Hcash 0%nat a b Ha Hb). unfold cashStep in Hcash. lra.
Qed.

(** ** Empty windows *)

Lemma windowLoop_outside {St : Type} start end_ (body : nat → PricePoint → St → St) rest i st :
  Forall (λ d, outOfWindow start end_ d = true) rest →
  windowLoop start end_ body rest i st = st.
Proof.
  intros H. revert i. induction H as [|d rest Hd _ IH]; intros i; [done|].
  simpl. by rewrite Hd.
Qed.

Lemma scheduleLoop_past fuel data iStart endDate stepMs cursor idx :
  endDate < cursor → scheduleLoop fuel data iStart endDate stepMs cursor idx = idx.
Proof.
  intros H. destruct fuel as [|fuel]; [done|]. simpl.
  destruct (cursor <=? endDate) eqn:E; [|done]. apply Z.leb_le in E. lia.
Qed.

Lemma buildScheduleIdx_outside data start end_ frequency :
  Forall (λ d, outOfWindow start end_ d = true) data →
  buildScheduleIdx data start end_ frequency = [].
Proof.
  intros Hout. unfold buildScheduleIdx.
  destruct (findIndex _ data) as [iStart|] eqn:Hfi; [|done].
  apply findIndex_Some in Hfi as (d0 & Hd0 & Hstart). rewrite Hd0.
  destruct (lastDate data) as [lastD|]; [|done]. simpl.
  apply scheduleLoop_past.
  assert (outOfWindow start end_ d0 = true) as Hd.
  { eapply (proj1 (Forall_forall _ _) Hout), list_elem_of_lookup. eauto. }
  unfold outOfWindow in Hd. destruct (end_ <=? lastD) eqn:E; lia.
Qed.

Lemma lumpSum_outside data start end_ amount frequency :
  positivePrices data →
  Forall (λ d, outOfWindow start end_ d = true) data →
  timeline (simulateLumpSum data start end_ amount frequency) = []
  ∧ summaryEqv (result (simulateLumpSum data start end_ amount frequency)) zeroSummary.
Proof.
  intros Hpos Hout. unfold simulateLumpSum.
  rewrite (buildScheduleIdx_outside _ _ _ _ Hout).
  destruct (findIndex _ data) as [iStart|] eqn:Hfi; [|done].
  apply findIndex_Some in Hfi as (d0 & Hd0 & Hstart). rewrite Hd0.
  assert (outOfWindow start end_ d0 = true) as Hd.
  { eapply (proj1 (Forall_forall _ _) Hout), list_elem_of_lookup. eauto. }
  assert (0 < p d0)%Q as Hp by (apply Hpos, list_elem_of_lookup; eauto).
  rewrite (drop_S _ _ _ Hd0). cbn [lumpLoop timeline result length].
  assert ((t d0 <=? end_) = false) as -> by (unfold outOfWindow in Hd; lia).
  split; [done|]. rewrite div_Fin_pos by done.
  unfold summaryEqv, zeroSummary, Num.eqv; cbn [r_cashIn r_units r_endValue endValueOf last].
  rewrite Qnat_0. split; [ring|]. split; [|done]. field. lra.
Qed.

Lemma zeroSummary_eqv : summaryEqv zeroSummary zeroSummary.
Proof. by repeat split. Qed.

(** C6, as the code has it. On a series of positive prices, when no day of
    the series lies inside [start, end] (in particular when the series is
    empty), each simulator returns the empty timeline and the summary of
    zeros, and [metricsFromTimeline] of that timeline is the object without
    fields. *)
Theorem empty_window_empty_results (data : Series) (start end_ : Z) (amount : Q)
    (frequency : string) (dipPct : Q) (maN : Z) :
  positivePrices data →
  Forall (λ d, outOfWindow start end_ d = true) data →
  emptyResult (simulateDCA data start end_ amount frequency)
  ∧ emptyResult (simulateLumpSum data start end_ amount frequency)
  ∧ emptyResult (simulateDipBuy data start end_ amount frequency dipPct)
  ∧ emptyResult (simulateTrendDCA data start end_ amount frequency maN)
  ∧ ∀ Math_pow Math_sqrt,
      Forall (λ s, metricsFromTimeline Math_pow Math_sqrt (timeline s) = None)
        [simulateDCA data start end_ amount frequency;
         simulateLumpSum data start end_ amount frequency;
         simulateDipBuy data start end_ amount frequency dipPct;
         simulateTrendDCA data start end_ amount frequency maN].
Proof.
  intros Hpos Hout.
  assert (emptyResult (simulateDCA data start end_ amount frequency)) as Hdca.
  { unfold emptyResult, simulateDCA, dcaLoop. rewrite windowLoop_outside by done.
    split; [done|apply zeroSummary_eqv]. }
  assert (emptyResult (simulateLumpSum data start end_ amount frequency)) as Hls.
  { by apply lumpSum_outside. }
  assert (emptyResult (simulateDipBuy data start end_ amount frequency dipPct)) as Hdip.
  { unfold emptyResult, simulateDipBuy, dipLoop. rewrite windowLoop_outside by done.
    split; [done|apply zeroSummary_eqv]. }
  assert (emptyResult (simulateTrendDCA data start end_ amount frequency maN)) as Htr.
  { unfold emptyResult, simulateTrendDCA, trendLoop. rewrite windowLoop_outside by done.
    split; [done|apply zeroSummary_eqv]. }
  repeat split; try (by apply Hdca || by apply Hls || by apply Hdip || by apply Htr).
  intros Math_pow Math_sqrt.
  destruct Hdca as [E1 _], Hls as [E2 _], Hdip as [E3 _], Htr as [E4 _].
  repeat constructor; by rewrite ?E1, ?E2, ?E3, ?E4.
Qed.

Lemma empty_window_empty_results_witness :
  emptyResult (simulateDCA crashSeries (day 5) (day 9) 100 "weekly")
  ∧ emptyResult (simulateLumpSum crashSeries (day 5) (day 9) 100 "weekly")
  ∧ emptyResult (simulateDipBuy crashSeries (day 5) (day 9) 100 "weekly" (1 # 5))
  ∧ emptyResult (simulateTrendDCA crashSeries (day 5) (day 9) 100 "weekly" 200)
  ∧ ∀ Math_pow Math_sqrt,
      Forall (λ s, metricsFromTimeline Math_pow Math_sqrt (timeline s) = None)
        [simulateDCA crashSeries (day 5) (day 9) 100 "weekly";
         simulateLumpSum crashSeries (day 5) (day 9) 100 "weekly";
         simulateDipBuy crashSeries (day 5) (day 9) 100 "weekly" (1 # 5);
         simulateTrendDCA crashSeries (day 5) (day 9) 100 "weekly" 200].
Proof.
  apply (empty_window_empty_results crashSeries (day 5) (day 9) 100 "weekly" (1 # 5) 200).
  - apply positivePricesb_correct. reflexivity.
  - repeat constructor.
Defined.

(** ** Daily returns and volatility *)

Lemma retsLoop_pairs rest pre a rets :
  retsLoop (pre ++ a :: rest) (seq (S (length pre)) (length rest)) rets
  = rets ++ omap (λ ab, finiteOnly (dayReturn (e_value ab.1) (e_value ab.2)))
                 (zip (a :: rest) rest).
Proof.
  revert pre a rets. induction rest as [|b rest IH]; intros pre a rets.
  - simpl. by rewrite app_nil_r.
  - cbn [length seq retsLoop].
    replace (S (length pre) - 1)%nat with (length pre) by lia.
    rewrite (list_lookup_middle pre (b :: rest) a (length pre)) by done.
    replace (S (length pre)) with (length (pre ++ [a])) at 1
      by (rewrite length_app; simpl; lia).
    replace (pre ++ a :: b :: rest) with ((pre ++ [a]) ++ b :: rest) at 1
      by (by rewrite <- app_assoc).
    rewrite (list_lookup_middle (pre ++ [a]) rest b) by done.
    replace (pre ++ a :: b :: rest) with ((pre ++ [a]) ++ b :: rest)
      by (by rewrite <- app_assoc).
    replace (S (S (length pre))) with (S (length (pre ++ [a])))
      by (rewrite length_app; simpl; lia).
    rewrite IH. cbn [zip zip_with omap list_omap fst snd].
    unfold pushIfFinite, finiteOnly.
    destruct (dayReturn (e_value a) (e_value b)); try done.
    by rewrite <- app_assoc.
Qed.

Lemma dailyReturns_pairs tl : dailyReturns tl = returnsOfPairs tl.
Proof.
  unfold dailyReturns, returnsOfPairs. destruct tl as [|a rest]; [done|].
  cbn [length tail]. replace (S (length rest) - 1)%nat with (length rest) by lia.
  apply (retsLoop_pairs rest [] a []).
Qed.

Lemma foldl_Qplus_sum acc l : (foldl Qplus acc l == acc + Qsum l)%Q.
Proof.
  revert acc. induction l as [|x l IH]; intros acc; simpl.
  - ring.
  - rewrite IH. fold (Qsum l). ring.
Qed.

Lemma foldl_squares_sum m acc l :
  (foldl (λ s x, s + (x - m) * (x - m)) acc l
   == acc + Qsum (map (λ x, (x - m) * (x - m)) l))%Q.
Proof.
  revert acc. induction l as [|x l IH]; intros acc; simpl.
  - ring.
  - rewrite IH. fold (Qsum (map (λ x, (x - m) * (x - m))%Q l)). ring.
Qed.

Lemma Qsum_squares_proper m1 m2 l :
  (m1 == m2)%Q →
  (Qsum (map (λ x, (x - m1) * (x - m1)) l) == Qsum (map (λ x, (x - m2) * (x - m2)) l))%Q.
Proof.
  intros Hm. induction l as [|x l IH]; simpl; [reflexivity|].
  fold (Qsum (map (λ x, (x - m1) * (x - m1))%Q l)).
  fold (Qsum (map (λ x, (x - m2) * (x - m2))%Q l)).
  rewrite IH, Hm. reflexivity.
Qed.

Lemma Qsquare_nonneg a : (0 <= a * a)%Q.
Proof. nra. Qed.

Lemma Qsum_squares_nonneg m l : (0 <= Qsum (map (λ x, (x - m) * (x - m)) l))%Q.
Proof.
  induction l as [|x l IH]; simpl; [apply Qle_refl|].
  fold (Qsum (map (λ x, (x - m) * (x - m))%Q l)).
  pose proof (Qsquare_nonneg (x - m)) as Hsq.
  set (sq := ((x - m) * (x - m))%Q) in *. set (rest := Qsum _) in *. lra.
Qed.

Lemma Qnat_pos n : (0 < n)%nat → (0 < Qnat n)%Q.
Proof.
  intros H. unfold Qnat. replace 0%Q with (inject_Z 0) by reflexivity.
  rewrite <- Zlt_Qlt. lia.
Qed.

Lemma varianceOf_nonneg rets : (0 <= varianceOf rets)%Q.
Proof.
  unfold varianceOf. rewrite foldl_squares_sum.
  apply Qdiv_nonneg; [|apply Qnat_pos; lia].
  pose proof (Qsum_squares_nonneg (meanOf rets) rets). lra.
Qed.

Lemma max_zero_nonneg v : (0 <= v)%Q → Num.max (Fin 0) (Fin v) =n= Fin v.
Proof.
  intros Hv. unfold Num.max, Num.ltb.
  destruct (0 ?= v)%Q eqn:E; simpl; try reflexivity.
  - by apply Qeq_alt in E.
  - apply Qgt_alt in E. lra.
Qed.

(** With at least two returns the divisor [Math.max(1, n - 1)] is [n - 1]
    and the divisor [n || 1] of the mean is [n]. *)
Lemma varianceOf_sample x y l :
  (varianceOf (x :: y :: l) == sampleVariance (x :: y :: l))%Q.
Proof.
  unfold varianceOf, sampleVariance. rewrite foldl_squares_sum.
  assert (meanOf (x :: y :: l) == sampleMean (x :: y :: l))%Q as Hmean.
  { unfold meanOf, sampleMean. rewrite foldl_Qplus_sum. cbn [length Nat.eqb].
    apply Qdiv_comp; [ring|reflexivity]. }
  rewrite (Qsum_squares_proper _ _ _ Hmean).
  apply Qdiv_comp; [ring|].
  cbn [length]. replace (Nat.max 1 (S (S (length l)) - 1)) with (S (length l)) by lia.
  rewrite (Qnat_S (S (length l))). ring.
Qed.

(** With fewer than two returns the variance is zero. *)
Lemma varianceOf_short rets :
  (length rets ≤ 1)%nat → (varianceOf rets == 0)%Q.
Proof.
  destruct rets as [|x [|y l]]; simpl; intros H; try lia.
  - reflexivity.
  - unfold varianceOf, meanOf. cbn [length Nat.eqb foldl Nat.sub Nat.max].
    unfold Qnat. cbn [Z.of_nat Pos.of_succ_nat]. field.
Qed.

(** C5, as stated, fails: a pair whose earlier value is zero does leave an
    element, the return 0. With a contribution of 0 every value of the DCA
    timeline is 0. *)
Lemma zero_value_pair_leaves_return :
  dailyReturns (timeline (simulateDCA crashSeries (day 0) (day 1) 0 "daily")) = [0%Q]
  ∧ returnsOfPositivePairs (timeline (simulateDCA crashSeries (day 0) (day 1) 0 "daily")) = []
  ∧ dailyReturns (timeline (simulateDCA crashSeries (day 0) (day 1) 0 "daily"))
    ≠ returnsOfPositivePairs (timeline (simulateDCA crashSeries (day 0) (day 1) 0 "daily")).
Proof.
  split; [by vm_compute|]. split; [by vm_compute|]. by vm_compute.
Qed.

(** ** simulateDipBuy: deployment of the pile *)







(** ** The calendar

    Arithmetic with the floor divisions of the calendar formulas. *)

Ltac div_lia := Z.to_euclidean_division_equations; lia.

Lemma daysToMonth_split ya mp :
  0 ≤ mp ≤ 11 → daysToMonth (12 * ya + mp) = daysToYear ya + daysInYearTo mp.
Proof.
  intros H. unfold daysToMonth, daysToYear, daysInYearTo.
  assert ((12 * ya + mp) / 12 = ya) as -> by (symmetry; apply (Z.div_unique _ 12 ya mp); lia).
  assert ((12 * ya + mp) mod 12 = mp) as -> by (symmetry; apply (Z.mod_unique _ 12 ya mp); lia).
  done.
Qed.

Lemma daysToYear_period y e : daysToYear (y + 400 * e) = daysToYear y + 146097 * e.
Proof.
  unfold daysToYear.
  replace (y + 400 * e) with (y + (100 * e) * 4) at 2 by lia.
  replace (y + 400 * e) with (y + (4 * e) * 100) at 2 by lia.
  replace (y + 400 * e) with (y + e * 400) at 2 by lia.
  rewrite !Z.div_add by lia. lia.
Qed.

Lemma daysToYear_step y : 365 ≤ daysToYear (y + 1) - daysToYear y ≤ 366.
Proof.
  unfold daysToYear.
  div_lia.
Qed.

Lemma daysInYearTo_step mp : 0 ≤ mp ≤ 10 → 30 ≤ daysInYearTo (mp + 1) - daysInYearTo mp ≤ 31.
Proof. intros H. unfold daysInYearTo. div_lia. Qed.

Lemma daysToMonth_step s : 28 ≤ daysToMonth (s + 1) - daysToMonth s ≤ 31.
Proof.
  pose proof (Z.div_mod s 12 ltac:(lia)) as Hs.
  pose proof (Z.mod_pos_bound s 12 ltac:(lia)) as Hr.
  set (ya := s / 12) in *. set (mp := s mod 12) in *.
  rewrite Hs. rewrite (daysToMonth_split ya mp) by lia.
  destruct (Z_lt_le_dec mp 11) as [Hlt|Hge].
  - replace (12 * ya + mp + 1) with (12 * ya + (mp + 1)) by lia.
    rewrite (daysToMonth_split ya (mp + 1)) by lia.
    pose proof (daysInYearTo_step mp). lia.
  - replace (12 * ya + mp + 1) with (12 * (ya + 1) + 0) by lia.
    rewrite (daysToMonth_split (ya + 1) 0) by lia.
    pose proof (daysToYear_step ya) as Hy.
    assert (mp = 11) as -> by lia.
    change (daysInYearTo 0) with 0. change (daysInYearTo 11) with 337. lia.
Qed.

Lemma daysToMonth_mono_add s n :
  0 ≤ n → daysToMonth s + 28 * n ≤ daysToMonth (s + n).
Proof.
  revert n. apply natlike_ind.
  - replace (s + 0) with s by lia. lia.
  - intros n Hn IH. pose proof (daysToMonth_step (s + n)).
    replace (s + Z.succ n) with (s + n + 1) by lia. lia.
Qed.

Lemma daysToMonth_mono s1 s2 :
  s1 ≤ s2 → daysToMonth s1 + 28 * (s2 - s1) ≤ daysToMonth s2.
Proof.
  intros H. pose proof (daysToMonth_mono_add s1 (s2 - s1) ltac:(lia)) as Hm.
  by replace (s1 + (s2 - s1)) with s2 in Hm by lia.
Qed.

Lemma yearOfEra_ok doe :
  0 ≤ doe < 146097 →
  let yoe := (doe - doe / 1460 + doe / 36524 - doe / 146096) / 365 in
  0 ≤ yoe ≤ 399
  ∧ 365 * yoe + yoe / 4 - yoe / 100 = daysToYear yoe
  ∧ daysToYear yoe ≤ doe < daysToYear (yoe + 1).
Proof. intros H yoe. subst yoe. unfold daysToYear. div_lia. Qed.

Lemma monthOfYear_ok doy :
  0 ≤ doy ≤ 365 →
  let mp := (5 * doy + 2) / 153 in
  0 ≤ mp ≤ 11 ∧ daysInYearTo mp ≤ doy ∧ (mp < 11 → doy < daysInYearTo (mp + 1)).
Proof. intros H mp. subst mp. unfold daysInYearTo. div_lia. Qed.

(** The month of a day number holds it: the day lies between the first
    day of its month and the first day of the next. *)
Lemma civilFromDays_contains z :
  0 ≤ (civilFromDays z).1.2 ≤ 11
  ∧ daysFromCivil (civilFromDays z).1.1 (civilFromDays z).1.2 1 ≤ z
  ∧ z < daysFromCivil (civilFromDays z).1.1 ((civilFromDays z).1.2 + 1) 1.
Proof.
  unfold civilFromDays, daysFromCivil. cbn [fst snd].
  pose proof (Z.div_mod (z + 719468) 146097 ltac:(lia)) as Hz.
  pose proof (Z.mod_pos_bound (z + 719468) 146097 ltac:(lia)) as Hdoe.
  set (era := (z + 719468) / 146097) in *.
  set (doe := (z + 719468) mod 146097) in *.
  destruct (yearOfEra_ok doe Hdoe) as (Hyoe & Heq & Hlo & Hhi).
  set (yoe := (doe - doe / 1460 + doe / 36524 - doe / 146096) / 365) in *.
  rewrite Heq.
  pose proof (daysToYear_step yoe) as Hylen.
  assert (0 ≤ doe - daysToYear yoe ≤ 365) as Hdoy by lia.
  destruct (monthOfYear_ok _ Hdoy) as (Hmp & Hmlo & Hmhi).
  set (mp := (5 * (doe - daysToYear yoe) + 2) / 153) in *.
  pose proof (daysToYear_period yoe era) as Hper.
  pose proof (daysToYear_period (yoe + 1) era) as Hper1.
  assert (12 * (yoe + era * 400 + (if mp <? 10 then 0 else 1))
          + (if mp <? 10 then mp + 2 else mp - 10) - 2
          = 12 * (yoe + 400 * era) + mp) as Hidx by (destruct (mp <? 10) eqn:E; lia).
  split; [destruct (mp <? 10) eqn:E; lia|].
  rewrite Hidx. rewrite (daysToMonth_split _ mp) by lia. rewrite Hper.
  split; [lia|].
  replace (12 * (yoe + era * 400 + (if mp <? 10 then 0 else 1))
           + ((if mp <? 10 then mp + 2 else mp - 10) + 1) - 2)
    with (12 * (yoe + 400 * era) + mp + 1) by lia.
  destruct (Z_lt_le_dec mp 11) as [Hlt|Hge].
  - replace (12 * (yoe + 400 * era) + mp + 1) with (12 * (yoe + 400 * era) + (mp + 1)) by lia.
    rewrite (daysToMonth_split _ (mp + 1)) by lia. rewrite Hper.
    specialize (Hmhi Hlt). lia.
  - replace (12 * (yoe + 400 * era) + mp + 1) with (12 * (yoe + 1 + 400 * era) + 0) by lia.
    rewrite (daysToMonth_split _ 0) by lia. rewrite Hper1.
    change (daysInYearTo 0) with 0. lia.
Qed.

(** ** Months as seen through the [Date] functions *)

Lemma monthIndexOf_eq tz time :
  monthIndexOf tz time = 12 * getFullYear tz time + getMonth tz time.
Proof. reflexivity. Qed.

Lemma twoDigitYear_ge y : y ≤ twoDigitYear y.
Proof. unfold twoDigitYear. destruct (_ && _); lia. Qed.

Lemma twoDigitYear_idem y : twoDigitYear (twoDigitYear y) = twoDigitYear y.
Proof.
  unfold twoDigitYear. destruct ((0 <=? y) && (y <=? 99)) eqn:E; [|by rewrite E].
  assert ((0 <=? 1900 + y) && (1900 + y <=? 99) = false) as -> by lia. done.
Qed.

Lemma newDate_monthStart tz y m :
  newDate tz y m 1 = monthStart tz (12 * twoDigitYear y + m).
Proof. unfold newDate, monthStart, daysFromCivil. f_equal. lia. Qed.

Lemma getMonth_range tz time : 0 ≤ getMonth tz time ≤ 11.
Proof. unfold getMonth. apply civilFromDays_contains. Qed.

Lemma localDay_bounds tz time lo hi :
  lo ≤ localDay tz time < hi → lo * msPerDay - tz ≤ time < hi * msPerDay - tz.
Proof. unfold localDay, msPerDay. intros H. div_lia. Qed.

Lemma civilFromDays_contains_eq z y m d :
  civilFromDays z = (y, m, d) →
  0 ≤ m ≤ 11 ∧ daysToMonth (12 * y + m - 2) - 719468 ≤ z
  ∧ z < daysToMonth (12 * y + m + 1 - 2) - 719468.
Proof.
  intros E. pose proof (civilFromDays_contains z) as H. rewrite E in H. cbn [fst snd] in H.
  unfold daysFromCivil in H.
  replace (12 * y + m + 1 - 2) with (12 * y + (m + 1) - 2) by lia. lia.
Qed.

Lemma monthStart_contains tz time :
  monthStart tz (monthIndexOf tz time) ≤ time < monthStart tz (monthIndexOf tz time + 1).
Proof.
  unfold monthStart, monthIndexOf, getFullYear, getMonth.
  destruct (civilFromDays (localDay tz time)) as [[y m] d] eqn:E.
  apply civilFromDays_contains_eq in E as (_ & Hlo & Hhi). cbn [fst snd].
  apply localDay_bounds. lia.
Qed.

Lemma monthStart_mono tz i1 i2 :
  i1 ≤ i2 → monthStart tz i1 + 28 * msPerDay * (i2 - i1) ≤ monthStart tz i2.
Proof.
  intros H. unfold monthStart.
  pose proof (daysToMonth_mono (i1 - 2) (i2 - 2) ltac:(lia)) as Hm.
  unfold msPerDay. lia.
Qed.

(** The first day of a month is in that month. *)
Lemma monthIndexOf_monthStart tz idx : monthIndexOf tz (monthStart tz idx) = idx.
Proof.
  pose proof (monthStart_contains tz (monthStart tz idx)) as [Hlo Hhi].
  set (idx' := monthIndexOf tz (monthStart tz idx)) in *.
  destruct (Z_lt_le_dec idx idx') as [Hlt|Hge].
  - pose proof (monthStart_mono tz (idx + 1) idx' ltac:(lia)).
    pose proof (monthStart_mono tz idx (idx + 1) ltac:(lia)).
    unfold msPerDay in *. lia.
  - destruct (Z_lt_le_dec idx' idx) as [Hlt|Hge']; [|lia].
    pose proof (monthStart_mono tz (idx' + 1) idx ltac:(lia)).
    unfold msPerDay in *. lia.
Qed.

Lemma getFullYear_monthStart tz y m :
  0 ≤ m ≤ 11 → getFullYear tz (monthStart tz (12 * y + m)) = y
               ∧ getMonth tz (monthStart tz (12 * y + m)) = m.
Proof.
  intros Hm. pose proof (monthIndexOf_monthStart tz (12 * y + m)) as Hidx.
  pose proof (getMonth_range tz (monthStart tz (12 * y + m))) as Hr.
  rewrite monthIndexOf_eq in Hidx. revert Hidx Hr.
  generalize (getFullYear tz (monthStart tz (12 * y + m))).
  generalize (getMonth tz (monthStart tz (12 * y + m))).
  intros m' y' Hidx Hr. lia.
Qed.

(** The next stage starts on the first day of a later month. *)
Lemma nextStart_monthStart tz granularity cur :
  ∃ idx, nextStart tz granularity cur = monthStart tz idx ∧ monthIndexOf tz cur + 1 ≤ idx.
Proof.
  unfold nextStart, monthIndexOf, startOfQuarter.
  pose proof (getMonth_range tz cur) as Hm. revert Hm.
  generalize (getMonth tz cur). generalize (getFullYear tz cur). intros y m Hm.
  pose proof (twoDigitYear_ge y) as Hy.
  destruct (String.eqb granularity "year").
  - eexists. split; [apply newDate_monthStart|].
    pose proof (twoDigitYear_ge (y + 1)). lia.
  - destruct (String.eqb granularity "quarter").
    + rewrite (newDate_monthStart tz y).
      assert (0 ≤ m / 3 * 3 ≤ 11 ∧ m < m / 3 * 3 + 3) as [Hq Hq'] by div_lia.
      destruct (getFullYear_monthStart tz (twoDigitYear y) (m / 3 * 3) Hq) as [-> ->].
      eexists. split; [apply newDate_monthStart|].
      rewrite twoDigitYear_idem. lia.
    + eexists. split; [apply newDate_monthStart|]. lia.
Qed.

Lemma nextStart_after tz granularity cur : cur < nextStart tz granularity cur.
Proof.
  destruct (nextStart_monthStart tz granularity cur) as (idx & -> & Hidx).
  pose proof (monthStart_contains tz cur) as [_ Hhi].
  pose proof (monthStart_mono tz (monthIndexOf tz cur + 1) idx Hidx).
  unfold msPerDay in *. lia.
Qed.

Lemma nextStart_after_monthStart tz granularity idx :
  monthStart tz idx + 28 * msPerDay ≤ nextStart tz granularity (monthStart tz idx).
Proof.
  destruct (nextStart_monthStart tz granularity (monthStart tz idx)) as (idx' & -> & Hidx).
  rewrite monthIndexOf_monthStart in Hidx.
  pose proof (monthStart_mono tz idx idx' ltac:(lia)).
  unfold msPerDay in *. lia.
Qed.

(** ** The stages *)



Lemma stages_fuel_step end_ cur next fuel :
  cur + stagesMonth ≤ next → cur ≤ end_ →
  (end_ - cur) / stagesMonth + 1 ≤ Z.of_nat (S fuel) →
  next ≤ end_ → (end_ - next) / stagesMonth + 1 ≤ Z.of_nat fuel.
Proof. unfold stagesMonth, msPerDay. intros. div_lia. Qed.


Lemma stagesLoop_fuel_enough tz granularity end_ fuel extra cur acc :
  (∃ idx, cur = monthStart tz idx) →
  (cur ≤ end_ → (end_ - cur) / stagesMonth + 1 ≤ Z.of_nat fuel) →
  stagesLoop (fuel + extra) tz granularity end_ cur acc
  = stagesLoop fuel tz granularity end_ cur acc.
Proof.
  revert cur acc. induction fuel as [|fuel IH]; intros cur acc [idx Hidx] Hfuel.
  - assert (end_ < cur) as Hcur.
    { destruct (Z_lt_le_dec end_ cur) as [|Hle]; [done|]. specialize (Hfuel Hle).
      unfold stagesMonth, msPerDay in Hfuel. div_lia. }
    simpl. destruct extra as [|extra]; [done|]. cbn [stagesLoop].
    destruct (cur <=? end_) eqn:E; [apply Z.leb_le in E; lia|done].
  - cbn [Nat.add stagesLoop]. destruct (cur <=? end_) eqn:E; [|done].
    apply Z.leb_le in E. apply IH.
    + destruct (nextStart_monthStart tz granularity cur) as (idx' & -> & _). by eexists.
    + apply (stages_fuel_step end_ cur); [|done|by apply Hfuel].
      subst cur. apply nextStart_after_monthStart.
Qed.

Lemma stages_fuel_first start end_ next :
  start ≤ end_ → start < next →
  ∃ fuel, stages_fuel start end_ = S fuel
          ∧ (next ≤ end_ → (end_ - next) / stagesMonth + 1 ≤ Z.of_nat fuel).
Proof.
  intros Hse Hnext. unfold stages_fuel, stagesMonth, msPerDay.
  exists (Z.to_nat ((end_ - start) / (28 * 86400000) + 1)). split.
  - rewrite <- Z2Nat.inj_succ by div_lia. f_equal. lia.
  - intros Hne. rewrite Z2Nat.id by div_lia. div_lia.
Qed.

(** Any fuel from [stages_fuel] on gives the same stages: the loop of
    [buildStages] leaves by [cur > end]. *)
Lemma buildStages_fuel tz start end_ granularity extra :
  stagesLoop (stages_fuel start end_ + extra) tz granularity end_ start []
  = buildStages tz start end_ granularity.
Proof.
  unfold buildStages. destruct (Z_lt_le_dec end_ start) as [Hlt|Hle].
  - assert ((start <=? end_) = false) as E by lia.
    destruct (stages_fuel start end_ + extra)%nat; destruct (stages_fuel start end_);
      cbn [stagesLoop]; by rewrite ?E.
  - destruct (stages_fuel_first start end_ (nextStart tz granularity start) Hle
                (nextStart_after tz granularity start)) as (fuel & -> & Hfuel).
    cbn [Nat.add stagesLoop]. assert ((start <=? end_) = true) as -> by lia.
    apply stagesLoop_fuel_enough; [|done].
    destruct (nextStart_monthStart tz granularity start) as (idx' & -> & _). by eexists.
Qed.


(** * Further properties of the code *)

(** ** sma *)

Lemma Qsum_cons x l : Qsum (x :: l) = (x + Qsum l)%Q.
Proof. reflexivity. Qed.

Lemma Qsum_app l1 l2 : (Qsum (l1 ++ l2) == Qsum l1 + Qsum l2)%Q.
Proof.
  induction l1 as [|x l1 IH].
  - simpl. change (Qsum []) with 0%Q. ring.
  - rewrite <- app_comm_cons, !Qsum_cons, IH. ring.
Qed.

Lemma Qsum_take_S (l : list Q) n x :
  l !! n = Some x → (Qsum (take (S n) l) == Qsum (take n l) + x)%Q.
Proof.
  intros H. rewrite (take_S_r _ _ _ H), Qsum_app, Qsum_cons.
  change (Qsum []) with 0%Q. ring.
Qed.

Lemma Qsum_take_drop (l : list Q) a k :
  (Qsum (take (a + k) l) == Qsum (take a l) + Qsum (take k (drop a l)))%Q.
Proof. rewrite <- take_take_drop, Qsum_app. reflexivity. Qed.

Lemma readNum_in arr (k : nat) (x : Q) :
  arr !! k = Some x → readNum arr (Z.of_nat k) = Fin x.
Proof.
  intros H. unfold readNum. assert ((Z.of_nat k <? 0) = false) as -> by (apply Z.ltb_ge; lia).
  by rewrite Nat2Z.id, H.
Qed.

Lemma inject_Z_pos w : 0 < w → (0 < inject_Z w)%Q.
Proof. intros H. replace 0%Q with (inject_Z 0) by reflexivity. by rewrite <- Zlt_Qlt. Qed.

Lemma smaLoop_spec arr window rest i s :
  1 ≤ window → drop i arr = rest → smaSumInv arr (Z.to_nat window) i s →
  length (smaLoop arr window rest i (Fin s)) = length rest
  ∧ ∀ k, (k < length rest)%nat →
         smaOut arr window (i + k) (smaLoop arr window rest i (Fin s) !! k).
Proof.
  intros Hw. revert i s. induction rest as [|x rest IH]; intros i s Hdrop Hinv.
  - split; [done|]. simpl. lia.
  - apply drop_cons_inv in Hdrop as [Hx Hdrop].
    pose proof (Qsum_take_S arr i x Hx) as Hpx.
    cbn [smaLoop].
    assert (∃ s2,
      (if window <=? Z.of_nat i
       then (Fin s + Fin x - readNum arr (Z.of_nat i - window))%num
       else (Fin s + Fin x)%num) = Fin s2
      ∧ smaSumInv arr (Z.to_nat window) (S i) s2) as (s2 & -> & Hinv2).
    { unfold smaSumInv in *. destruct (window <=? Z.of_nat i) eqn:E.
      - apply Z.leb_le in E.
        assert (i - Z.to_nat window < length arr)%nat as Hlt
          by (apply lookup_lt_Some in Hx; lia).
        destruct (lookup_lt_is_Some_2 arr _ Hlt) as [y Hy].
        replace (Z.of_nat i - window) with (Z.of_nat (i - Z.to_nat window)) by lia.
        rewrite (readNum_in _ _ _ Hy). eexists. split; [reflexivity|].
        pose proof (Qsum_take_S arr _ y Hy) as Hpy.
        replace (i - Nat.min i (Z.to_nat window))%nat with (i - Z.to_nat window)%nat
          in Hinv by lia.
        replace (S i - Nat.min (S i) (Z.to_nat window))%nat
          with (S (i - Z.to_nat window)) by lia.
        rewrite Hpx, Hpy, Hinv. ring.
      - apply Z.leb_gt in E. eexists. split; [reflexivity|].
        replace (i - Nat.min i (Z.to_nat window))%nat with O in Hinv by lia.
        replace (S i - Nat.min (S i) (Z.to_nat window))%nat with O by lia.
        rewrite Hpx, Hinv. ring. }
    destruct (IH (S i) s2 Hdrop Hinv2) as [Hlen Hout].
    split; [simpl; by rewrite Hlen|].
    intros [|k] Hk.
    + rewrite Nat.add_0_r. cbn [lookup list_lookup]. unfold smaOut.
      destruct (window - 1 <=? Z.of_nat i) eqn:E.
      * assert ((Z.of_nat i <? window - 1) = false) as -> by lia.
        rewrite div_Fin_pos by (apply inject_Z_pos; lia).
        eexists. split; [reflexivity|]. unfold smaSumInv in Hinv2.
        replace (S i - Nat.min (S i) (Z.to_nat window))%nat
          with (S i - Z.to_nat window)%nat in Hinv2 by lia.
        by rewrite Hinv2.
      * by assert ((Z.of_nat i <? window - 1) = true) as -> by lia.
    + replace (i + S k)%nat with (S i + k)%nat by lia. cbn [lookup list_lookup].
      apply Hout. simpl in Hk. lia.
Qed.

(** ** The shared loop, with positions *)

Lemma windowLoop_invariant_at {St : Type} (I : St → Prop) start end_
    (body : nat → PricePoint → St → St) (data rest : Series) i st :
  drop i data = rest →
  (∀ k d s, data !! k = Some d → outOfWindow start end_ d = false → I s → I (body k d s)) →
  I st → I (windowLoop start end_ body rest i st).
Proof.
  intros Hdrop Hbody. revert i st Hdrop.
  induction rest as [|d rest IH]; intros i st Hdrop Hst; [done|].
  apply drop_cons_inv in Hdrop as [Hd Hdrop]. simpl. apply (IH (S i)); [done|].
  destruct (outOfWindow start end_ d) eqn:E; [done|]. by apply (Hbody i).
Qed.

(** ** simulateTrendDCA with a window longer than the series *)

(** X2. When the moving-average window is longer than the series,
    [simulateTrendDCA] never buys: the units stay 0 and in every row the
    pile holds all the cash paid in. *)
Theorem trend_long_window_never_buys (data : Series) (start end_ : Z) (amount : Q)
    (frequency : string) (maN : Z) :
  Z.of_nat (length data) < maN →
  r_units (result (simulateTrendDCA data start end_ amount frequency maN)) = Fin 0
  ∧ Forall nothingBought (timeline (simulateTrendDCA data start end_ amount frequency maN)).
Proof.
  intros Hlong. unfold simulateTrendDCA, trendLoop. cbn [result timeline r_units].
  set (ma := sma (map p data) maN).
  set (sset := scheduleSetOf (buildScheduleIdx data start end_ frequency)).
  pose (I := λ s : TrendState,
          ts_units s = Fin 0 ∧ ts_cashPile s = ts_cashIn s
          ∧ Forall nothingBought (ts_timeline s)).
  assert (I (windowLoop start end_ (trendDay amount maN ma sset) data 0
               (mkTrend 0 (Fin 0) 0 []))) as (Hu & _ & Hrows).
  { apply (windowLoop_invariant_at I start end_ _ data); [done| |by repeat split].
    intros k d s Hd _ (Hu & Hpile & Hrows). apply lookup_lt_Some in Hd.
    unfold trendDay.
    assert ((maN - 1 <=? Z.of_nat k) = false) as -> by lia.
    cbn [andb]. unfold I. cbn [ts_units ts_cashPile ts_cashIn ts_timeline].
    split; [done|]. rewrite Hpile. split; [done|].
    apply Forall_app. split; [done|]. apply Forall_singleton.
    by split. }
  by split.
Qed.

Lemma trend_long_window_never_buys_witness :
  r_units (result (simulateTrendDCA crashSeries (day 0) (day 1) 100 "daily" 3)) = Fin 0
  ∧ Forall nothingBought (timeline (simulateTrendDCA crashSeries (day 0) (day 1) 100 "daily" 3)).
Proof.
  apply (trend_long_window_never_buys crashSeries (day 0) (day 1) 100 "daily" 3).
  simpl. lia.
Defined.

(** ** drawdownSeries and the maximum drawdown *)

Lemma max_peak_Fin peak v :
  peakSoFar peak → ∃ y, Num.max peak (Fin v) = Fin y ∧ (v <= y)%Q.
Proof.
  intros [->|[x ->]]; simpl.
  - exists v. split; [done|lra].
  - destruct (x ?= v)%Q eqn:E.
    + exists x. apply Qeq_alt in E. split; [done|lra].
    + exists v. split; [done|lra].
    + exists x. apply Qgt_alt in E. split; [done|lra].
Qed.

Lemma ratio_atMostZero v y :
  (v <= y)%Q → (Fin y >? Fin 0)%num = true → atMostZero (Fin v / Fin y - Fin 1)%num.
Proof.
  intros Hle Hpos. unfold Num.gtb in Hpos. simpl in Hpos.
  destruct (0 ?= y)%Q eqn:E; try done. apply Qlt_alt in E.
  rewrite div_Fin_pos by done. simpl. eexists. split; [done|].
  assert (v / y <= 1)%Q; [|lra].
  apply Qle_shift_div_r; [done|lra].
Qed.

Lemma min_atMostZero a b : atMostZero a → atMostZero b → atMostZero (Num.min a b).
Proof.
  intros (x & -> & Hx) (y & -> & Hy). simpl.
  destruct (y ?= x)%Q; by eexists.
Qed.

Lemma min_zero a : atMostZero a → Num.min a (Fin 0) = a.
Proof.
  intros (x & -> & Hx). simpl.
  destruct (0 ?= x)%Q eqn:E; try done. apply Qlt_alt in E. lra.
Qed.

Lemma drawdownLoop_dates rest peak : map dd_t (drawdownLoop rest peak) = map e_t rest.
Proof.
  revert peak. induction rest as [|e rest IH]; intros peak; [done|].
  simpl. by rewrite IH.
Qed.

Lemma drawdownLoop_atMostZero rest peak :
  finiteValues rest → peakSoFar peak →
  Forall (λ pt, atMostZero (dd_value pt)) (drawdownLoop rest peak).
Proof.
  revert peak. induction rest as [|e rest IH]; intros peak Hfin Hpeak; [by constructor|].
  apply Forall_cons in Hfin as [He Hfin]. cbn [drawdownLoop].
  destruct (e_value e) as [v| | |] eqn:Ev; try done.
  destruct (max_peak_Fin peak v Hpeak) as (y & Hy & Hle). rewrite Hy.
  constructor.
  - cbn [dd_value]. destruct (Fin y >? Fin 0)%num eqn:Hpos.
    + by apply ratio_atMostZero.
    + exists 0%Q. split; [done|lra].
  - apply IH; [done|]. right. by exists y.
Qed.

Lemma atMostZero_leb a : atMostZero a → (a <=? Fin 0)%num = true.
Proof. intros (q & -> & Hq). by apply leb_Fin. Qed.

(** X3. [drawdownSeries] gives one point for each row of the timeline, with
    the date of that row; when the values are finite numbers every
    drawdown is at most 0. *)
Theorem drawdownSeries_dates_and_sign (tl : Timeline) :
  finiteValues tl →
  map dd_t (drawdownSeries tl) = map e_t tl
  ∧ length (drawdownSeries tl) = length tl
  ∧ Forall (λ pt, (dd_value pt <=? Fin 0)%num = true) (drawdownSeries tl).
Proof.
  intros Hfin. unfold drawdownSeries. split; [apply drawdownLoop_dates|]. split.
  - rewrite <- (length_map dd_t), drawdownLoop_dates. apply length_map.
  - eapply Forall_impl; [apply drawdownLoop_atMostZero; [done|by left]|].
    intros pt Hpt. by apply atMostZero_leb.
Qed.

Lemma drawdownSeries_dates_and_sign_witness :
  let tl := timeline (simulateDCA crashSeries (day 0) (day 1) 100 "daily") in
  map dd_t (drawdownSeries tl) = map e_t tl
  ∧ length (drawdownSeries tl) = length tl
  ∧ Forall (λ pt, (dd_value pt <=? Fin 0)%num = true) (drawdownSeries tl).
Proof.
  apply (drawdownSeries_dates_and_sign
           (timeline (simulateDCA crashSeries (day 0) (day 1) 100 "daily"))).
  vm_compute. repeat constructor.
Defined.

Lemma mddLoop_minDrawdown rest peak m :
  finiteValues rest → peakSoFar peak → atMostZero m →
  mddLoop (map e_value rest) peak m
  = foldl (λ m pt, Num.min m (dd_value pt)) m (drawdownLoop rest peak)
  ∧ atMostZero (mddLoop (map e_value rest) peak m).
Proof.
  revert peak m. induction rest as [|e rest IH]; intros peak m Hfin Hpeak Hm; [done|].
  apply Forall_cons in Hfin as [He Hfin]. cbn [drawdownLoop mddLoop map foldl dd_value].
  destruct (e_value e) as [v| | |] eqn:Ev; try done.
  destruct (max_peak_Fin peak v Hpeak) as (y & Hy & Hle). rewrite Hy.
  destruct (Fin y >? Fin 0)%num eqn:Hpos.
  - apply IH; [done|right; by exists y|].
    apply min_atMostZero; [done|]. by apply ratio_atMostZero.
  - rewrite (min_zero m Hm). apply IH; [done|right; by exists y|done].
Qed.

(** X4. The maximum drawdown that [metricsFromTimeline] reports is the
    minimum of the curve that [drawdownSeries] draws, and it is at most 0,
    when the values of the timeline are finite numbers. *)
Theorem mdd_is_min_of_drawdownSeries (tl : Timeline) (Math_pow : num → num → num)
    (Math_sqrt : num → num) :
  finiteValues tl →
  match metricsFromTimeline Math_pow Math_sqrt tl with
  | Some m =>
      m_mdd m = minDrawdown (drawdownSeries tl) ∧ (m_mdd m <=? Fin 0)%num = true
  | None => tl = []
  end.
Proof.
  intros Hfin. unfold metricsFromTimeline.
  destruct tl as [|first tl']; [done|].
  destruct (last (first :: tl')) eqn:El; [|by apply last_None in El].
  cbn [m_mdd].
  destruct (mddLoop_minDrawdown (first :: tl') NInf (Fin 0)) as [Heq Hle];
    [done|by left|exists 0%Q; split; [done|lra]|].
  split; [exact Heq|by apply atMostZero_leb].
Qed.

Lemma mdd_is_min_of_drawdownSeries_witness :
  match metricsFromTimeline (λ _ _, NaN) (λ _, NaN)
          (timeline (simulateLumpSum crashSeries (day 0) (day 1) 100 "daily")) with
  | Some m =>
      m_mdd m
      = minDrawdown (drawdownSeries
                       (timeline (simulateLumpSum crashSeries (day 0) (day 1) 100 "daily")))
      ∧ (m_mdd m <=? Fin 0)%num = true
  | None => timeline (simulateLumpSum crashSeries (day 0) (day 1) 100 "daily") = []
  end.
Proof.
  apply (mdd_is_min_of_drawdownSeries
           (timeline (simulateLumpSum crashSeries (day 0) (day 1) 100 "daily"))
           (λ _ _, NaN) (λ _, NaN)).
  vm_compute. repeat constructor.
Defined.

(** ** Finite values *)










(** ** Rows of a timeline and clampRange *)

Lemma clampRange_test start end_ d :
  (start <=? t d) && (t d <=? end_) = negb (outOfWindow start end_ d).
Proof. unfold outOfWindow. lia. Qed.

Lemma windowLoop_rows {St : Type} (tlOf : St → Timeline) start end_
    (body : nat → PricePoint → St → St) rest i st :
  (∀ k d s, ∃ e, tlOf (body k d s) = tlOf s ++ [e] ∧ e_t e = t d ∧ e_p e = p d) →
  rowsOf (tlOf (windowLoop start end_ body rest i st))
  = rowsOf (tlOf st) ++ pointsOf (clampRange rest start end_).
Proof.
  intros Hbody. revert i st.
  induction rest as [|d rest IH]; intros i st.
  - simpl. by rewrite app_nil_r.
  - cbn [windowLoop]. rewrite IH. unfold clampRange. cbn [List.filter].
    rewrite clampRange_test.
    destruct (outOfWindow start end_ d); [done|]. cbn [negb].
    destruct (Hbody i d st) as (e & -> & Ht & Hp).
    unfold rowsOf, pointsOf. rewrite map_app. cbn [map]. rewrite Ht, Hp.
    by rewrite <- app_assoc.
Qed.

(** X6. The rows of the timelines of [simulateDCA], [simulateDipBuy] and
    [simulateTrendDCA] are the days that [clampRange] keeps, in the same
    order and with the same dates and prices. *)
Theorem loop_timelines_follow_clampRange (data : Series) (start end_ : Z) (amount : Q)
    (frequency : string) (dipPct : Q) (maN : Z) :
  rowsOf (timeline (simulateDCA data start end_ amount frequency))
  = pointsOf (clampRange data start end_)
  ∧ rowsOf (timeline (simulateDipBuy data start end_ amount frequency dipPct))
    = pointsOf (clampRange data start end_)
  ∧ rowsOf (timeline (simulateTrendDCA data start end_ amount frequency maN))
    = pointsOf (clampRange data start end_).
Proof.
  repeat split.
  - unfold simulateDCA, dcaLoop. cbn [timeline].
    rewrite (windowLoop_rows dca_timeline); [done|].
    intros k d s. by eexists.
  - unfold simulateDipBuy, dipLoop. cbn [timeline].
    rewrite (windowLoop_rows ps_timeline); [done|].
    intros k d s. by eexists.
  - unfold simulateTrendDCA, trendLoop. cbn [timeline].
    rewrite (windowLoop_rows ts_timeline); [done|].
    intros k d s. by eexists.
Qed.

Lemma findIndexFrom_before f rest i :
  match findIndexFrom f rest i with
  | Some k => Forall (λ d, f d = false) (take (k - i) rest)
  | None => Forall (λ d, f d = false) rest
  end.
Proof.
  revert i. induction rest as [|d rest IH]; intros i; [by constructor|].
  simpl. destruct (f d) eqn:E.
  - replace (i - i)%nat with O by lia. by constructor.
  - specialize (IH (S i)).
    destruct (findIndexFrom f rest (S i)) as [k|] eqn:Ek; [|by constructor].
    apply findIndexFrom_Some in Ek as [Hk _].
    replace (k - i)%nat with (S (k - S i)) by lia. by constructor.
Qed.

Lemma filter_none {A : Type} (f : A → bool) (l : list A) :
  Forall (λ x, f x = false) l → List.filter f l = [].
Proof.
  induction 1 as [|x l Hx _ IH]; [done|]. simpl. by rewrite Hx.
Qed.

Lemma ascending_cons d rest :
  ascending (d :: rest) → ascending rest ∧ Forall (λ x, t d ≤ t x) rest.
Proof.
  intros Hasc. split.
  - intros i j a b Hij Ha Hb. apply (Hasc (S i) (S j)); [lia|done|done].
  - apply Forall_lookup. intros j x Hx. apply (Hasc O (S j)); [lia|done|done].
Qed.

Lemma ascending_drop data k : ascending data → ascending (drop k data).
Proof.
  intros Hasc i j a b Hij Ha Hb. rewrite lookup_drop in Ha, Hb.
  apply (Hasc (k + i)%nat (k + j)%nat); [lia|done|done].
Qed.

Lemma lumpLoop_points end_ total units rest tl :
  ascending rest →
  rowsOf (lumpLoop end_ total units rest tl)
  = rowsOf tl ++ pointsOf (List.filter (λ d, t d <=? end_) rest).
Proof.
  revert tl. induction rest as [|d rest IH]; intros tl Hasc.
  - simpl. by rewrite app_nil_r.
  - apply ascending_cons in Hasc as [Hasc Hd]. cbn [lumpLoop List.filter].
    destruct (t d <=? end_) eqn:E.
    + rewrite IH by done. unfold rowsOf, pointsOf. rewrite map_app. cbn [map e_t e_p].
      by rewrite <- app_assoc.
    + rewrite filter_none; [simpl; by rewrite app_nil_r|].
      eapply Forall_impl; [exact Hd|]. intros x Hx. simpl in Hx. lia.
Qed.

(** X7. On a series in ascending order of date the rows of the timeline of
    [simulateLumpSum] are the days that [clampRange] keeps, with the same
    dates and prices. *)
Theorem lumpSum_timeline_follows_clampRange (data : Series) (start end_ : Z) (amount : Q)
    (frequency : string) :
  ascending data →
  rowsOf (timeline (simulateLumpSum data start end_ amount frequency))
  = pointsOf (clampRange data start end_).
Proof.
  intros Hasc. unfold simulateLumpSum, clampRange.
  pose proof (findIndexFrom_before (λ d, start <=? t d) data 0) as Hbefore.
  fold (findIndex (λ d, start <=? t d) data) in Hbefore.
  destruct (findIndex (λ d, start <=? t d) data) as [iStart|] eqn:Hi.
  - apply findIndex_Some in Hi as (d0 & Hd0 & Hstart). rewrite Hd0. cbn [timeline].
    rewrite lumpLoop_points by by apply ascending_drop.
    rewrite Nat.sub_0_r in Hbefore.
    rewrite <- (take_drop iStart data) at 2. rewrite List.filter_app.
    rewrite (filter_none _ (take iStart data)).
    + cbn [app rowsOf map]. f_equal. apply filter_ext_in. intros d Hd.
      apply list_elem_of_In, list_elem_of_lookup in Hd as [j Hj].
      rewrite lookup_drop in Hj.
      assert (t d0 ≤ t d) by (apply (Hasc iStart (iStart + j)%nat); [lia|done|done]).
      lia.
    + eapply Forall_impl; [exact Hbefore|]. intros d Hd. simpl in Hd. by rewrite Hd.
  - cbn [timeline rowsOf map]. rewrite filter_none; [done|].
    eapply Forall_impl; [exact Hbefore|]. intros d Hd. simpl in Hd. by rewrite Hd.
Qed.

Lemma lumpSum_timeline_follows_clampRange_witness :
  rowsOf (timeline (simulateLumpSum crashSeries (day 1) (day 1) 100 "daily"))
  = pointsOf (clampRange crashSeries (day 1) (day 1)).
Proof.
  apply (lumpSum_timeline_follows_clampRange crashSeries (day 1) (day 1) 100 "daily").
  intros [|[|i]] [|[|j]] a b Hij Ha Hb; simplify_eq/=; vm_compute; try discriminate; lia.
Defined.

(** ** The metrics and the summary of a simulation *)

Lemma metrics_of_last Math_pow Math_sqrt tl cashIn :
  lastCashIn tl cashIn →
  match metricsFromTimeline Math_pow Math_sqrt tl with
  | Some m => m_cashIn m = cashIn ∧ m_endValue m = endValueOf tl
  | None => tl = []
  end.
Proof.
  intros Hlast. unfold metricsFromTimeline, endValueOf.
  destruct tl as [|first tl']; [done|].
  destruct (last (first :: tl')) as [e|] eqn:El; [|by apply last_None in El].
  cbn [m_cashIn m_endValue]. split; [by apply Hlast|done].
Qed.

Lemma lastCashIn_push tl e : lastCashIn (tl ++ [e]) (e_cashIn e).
Proof. intros e' He'. rewrite last_snoc in He'. by injection He' as <-. Qed.

(** X8. For each of the four simulators, the cash paid in and the final
    value that [metricsFromTimeline] computes from the timeline are the
    ones of the summary that the simulator returns. *)
Theorem metrics_match_summary (data : Series) (start end_ : Z) (amount : Q)
    (frequency : string) (dipPct : Q) (maN : Z) (Math_pow : num → num → num)
    (Math_sqrt : num → num) :
  metricsMatchSummary Math_pow Math_sqrt (simulateDCA data start end_ amount frequency)
  ∧ metricsMatchSummary Math_pow Math_sqrt (simulateLumpSum data start end_ amount frequency)
  ∧ metricsMatchSummary Math_pow Math_sqrt
      (simulateDipBuy data start end_ amount frequency dipPct)
  ∧ metricsMatchSummary Math_pow Math_sqrt
      (simulateTrendDCA data start end_ amount frequency maN).
Proof.
  unfold metricsMatchSummary. repeat split.
  - unfold simulateDCA, dcaLoop. cbn [timeline result r_cashIn r_endValue].
    apply metrics_of_last.
    apply (windowLoop_invariant (λ s, lastCashIn (dca_timeline s) (dca_cashIn s))); [|done].
    intros k d s _ _ _. apply (lastCashIn_push _ (mkEntry _ _ _ _ _ _ _)).
  - unfold simulateLumpSum.
    destruct (findIndex _ data) as [iStart|]; [|done].
    destruct (data !! iStart) as [d0|]; [|done].
    cbn [timeline result r_cashIn r_endValue].
    apply metrics_of_last. intros e He.
    apply last_Some_elem_of, lumpLoop_rows in He as [He|[He _]]; [|done].
    by apply elem_of_nil in He.
  - unfold simulateDipBuy, dipLoop. cbn [timeline result r_cashIn r_endValue].
    apply metrics_of_last.
    apply (windowLoop_invariant (λ s, lastCashIn (ps_timeline s) (ps_cashIn s))); [|done].
    intros k d s _ _ _. apply (lastCashIn_push _ (mkEntry _ _ _ _ _ _ _)).
  - unfold simulateTrendDCA, trendLoop. cbn [timeline result r_cashIn r_endValue].
    apply metrics_of_last.
    apply (windowLoop_invariant (λ s, lastCashIn (ts_timeline s) (ts_cashIn s))); [|done].
    intros k d s _ _ _. apply (lastCashIn_push _ (mkEntry _ _ _ _ _ _ _)).
Qed.

(** ** The cash pile *)

Lemma pileRun_push tl pile cashIn e :
  Forall pileWithinCashIn tl → (0 <= pile <= cashIn)%Q →
  e_cashPile e = Some pile → e_cashIn e = cashIn →
  pileRun (tl ++ [e]) pile cashIn.
Proof.
  intros Htl Hb Hp Hc. split; [done|]. apply Forall_app. split; [done|].
  apply Forall_singleton. exists pile. by rewrite Hc.
Qed.

(** X9. With an amount that is not negative, the cash pile that
    [simulateDipBuy] and [simulateTrendDCA] record on each row lies between
    0 and the cash paid in so far. *)
Theorem pile_within_cashIn (data : Series) (start end_ : Z) (amount : Q)
    (frequency : string) (dipPct : Q) (maN : Z) :
  (0 <= amount)%Q →
  Forall pileWithinCashIn (timeline (simulateDipBuy data start end_ amount frequency dipPct))
  ∧ Forall pileWithinCashIn (timeline (simulateTrendDCA data start end_ amount frequency maN)).
Proof.
  intros Hamount. split.
  - unfold simulateDipBuy, dipLoop. cbn [timeline].
    apply (windowLoop_invariant
             (λ s, pileRun (ps_timeline s) (ps_cashPile s) (ps_cashIn s))).
    + intros k d s _ _ [Hb Htl]. unfold dipDay. cbn [ps_timeline ps_cashPile ps_cashIn].
      apply pileRun_push; [done| |done|done].
      destruct (has _ k);
        match goal with |- context [if ?b then 0%Q else _] => destruct b end;
        destruct Hb; split; lra.
    + split; [split; cbn; lra|by constructor].
  - unfold simulateTrendDCA, trendLoop. cbn [timeline].
    apply (windowLoop_invariant
             (λ s, pileRun (ts_timeline s) (ts_cashPile s) (ts_cashIn s))).
    + intros k d s _ _ [Hb Htl]. unfold trendDay. cbn [ts_timeline ts_cashPile ts_cashIn].
      apply pileRun_push; [done| |done|done].
      destruct (has _ k);
        match goal with |- context [if ?b then 0%Q else _] => destruct b end;
        destruct Hb; split; lra.
    + split; [split; cbn; lra|by constructor].
Qed.

Lemma pile_within_cashIn_witness :
  Forall pileWithinCashIn
    (timeline (simulateDipBuy crashSeries (day 0) (day 1) 100 "daily" (1 # 5)))
  ∧ Forall pileWithinCashIn
      (timeline (simulateTrendDCA crashSeries (day 0) (day 1) 100 "daily" 2)).
Proof.
  apply (pile_within_cashIn crashSeries (day 0) (day 1) 100 "daily" (1 # 5) 2). done.
Defined.

(** ** Series without gaps *)

Lemma scanFrom_prev (data rest : Series) j0 cursor :
  drop j0 data = rest → (j0 < scanFrom rest j0 cursor)%nat →
  ∃ d, data !! (scanFrom rest j0 cursor - 1)%nat = Some d ∧ t d < cursor.
Proof.
  revert j0. induction rest as [|d rest IH]; intros j0 Hdrop Hlt; simpl in *; [lia|].
  apply drop_cons_inv in Hdrop as [Hd Hdrop].
  destruct (t d <? cursor) eqn:E; [|lia].
  destruct (decide (scanFrom rest (S j0) cursor = S j0)) as [Heq|Hne].
  - rewrite Heq. replace (S j0 - 1)%nat with j0 by lia. exists d. split; [done|lia].
  - apply IH; [done|]. pose proof (scanFrom_ge rest (S j0) cursor). lia.
Qed.

(** Without gaps longer than the step, the day that the scan finds is less
    than one step after the cursor. *)
Lemma scanFrom_within_step data iStart d0 stepMs cursor d :
  gapsAtMost stepMs data → 0 < stepMs →
  data !! iStart = Some d0 → t d0 ≤ cursor →
  data !! scanFrom (drop iStart data) iStart cursor = Some d →
  t d < cursor + stepMs.
Proof.
  intros Hgap Hs Hd0 Hc Hd.
  pose proof (scanFrom_ge (drop iStart data) iStart cursor) as Hge.
  destruct (decide (scanFrom (drop iStart data) iStart cursor = iStart)) as [Heq|Hne].
  - rewrite Heq, Hd0 in Hd. injection Hd as <-. lia.
  - destruct (scanFrom_prev data (drop iStart data) iStart cursor eq_refl) as (d' & Hd' & Hlt);
      [lia|].
    assert (t d - t d' ≤ stepMs); [|lia].
    apply (Hgap (scanFrom (drop iStart data) iStart cursor - 1)%nat); [done|].
    by replace (S (scanFrom (drop iStart data) iStart cursor - 1))
      with (scanFrom (drop iStart data) iStart cursor) by lia.
Qed.

Lemma scheduleLoop_strict fuel data iStart d0 endDate stepMs cursor idx :
  gapsAtMost stepMs data → 0 < stepMs →
  data !! iStart = Some d0 → t d0 ≤ cursor →
  strictlyIncreasing idx → lastBehind data iStart cursor idx →
  strictlyIncreasing (scheduleLoop fuel data iStart endDate stepMs cursor idx).
Proof.
  intros Hgap Hs Hd0. revert cursor idx.
  induction fuel as [|fuel IH]; intros cursor idx Hc Hidx Hlast; simpl; [done|].
  destruct (cursor <=? endDate); [|done].
  pose proof (scanFrom_mono (drop iStart data) iStart cursor (cursor + stepMs)) as Hm.
  pose proof (scanFrom_within_step data iStart d0 stepMs cursor) as Hw.
  pose proof (scanFrom_reaches data (drop iStart data) iStart cursor) as Hr.
  unfold pushIfInRange.
  destruct (data !! scanFrom (drop iStart data) iStart cursor) as [d|] eqn:Hd.
  - destruct (t d <=? endDate).
    + apply IH; [lia| |].
      * apply chain_snoc; [exact Hidx|]. intros a Ha.
        destruct (Hlast a Ha) as (Hle & d' & Hd' & Hlt).
        destruct (decide (a = scanFrom (drop iStart data) iStart cursor)) as [->|Hne]; [|lia].
        rewrite Hd in Hd'. injection Hd' as <-.
        specialize (Hr d eq_refl eq_refl). lia.
      * intros a. rewrite last_snoc. intros [= <-]. split; [lia|].
        exists d. split; [done|]. by apply (Hw d).
    + apply IH; [lia|exact Hidx|]. intros a Ha.
      destruct (Hlast a Ha) as (Hle & d' & Hd' & Hlt).
      split; [lia|]. exists d'. split; [done|lia].
  - apply IH; [lia|exact Hidx|]. intros a Ha.
    destruct (Hlast a Ha) as (Hle & d' & Hd' & Hlt).
    split; [lia|]. exists d'. split; [done|lia].
Qed.

Lemma schedule_strict_without_gaps data start end_ frequency :
  gapsAtMost (stepDays frequency * msPerDay) data →
  strictlyIncreasing (buildScheduleIdx data start end_ frequency).
Proof.
  intros Hgap. unfold buildScheduleIdx.
  destruct (findIndex _ data) as [iStart|]; [|apply chain_nil].
  destruct (data !! iStart) as [d0|] eqn:Hd0; [|apply chain_nil].
  destruct (lastDate data) as [lastD|]; [|apply chain_nil].
  apply (scheduleLoop_strict _ data iStart d0); try done.
  apply stepDays_pos.
Qed.

Lemma strictlyIncreasing_lt l i j a b :
  strictlyIncreasing l → (i < j)%nat → l !! i = Some a → l !! j = Some b → (a < b)%nat.
Proof.
  intros Hl Hij Ha. revert b. induction j as [|j IH]; intros b Hb; [lia|].
  destruct (l !! j) as [c|] eqn:Hc.
  - assert (c < b)%nat by (by apply (Hl j)).
    destruct (decide (i = j)) as [->|Hne]; [by simplify_eq|].
    assert (a < c)%nat by (apply IH; [lia|done]). lia.
  - apply lookup_ge_None in Hc. apply lookup_lt_Some in Hb. lia.
Qed.

Lemma strictlyIncreasing_NoDup l : strictlyIncreasing l → NoDup l.
Proof.
  intros Hl. apply NoDup_alt. intros i j a Hi Hj.
  destruct (Nat.lt_trichotomy i j) as [Hlt|[->|Hlt]]; [|done|].
  - pose proof (strictlyIncreasing_lt l i j a a Hl Hlt Hi Hj). lia.
  - pose proof (strictlyIncreasing_lt l j i a a Hl Hlt Hj Hi). lia.
Qed.

(** ** Size and first entry of the schedule *)

Lemma pushIfInRange_length data endDate j idx :
  (length (pushIfInRange data endDate j idx) ≤ S (length idx))%nat.
Proof.
  unfold pushIfInRange. destruct (data !! j) as [d|]; [|lia].
  destruct (t d <=? endDate); [|lia]. rewrite length_app. simpl. lia.
Qed.

Lemma scheduleLoop_length fuel data iStart endDate stepMs cursor idx :
  (length (scheduleLoop fuel data iStart endDate stepMs cursor idx) ≤ length idx + fuel)%nat.
Proof.
  revert cursor idx. induction fuel as [|fuel IH]; intros cursor idx; simpl; [lia|].
  destruct (cursor <=? endDate); [|lia].
  etrans; [apply IH|]. pose proof (pushIfInRange_length data endDate
    (scanFrom (drop iStart data) iStart cursor) idx). lia.
Qed.

Lemma pushIfInRange_prefix data endDate j idx : idx `prefix_of` pushIfInRange data endDate j idx.
Proof.
  unfold pushIfInRange. destruct (data !! j) as [d|]; [|done].
  destruct (t d <=? endDate); [|done]. by apply prefix_app_r.
Qed.

Lemma scheduleLoop_prefix fuel data iStart endDate stepMs cursor idx :
  idx `prefix_of` scheduleLoop fuel data iStart endDate stepMs cursor idx.
Proof.
  revert cursor idx. induction fuel as [|fuel IH]; intros cursor idx; simpl; [done|].
  destruct (cursor <=? endDate); [|done].
  etrans; [|apply IH]. apply pushIfInRange_prefix.
Qed.

Lemma scanFrom_stays (data : Series) iStart d0 :
  data !! iStart = Some d0 → scanFrom (drop iStart data) iStart (t d0) = iStart.
Proof.
  intros Hd0. destruct (drop iStart data) as [|d rest] eqn:Hdrop.
  - apply drop_nil_length in Hdrop. apply lookup_lt_Some in Hd0. lia.
  - apply drop_cons_inv in Hdrop as [Hd _]. simplify_eq. simpl.
    by rewrite Z.ltb_irrefl.
Qed.

(** X11. The schedule holds at most one entry for each step that fits
    between [start] and [end], and when it is not empty it begins with the
    first day of the series on or after [start]. *)
Theorem schedule_length_and_head (data : Series) (start end_ : Z) (frequency : string) :
  (length (buildScheduleIdx data start end_ frequency)
   ≤ Z.to_nat ((end_ - start) / (stepDays frequency * msPerDay) + 1))%nat
  ∧ (buildScheduleIdx data start end_ frequency = []
     ∨ head (buildScheduleIdx data start end_ frequency)
       = findIndex (λ d, start <=? t d) data).
Proof.
  pose proof (stepDays_pos frequency) as Hs.
  unfold buildScheduleIdx.
  destruct (findIndex _ data) as [iStart|] eqn:Hfi; [|split; [simpl; lia|by left]].
  destruct (findIndex_Some _ _ _ Hfi) as (d0 & Hd0 & Hstart). rewrite Hd0.
  destruct (lastDate data) as [lastD|]; [|split; [simpl; lia|by left]].
  set (endDate := if end_ <=? lastD then end_ else lastD).
  set (stepMs := stepDays frequency * msPerDay) in *.
  split.
  - etrans; [apply scheduleLoop_length|]. simpl. unfold schedule_fuel.
    assert ((endDate - t d0) / stepMs ≤ (end_ - start) / stepMs); [|lia].
    apply Z.div_le_mono; [done|]. unfold endDate. destruct (end_ <=? lastD) eqn:E; lia.
  - destruct (schedule_fuel endDate stepMs (t d0)) as [|fuel]; [by left|].
    simpl. destruct (t d0 <=? endDate) eqn:E; [|by left]. right.
    rewrite (scanFrom_stays data iStart d0 Hd0). unfold pushIfInRange. rewrite Hd0, E.
    destruct (scheduleLoop_prefix fuel data iStart endDate stepMs (t d0 + stepMs) ([] ++ [iStart]))
      as [rest ->].
    done.
Qed.

(** ** A threshold that no drawdown reaches *)

(** X14. With positive prices and a threshold above one (a fall of more
    than 100 percent from the peak, which no positive price reaches),
    [simulateDipBuy] never buys: the units stay 0 and in every row the pile
    holds all the cash paid in. *)
Theorem dip_threshold_above_one_never_buys (data : Series) (start end_ : Z) (amount : Q)
    (frequency : string) (dipPct : Q) :
  positivePrices data → (1 < dipPct)%Q →
  r_units (result (simulateDipBuy data start end_ amount frequency dipPct)) = Fin 0
  ∧ Forall nothingBought (timeline (simulateDipBuy data start end_ amount frequency dipPct)).
Proof.
  intros Hpos Hpct. unfold simulateDipBuy, dipLoop. cbn [result timeline r_units].
  pose (I := λ s : PileState,
          ps_units s = Fin 0 ∧ ps_cashPile s = ps_cashIn s ∧ peakSoFar (ps_peak s)
          ∧ Forall nothingBought (ps_timeline s)).
  assert (I (windowLoop start end_
               (dipDay amount dipPct (scheduleSetOf (buildScheduleIdx data start end_ frequency)))
               data 0 dipInit)) as (Hu & _ & _ & Hrows); [|done].
  apply (windowLoop_invariant I).
  - intros k d s Hd _ (Hu & Hpile & Hpeak & Hrows).
    pose proof (Hpos d Hd) as Hp.
    destruct (max_peak_Fin (ps_peak s) (p d) Hpeak) as (y & Hy & Hle).
    unfold I, dipDay. cbn [ps_units ps_cashPile ps_cashIn ps_peak ps_timeline].
    rewrite Hy. unfold drawdownOf. cbn [Num.sub Num.neg Num.add].
    rewrite div_Fin_pos by lra.
    assert ((Fin ((y + - p d) / y) >=? Fin dipPct)%num = false) as ->.
    { unfold Num.geb. destruct (Fin dipPct <=? Fin ((y + - p d) / y))%num eqn:E; [|done].
      apply leb_Fin in E.
      assert ((y + - p d) / y < 1)%Q; [|lra].
      apply Qlt_shift_div_r; lra. }
    cbn [isFinite andb]. rewrite Hpile.
    split; [done|]. split; [done|]. split; [right; by eexists|].
    apply Forall_app. split; [done|]. apply Forall_singleton. by split.
  - unfold I, dipInit. cbn. split; [done|]. split; [done|]. split; [by left|by constructor].
Qed.

Lemma dip_threshold_above_one_never_buys_witness :
  r_units (result (simulateDipBuy crashSeries (day 0) (day 1) 100 "daily" (3 # 2))) = Fin 0
  ∧ Forall nothingBought
      (timeline (simulateDipBuy crashSeries (day 0) (day 1) 100 "daily" (3 # 2))).
Proof.
  apply (dip_threshold_above_one_never_buys crashSeries (day 0) (day 1) 100 "daily" (3 # 2)).
  - apply positivePricesb_correct. reflexivity.
  - reflexivity.
Defined.

(** ** computeStageReturns *)

Lemma stageReturns_fold Math_pow Math_sqrt raw amount frequency dipPct maDays stages acc :
  let r := foldl (stageReturnsStep Math_pow Math_sqrt raw amount frequency dipPct maDays)
             acc stages in
  let rtnOf sim := rtnOrZero (metricsFromTimeline Math_pow Math_sqrt (timeline sim)) in
  sr_labels r = sr_labels acc ++ map s_label stages
  ∧ sr_dca r = sr_dca acc
               ++ map (λ s, rtnOf (simulateDCA raw (s_start s) (s_end s) amount frequency)) stages
  ∧ sr_ls r = sr_ls acc
              ++ map (λ s, rtnOf (simulateLumpSum raw (s_start s) (s_end s) amount frequency))
                   stages
  ∧ sr_dip r = sr_dip acc
               ++ map (λ s, rtnOf (simulateDipBuy raw (s_start s) (s_end s) amount frequency
                                     dipPct)) stages
  ∧ sr_trend r = sr_trend acc
                 ++ map (λ s, rtnOf (simulateTrendDCA raw (s_start s) (s_end s) amount frequency
                                       maDays)) stages.
Proof.
  revert acc. induction stages as [|s stages IH]; intros acc.
  - simpl. by rewrite !app_nil_r.
  - cbn [foldl map]. destruct (IH (stageReturnsStep Math_pow Math_sqrt raw amount frequency
                                     dipPct maDays acc s)) as (H1 & H2 & H3 & H4 & H5).
    cbv zeta. rewrite H1, H2, H3, H4, H5. unfold stageReturnsStep.
    cbn [sr_labels sr_dca sr_ls sr_dip sr_trend]. by rewrite <- !app_assoc.
Qed.

(** X15. [computeStageReturns] returns the labels of the stages of
    [buildStages], in order, and for each strategy one return per stage. *)
Theorem computeStageReturns_aligned (Math_pow : num → num → num) (Math_sqrt : num → num)
    (raw : Series) (tz start end_ : Z) (amount : Q) (frequency : string) (dipPct : Q)
    (maDays : Z) (granularity : string) :
  sr_labels (computeStageReturns Math_pow Math_sqrt raw tz start end_ amount frequency dipPct
               maDays granularity)
  = map s_label (buildStages tz start end_ granularity)
  ∧ Forall (λ column, length column = length (buildStages tz start end_ granularity))
      (stageColumns (computeStageReturns Math_pow Math_sqrt raw tz start end_ amount frequency
                       dipPct maDays granularity)).
Proof.
  unfold computeStageReturns, stageColumns.
  destruct (stageReturns_fold Math_pow Math_sqrt raw amount frequency dipPct maDays
              (buildStages tz start end_ granularity) (mkStageReturns [] [] [] [] []))
    as (H1 & H2 & H3 & H4 & H5).
  cbv zeta in *. rewrite H1, H2, H3, H4, H5. cbn [sr_labels sr_dca sr_ls sr_dip sr_trend app].
  split; [done|]. repeat constructor; apply length_map.
Qed.

Lemma lumpSum_outside_timeline data start end_ amount frequency :
  Forall (λ d, outOfWindow start end_ d = true) data →
  timeline (simulateLumpSum data start end_ amount frequency) = [].
Proof.
  intros Hout. unfold simulateLumpSum.
  destruct (findIndex _ data) as [iStart|] eqn:Hfi; [|done].
  destruct (findIndex_Some _ _ _ Hfi) as (d0 & Hd0 & Hstart). rewrite Hd0. cbn [timeline].
  destruct (drop iStart data) as [|d rest] eqn:Hdrop; [done|].
  apply drop_cons_inv in Hdrop as [Hd _]. rewrite Hd0 in Hd. injection Hd as <-.
  cbn [lumpLoop].
  assert (outOfWindow start end_ d0 = true) as Hd
    by (eapply Forall_lookup_1 in Hout; [exact Hout|exact Hd0]).
  unfold outOfWindow in Hd.
  assert ((t d0 <=? end_) = false) as -> by lia. done.
Qed.

(** X16. A stage in which the series has no day contributes the return 0
    to each of the four strategies. *)
Theorem stage_without_data_returns_zero (Math_pow : num → num → num)
    (Math_sqrt : num → num) (raw : Series) (tz start end_ : Z) (amount : Q)
    (frequency : string) (dipPct : Q) (maDays : Z) (granularity : string) (k : nat)
    (s : Stage) :
  buildStages tz start end_ granularity !! k = Some s →
  Forall (λ d, outOfWindow (s_start s) (s_end s) d = true) raw →
  Forall (λ column, column !! k = Some (Fin 0))
    (stageColumns (computeStageReturns Math_pow Math_sqrt raw tz start end_ amount frequency
                     dipPct maDays granularity)).
Proof.
  intros Hk Hout. unfold computeStageReturns, stageColumns.
  destruct (stageReturns_fold Math_pow Math_sqrt raw amount frequency dipPct maDays
              (buildStages tz start end_ granularity) (mkStageReturns [] [] [] [] []))
    as (_ & H2 & H3 & H4 & H5).
  cbv zeta in *. rewrite H2, H3, H4, H5. cbn [sr_dca sr_ls sr_dip sr_trend app].
  repeat constructor; rewrite list_lookup_fmap, Hk; cbn [fmap option_fmap option_map];
    do 2 f_equal.
  - unfold simulateDCA, dcaLoop. cbn [timeline]. by rewrite windowLoop_outside.
  - by rewrite lumpSum_outside_timeline.
  - unfold simulateDipBuy, dipLoop. cbn [timeline]. by rewrite windowLoop_outside.
  - unfold simulateTrendDCA, trendLoop. cbn [timeline]. by rewrite windowLoop_outside.
Qed.

Lemma stage_without_data_returns_zero_witness :
  Forall (λ column, column !! 0%nat = Some (Fin 0))
    (stageColumns (computeStageReturns (λ _ _, NaN) (λ _, NaN) crashSeries 0
                     (day 40) (day 45) 100 "daily" (1 # 5) 2 "month")).
Proof.
  apply (stage_without_data_returns_zero (λ _ _, NaN) (λ _, NaN) crashSeries 0
           (day 40) (day 45) 100 "daily" (1 # 5) 2 "month" 0
           (mkStage (day 40) (day 45) "1970-02")).
  - reflexivity.
  - repeat constructor.
Defined.

(** ** Quarters *)

Lemma twoDigitYear_same y : ¬ (0 ≤ y ≤ 99) → twoDigitYear y = y.
Proof. intros Hy. unfold twoDigitYear. destruct ((0 <=? y) && (y <=? 99)) eqn:E; lia. Qed.

Lemma startOfQuarter_monthStart tz date :
  ¬ (0 ≤ getFullYear tz date ≤ 99) →
  startOfQuarter tz date
  = monthStart tz (12 * getFullYear tz date + getMonth tz date / 3 * 3).
Proof.
  intros Hy. unfold startOfQuarter. rewrite newDate_monthStart.
  by rewrite (twoDigitYear_same _ Hy).
Qed.

(** X17. For a date whose year is not one of the years 0 to 99 (which the
    [Date] constructor reads as 1900 to 1999): [quarterOf] is a number
    from 1 to 4; [startOfQuarter] is not after the date, lies in the same
    year and in the first month of that quarter; and the start that
    [buildStages] computes for the next quarter is after the date: local
    midnight of the first day of the month three months after the start
    of the quarter. *)
Theorem quarter_of_a_date (tz date : Z) :
  ¬ (0 ≤ getFullYear tz date ≤ 99) →
  1 ≤ quarterOf tz date ≤ 4
  ∧ startOfQuarter tz date ≤ date < nextStart tz "quarter" date
  ∧ getFullYear tz (startOfQuarter tz date) = getFullYear tz date
  ∧ getMonth tz (startOfQuarter tz date) = 3 * (quarterOf tz date - 1)
  ∧ nextStart tz "quarter" date
    = monthStart tz (12 * getFullYear tz date + 3 * quarterOf tz date).
Proof.
  intros Hy.
  pose proof (startOfQuarter_monthStart tz date Hy) as Hsq.
  pose proof (getMonth_range tz date) as Hm.
  pose proof (monthStart_contains tz date) as [Hlo _].
  rewrite monthIndexOf_eq in Hlo.
  pose proof (nextStart_after tz "quarter" date) as Hnext.
  assert (nextStart tz "quarter" date
          = newDate tz (getFullYear tz (startOfQuarter tz date))
              (getMonth tz (startOfQuarter tz date) + 3) 1) as Hns by reflexivity.
  revert Hnext. unfold quarterOf. rewrite Hns, Hsq. clear Hns Hsq. revert Hy Hm Hlo.
  generalize (getMonth tz date). generalize (getFullYear tz date). intros y m Hy Hm Hlo.
  assert (0 ≤ m / 3 * 3 ≤ 11 ∧ m / 3 * 3 ≤ m ∧ 0 ≤ m / 3 ≤ 3) as (Hq & Hqm & Hq3) by div_lia.
  destruct (getFullYear_monthStart tz y (m / 3 * 3) Hq) as [-> ->].
  pose proof (monthStart_mono tz (12 * y + m / 3 * 3) (12 * y + m) ltac:(lia)) as Hmono.
  rewrite newDate_monthStart, (twoDigitYear_same _ Hy).
  revert Hmono Hlo.
  generalize (monthStart tz (12 * y + m / 3 * 3)). generalize (monthStart tz (12 * y + m)).
  replace (12 * y + (m / 3 * 3 + 3)) with (12 * y + 3 * (m / 3 + 1)) by lia.
  generalize (monthStart tz (12 * y + 3 * (m / 3 + 1))).
  generalize dependent (m / 3). intros q Hq Hqm Hq3 next a b Hmono Hlo Hnext.
  unfold msPerDay in *. repeat split; lia.
Qed.

Lemma quarter_of_a_date_witness :
  1 ≤ quarterOf 0 (utcMidnight 2020 4 15) ≤ 4
  ∧ startOfQuarter 0 (utcMidnight 2020 4 15) ≤ utcMidnight 2020 4 15
    < nextStart 0 "quarter" (utcMidnight 2020 4 15)
  ∧ getFullYear 0 (startOfQuarter 0 (utcMidnight 2020 4 15))
    = getFullYear 0 (utcMidnight 2020 4 15)
  ∧ getMonth 0 (startOfQuarter 0 (utcMidnight 2020 4 15))
    = 3 * (quarterOf 0 (utcMidnight 2020 4 15) - 1)
  ∧ nextStart 0 "quarter" (utcMidnight 2020 4 15)
    = monthStart 0 (12 * getFullYear 0 (utcMidnight 2020 4 15)
                    + 3 * quarterOf 0 (utcMidnight 2020 4 15)).
Proof.
  apply (quarter_of_a_date 0 (utcMidnight 2020 4 15)).
  vm_compute. intros [_ H]. by apply H.
Defined.

(** ** Ordering of the capital *)

Lemma size_list_to_set_le (l : list nat) : (size (list_to_set l : gset nat) ≤ length l)%nat.
Proof.
  induction l as [|x l IH]; [by rewrite list_to_set_nil, size_empty|].
  rewrite list_to_set_cons, size_union_alt, size_singleton. simpl.
  assert (size (list_to_set l ∖ {[x]} : gset nat) ≤ size (list_to_set l : gset nat))%nat
    by (apply subseteq_size; intros k Hk; apply elem_of_difference in Hk; tauto).
  lia.
Qed.

Lemma incPrefix_distinct (l : list nat) :
  (length (incPrefix l) ≤ size (list_to_set l : gset nat))%nat.
Proof.
  rewrite <- (size_list_to_set (C := gset nat) (incPrefix l)).
  - apply subseteq_size. intros k Hk. apply elem_of_list_to_set in Hk.
    apply elem_of_list_to_set.
    destruct (incPrefix_prefix l) as [rest Hrest]. rewrite Hrest.
    apply elem_of_app. by left.
  - apply strictlyIncreasing_NoDup, incPrefix_increasing.
Qed.

Lemma Qnat_le n m : (n ≤ m)%nat → (Qnat n <= Qnat m)%Q.
Proof. intros H. unfold Qnat. rewrite <- Zle_Qle. lia. Qed.

(** ** simulateTrendDCA buys above the moving average *)

Lemma smaLoop_length arr window rest i sum :
  length (smaLoop arr window rest i sum) = length rest.
Proof.
  revert i sum. induction rest as [|x rest IH]; intros i sum; [done|].
  simpl. by rewrite IH.
Qed.

Lemma sma_lookup (arr : list Q) window i x :
  arr !! i = Some x → ∃ m, sma arr window !! i = Some m.
Proof.
  intros Hx. apply lookup_lt_is_Some. unfold sma. rewrite smaLoop_length.
  by eapply lookup_lt_Some.
Qed.

Lemma trendDay_run data amount maN scheduleSet i d s :
  data !! i = Some d → trendRun data maN s →
  trendRun data maN (trendDay amount maN (sma (map p data) maN) scheduleSet i d s).
Proof.
  intros Hd (Hrows & Hhead & Hchain & Hlast & Hempty).
  destruct (sma_lookup (map p data) maN i (p d)) as [m Hm];
    [by rewrite list_lookup_fmap, Hd|].
  unfold trendDay, trendRun. rewrite Hm. cbn [default from_option id ts_timeline ts_units].
  match goal with |- context [if ?b then (ts_units s + _)%num else _] => set (buy := b) end.
  assert (buy = true → (Fin (p d) >? m)%num = true) as Hgt.
  { unfold buy. by intros [[_ ?]%andb_true_iff _]%andb_true_iff. }
  clearbody buy.
  match goal with |- context [ts_timeline s ++ [?x]] => set (e := x) end.
  assert (∀ u, ts_units s = u → u = e_units e ∨ aboveMA e) as Hstep.
  { intros u <-. unfold e at 1. cbn [e_units].
    destruct buy; [right|by left]. exists m. split; [done|]. by apply Hgt. }
  repeat split.
  - apply Forall_app. split; [done|]. apply Forall_singleton. by exists i, d.
  - intros e0 He0. destruct (ts_timeline s) as [|e1 tl] eqn:Htl.
    + simpl in He0. injection He0 as <-.
      destruct (Hstep (Fin 0) (Hempty eq_refl)) as [<-|?]; [by left|by right].
    + simpl in He0. injection He0 as <-. by apply Hhead.
  - apply chain_snoc; [done|]. intros a Ha. unfold buysAboveMA.
    rewrite (Hlast a Ha). by apply Hstep.
  - intros e0. rewrite last_snoc. by intros [= <-].
  - intros Hnil. by apply app_nil in Hnil as [_ ?].
Qed.

(** X20. Every row of the timeline of [simulateTrendDCA] is a day of the
    series and records the moving average of the prices at the position of
    that day; and the units change, from 0 before the first row and from
    each row to the next, only on a row whose price is above that moving
    average. *)
Theorem trend_buys_only_above_average (data : Series) (start end_ : Z) (amount : Q)
    (frequency : string) (maN : Z) :
  Forall (trendRowAt data maN) (timeline (simulateTrendDCA data start end_ amount frequency maN))
  ∧ (∀ e, head (timeline (simulateTrendDCA data start end_ amount frequency maN)) = Some e →
          e_units e = Fin 0 ∨ aboveMA e)
  ∧ chain buysAboveMA (timeline (simulateTrendDCA data start end_ amount frequency maN)).
Proof.
  unfold simulateTrendDCA, trendLoop. cbn [timeline].
  assert (trendRun data maN
            (windowLoop start end_
               (trendDay amount maN (sma (map p data) maN)
                  (scheduleSetOf (buildScheduleIdx data start end_ frequency)))
               data 0 (mkTrend 0 (Fin 0) 0 []))) as (H1 & H2 & H3 & _); [|done].
  apply (windowLoop_invariant_at (trendRun data maN) start end_ _ data); [done| |].
  - intros k d s Hd _ Hs. by apply trendDay_run.
  - unfold trendRun. cbn [ts_timeline ts_units]. repeat split; done.
Qed.

(** * Capital, schedule, peak, returns and stages *)

(** ** The pointer of simulateDCA, for any state that carries one *)

Section PointerLoop.

Context {St C : Type} (ptr : St → nat) (cash : St → C) (bump : C → C).
Variables (start end_ : Z) (schedule : list nat) (data : Series).
Variable body : nat → PricePoint → St → St.

Hypothesis scheduled_in_window :
  ∀ k, k ∈ schedule → ∃ d, data !! k = Some d ∧ outOfWindow start end_ d = false.
Hypothesis body_ptr :
  ∀ k d s, ptr (body k d s) = if hitAt schedule k (ptr s) then S (ptr s) else ptr s.
Hypothesis body_cash :
  ∀ k d s, cash (body k d s) = if hitAt schedule k (ptr s) then bump (cash s) else cash s.

Local Abbreviation n := (length (incPrefix schedule)).

Lemma ptrInv_hit_inside i sp a :
  ptrInv schedule i sp → schedule !! sp = Some a → a = i → (sp < n)%nat.
Proof.
  intros (Hle & Hpast & _) Ha ->.
  destruct (decide (sp < n)%nat) as [|Hge]; [done|exfalso].
  assert (sp = n) as Heq by lia. rewrite Heq in Ha.
  destruct (incPrefix_stop _ _ Ha) as (a' & Ha' & Hle' & Hpos).
  assert (a' < i)%nat; [|lia].
  apply (Hpast (pred n)); [lia|done].
Qed.

Lemma ptrInv_step i d s :
  data !! i = Some d → ptrInv schedule i (ptr s) →
  ptrInv schedule (S i) (ptr (if outOfWindow start end_ d then s else body i d s)).
Proof.
  intros Hd Hinv. destruct (hitAt schedule i (ptr s)) eqn:Hhit.
  - unfold hitAt in Hhit.
    destruct (schedule !! ptr s) as [a|] eqn:Ha; [|done].
    apply Nat.eqb_eq in Hhit. subst a.
    pose proof (ptrInv_hit_inside _ _ _ Hinv Ha eq_refl) as Hlt.
    destruct (scheduled_in_window i) as (d' & Hd' & Hwin).
    { apply list_elem_of_lookup. eauto. }
    rewrite Hd in Hd'. inversion Hd'; subst d'. rewrite Hwin.
    destruct Hinv as (Hle & Hpast & Hnext).
    rewrite body_ptr. unfold hitAt. rewrite Ha, Nat.eqb_refl.
    split; [lia|]. split.
    + intros m a Hm Hma. destruct (decide (m = ptr s)) as [->|Hne].
      * rewrite Ha in Hma. inversion Hma. lia.
      * assert (a < i)%nat; [|lia]. apply (Hpast m); [lia|done].
    + intros b Hb1 Hb2.
      assert (i < b)%nat; [|lia].
      apply (incPrefix_increasing schedule (ptr s));
        apply incPrefix_lookup; try done; lia.
  - assert (ptr (if outOfWindow start end_ d then s else body i d s) = ptr s) as ->.
    { destruct (outOfWindow start end_ d); [done|]. by rewrite body_ptr, Hhit. }
    destruct Hinv as (Hle & Hpast & Hnext).
    split; [done|]. split.
    + intros m a Hm Hma. specialize (Hpast m a Hm Hma). lia.
    + intros a Hlt Ha. specialize (Hnext a Hlt Ha).
      unfold hitAt in Hhit. rewrite Ha in Hhit. apply Nat.eqb_neq in Hhit. lia.
Qed.

Lemma ptrInv_loop rest i s :
  drop i data = rest → ptrInv schedule i (ptr s) →
  ptrInv schedule (length data) (ptr (windowLoop start end_ body rest i s)).
Proof.
  revert i s. induction rest as [|d rest IH]; intros i s Hdrop Hinv.
  - simpl. apply drop_nil_length in Hdrop.
    destruct Hinv as (Hle & Hpast & Hnext).
    split; [done|]. split.
    + intros m a Hm Hma.
      destruct (scheduled_in_window a) as (d & Hd & _).
      { apply list_elem_of_lookup. eauto. }
      by apply lookup_lt_Some in Hd.
    + intros a Hlt Ha. specialize (Hnext a Hlt Ha).
      destruct (scheduled_in_window a) as (d & Hd & _).
      { apply list_elem_of_lookup. eauto. }
      apply lookup_lt_Some in Hd. lia.
  - apply drop_cons_inv in Hdrop as [Hd Hdrop]. simpl.
    apply (IH (S i)); [done|]. by apply ptrInv_step.
Qed.

(** At the end of the series the pointer stands at the end of the
    increasing prefix. *)
Lemma pointer_final s0 :
  ptr s0 = O → ptr (windowLoop start end_ body data 0 s0) = n.
Proof.
  intros H0.
  assert (ptrInv schedule 0 (ptr s0)) as Hinv0.
  { rewrite H0. split; [lia|]. split; [intros m a Hm; lia|intros; lia]. }
  pose proof (ptrInv_loop data 0 _ eq_refl Hinv0) as (Hle & Hpast & Hnext).
  set (s := windowLoop _ _ _ _ _ _) in *.
  destruct (decide (ptr s < n)%nat) as [Hlt|Hge]; [|lia].
  destruct (lookup_lt_is_Some_2 schedule (ptr s)) as [a Ha].
  { pose proof (incPrefix_length schedule). lia. }
  specialize (Hnext a Hlt Ha).
  destruct (scheduled_in_window a) as (d & Hd & _).
  { apply list_elem_of_lookup. eauto. }
  apply lookup_lt_Some in Hd. lia.
Qed.

(** The cash has been bumped once for each entry the pointer consumed. *)
Lemma pointer_cash rest i s0 s :
  ptr s0 = O → cash s = Nat.iter (ptr s) bump (cash s0) →
  cash (windowLoop start end_ body rest i s)
  = Nat.iter (ptr (windowLoop start end_ body rest i s)) bump (cash s0).
Proof.
  intros H0. revert i s. induction rest as [|d rest IH]; intros i s Hs; [done|].
  simpl. apply IH. destruct (outOfWindow start end_ d); [done|].
  rewrite body_ptr, body_cash. destruct (hitAt schedule i (ptr s)); [|done].
  simpl. by rewrite Hs.
Qed.

Lemma pointer_cash_final s0 :
  ptr s0 = O →
  cash (windowLoop start end_ body data 0 s0) = Nat.iter n bump (cash s0).
Proof.
  intros H0. rewrite (pointer_cash data 0 s0 s0 H0); [|by rewrite H0].
  by rewrite pointer_final.
Qed.

End PointerLoop.

(** ** Contributions by membership in the schedule set *)

Lemma iter_bump_comm {C : Type} (bump : C → C) (k : nat) (x : C) :
  Nat.iter k bump (bump x) = bump (Nat.iter k bump x).
Proof. induction k as [|k IH]; [done|]. simpl. by rewrite IH. Qed.

Lemma windowLoop_bumps {St C : Type} (cash : St → C) (bump : C → C) start end_
    (scheduleSet : gset nat) (body : nat → PricePoint → St → St) rest i st :
  (∀ k d s, cash (body k d s) = if has scheduleSet k then bump (cash s) else cash s) →
  cash (windowLoop start end_ body rest i st)
  = Nat.iter (countHits start end_ scheduleSet rest i) bump (cash st).
Proof.
  intros Hbody. revert i st. induction rest as [|d rest IH]; intros i st; [done|].
  cbn [windowLoop countHits]. rewrite IH.
  destruct (outOfWindow start end_ d); [done|]. cbn [negb andb].
  rewrite Hbody. destruct (has scheduleSet i); [|done].
  cbn [Nat.add]. simpl. by rewrite iter_bump_comm.
Qed.

(** The set built from the schedule has one element for each distinct
    entry. *)
Lemma scheduleSet_size schedule :
  size (scheduleSetOf schedule) = length (remove_dups schedule).
Proof.
  unfold scheduleSetOf.
  rewrite <- (size_list_to_set (C := gset nat) (remove_dups schedule))
    by apply NoDup_remove_dups.
  f_equal. apply set_eq. intros k.
  by rewrite !elem_of_list_to_set, elem_of_remove_dups.
Qed.

(** The pile strategies contribute once for each distinct entry of the
    schedule. *)
Lemma countHits_schedule data start end_ frequency :
  countHits start end_ (scheduleSetOf (buildScheduleIdx data start end_ frequency)) data 0
  = length (remove_dups (buildScheduleIdx data start end_ frequency)).
Proof. by rewrite countHits_distinct, distinctInWindow_all, scheduleSet_size. Qed.

(** ** Invested capital, contribution by contribution *)

Lemma simulateDCA_addedTimes data start end_ amount frequency :
  r_cashIn (result (simulateDCA data start end_ amount frequency))
  = addedTimes Qplus 0%Q (length (incPrefix (buildScheduleIdx data start end_ frequency))) amount.
Proof.
  unfold simulateDCA, dcaLoop, addedTimes. cbn [result r_cashIn].
  apply (pointer_cash_final dca_sPtr dca_cashIn (λ c, (c + amount)%Q) start end_
           (buildScheduleIdx data start end_ frequency) data); try done.
  apply schedule_in_window.
Qed.

Lemma b64_simulateDCA_addedTimes data start end_ amount frequency :
  B64.r_cashIn (B64.result (B64.simulateDCA data start end_ amount frequency))
  = addedTimes PrimFloat.add PrimFloat.zero
      (length (incPrefix (buildScheduleIdx data start end_ frequency))) amount.
Proof.
  unfold B64.simulateDCA, addedTimes. cbn [B64.result B64.r_cashIn].
  apply (pointer_cash_final B64.dca_sPtr B64.dca_cashIn (λ c, PrimFloat.add c amount)
           start end_ (buildScheduleIdx data start end_ frequency) data); try done.
  apply schedule_in_window.
Qed.

Lemma pile_addedTimes data start end_ amount frequency dipPct maN :
  r_cashIn (result (simulateDipBuy data start end_ amount frequency dipPct))
  = addedTimes Qplus 0%Q (length (remove_dups (buildScheduleIdx data start end_ frequency)))
      amount
  ∧ r_cashIn (result (simulateTrendDCA data start end_ amount frequency maN))
    = addedTimes Qplus 0%Q (length (remove_dups (buildScheduleIdx data start end_ frequency)))
        amount.
Proof.
  unfold simulateDipBuy, simulateTrendDCA, dipLoop, trendLoop, addedTimes.
  cbn [result r_cashIn]. rewrite <- countHits_schedule. split.
  - by rewrite (windowLoop_bumps ps_cashIn (λ c, (c + amount)%Q) _ _
                  (scheduleSetOf (buildScheduleIdx data start end_ frequency))).
  - by rewrite (windowLoop_bumps ts_cashIn (λ c, (c + amount)%Q) _ _
                  (scheduleSetOf (buildScheduleIdx data start end_ frequency))).
Qed.

Lemma b64_pile_addedTimes data start end_ amount frequency dipPct maN :
  B64.r_cashIn (B64.result (B64.simulateDipBuy data start end_ amount frequency dipPct))
  = addedTimes PrimFloat.add PrimFloat.zero
      (length (remove_dups (buildScheduleIdx data start end_ frequency))) amount
  ∧ B64.r_cashIn (B64.result (B64.simulateTrendDCA data start end_ amount frequency maN))
    = addedTimes PrimFloat.add PrimFloat.zero
        (length (remove_dups (buildScheduleIdx data start end_ frequency))) amount.
Proof.
  unfold B64.simulateDipBuy, B64.simulateTrendDCA, addedTimes.
  cbn [B64.result B64.r_cashIn]. rewrite <- countHits_schedule. split.
  - by rewrite (windowLoop_bumps B64.ps_cashIn (λ c, PrimFloat.add c amount) _ _
                  (scheduleSetOf (buildScheduleIdx data start end_ frequency))).
  - by rewrite (windowLoop_bumps B64.ts_cashIn (λ c, PrimFloat.add c amount) _ _
                  (scheduleSetOf (buildScheduleIdx data start end_ frequency))).
Qed.

Lemma addedTimes_exact n amount : (addedTimes Qplus 0%Q n amount == amount * Qnat n)%Q.
Proof.
  induction n as [|n IH]; [rewrite Qnat_0; unfold addedTimes; simpl; ring|].
  change (addedTimes Qplus 0%Q (S n) amount) with (addedTimes Qplus 0%Q n amount + amount)%Q.
  rewrite IH, Qnat_S. ring.
Qed.

(** C8. The cash that [simulateDCA] has paid in at the end is the amount
    added to 0 once for each entry of the longest strictly increasing
    prefix of the schedule, in the exact embedding and in the binary64 one;
    over the gap of [gapSeries] that prefix has 2 of the 11 entries. *)
Theorem dca_cashIn_increasing_prefix :
  (∀ (data : Series) (start end_ : Z) (amount : Q) (frequency : string),
     r_cashIn (result (simulateDCA data start end_ amount frequency))
     = addedTimes Qplus 0%Q
         (length (incPrefix (buildScheduleIdx data start end_ frequency))) amount)
  ∧ (∀ (data : Series) (start end_ : Z) (amount : B64.float) (frequency : string),
       B64.r_cashIn (B64.result (B64.simulateDCA data start end_ amount frequency))
       = addedTimes PrimFloat.add PrimFloat.zero
           (length (incPrefix (buildScheduleIdx data start end_ frequency))) amount)
  ∧ length (incPrefix (buildScheduleIdx gapSeries (day 0) (day 10) "daily")) = 2%nat
  ∧ length (buildScheduleIdx gapSeries (day 0) (day 10) "daily") = 11%nat.
Proof.
  split; [apply simulateDCA_addedTimes|]. split; [apply b64_simulateDCA_addedTimes|].
  split; by vm_compute.
Qed.

(** On eight consecutive days with the amount 0.1 the eight additions of
    [simulateDCA] leave 0.7999999999999999, which is less than the product
    8 * 0.1 = 0.8 that [simulateLumpSum] invests. *)
Lemma dca_cashIn_is_not_the_product :
  length (incPrefix (buildScheduleIdx (dailySeries 8 100) (day 0) (day 7) "daily")) = 8%nat
  ∧ PrimFloat.ltb
      (B64.r_cashIn (B64.result (B64.simulateDCA (dailySeries 8 100) (day 0) (day 7)
                                   (B64.ofQ (1 # 10)) "daily")))
      (PrimFloat.mul (B64.ofQ (1 # 10)) (B64.ofNat 8)) = true
  ∧ B64.r_cashIn (B64.result (B64.simulateLumpSum (dailySeries 8 100) (day 0) (day 7)
                                (B64.ofQ (1 # 10)) "daily"))
    = PrimFloat.mul (B64.ofNat 8) (B64.ofQ (1 # 10)).
Proof. split; [by vm_compute|]. split; by vm_compute. Qed.

(** C9. [simulateDipBuy] and [simulateTrendDCA] contribute once for each
    distinct entry of the schedule, every entry being a day inside the
    window: their cash paid in is the amount added to 0 that many times,
    in the exact embedding and in the binary64 one.  Over the gap of
    [gapSeries] these are 2 contributions, against the 11 that
    [simulateLumpSum] invests. *)
Theorem pile_cashIn_distinct_positions :
  (∀ (data : Series) (start end_ : Z) (amount : Q) (frequency : string) (dipPct : Q) (maN : Z),
     Forall (λ i, inWindowAt data start end_ i = true)
       (buildScheduleIdx data start end_ frequency)
     ∧ r_cashIn (result (simulateDipBuy data start end_ amount frequency dipPct))
       = addedTimes Qplus 0%Q
           (length (remove_dups (buildScheduleIdx data start end_ frequency))) amount
     ∧ r_cashIn (result (simulateTrendDCA data start end_ amount frequency maN))
       = addedTimes Qplus 0%Q
           (length (remove_dups (buildScheduleIdx data start end_ frequency))) amount)
  ∧ (∀ (data : Series) (start end_ : Z) (amount : B64.float) (frequency : string)
       (dipPct : B64.float) (maN : Z),
       B64.r_cashIn (B64.result (B64.simulateDipBuy data start end_ amount frequency dipPct))
       = addedTimes PrimFloat.add PrimFloat.zero
           (length (remove_dups (buildScheduleIdx data start end_ frequency))) amount
       ∧ B64.r_cashIn (B64.result (B64.simulateTrendDCA data start end_ amount frequency maN))
         = addedTimes PrimFloat.add PrimFloat.zero
             (length (remove_dups (buildScheduleIdx data start end_ frequency))) amount)
  ∧ length (remove_dups (buildScheduleIdx gapSeries (day 0) (day 10) "daily")) = 2%nat
  ∧ length (buildScheduleIdx gapSeries (day 0) (day 10) "daily") = 11%nat
  ∧ (r_cashIn (result (simulateDipBuy gapSeries (day 0) (day 10) 100 "daily" (1 # 5)))
     < r_cashIn (result (simulateLumpSum gapSeries (day 0) (day 10) 100 "daily")))%Q
  ∧ (r_cashIn (result (simulateTrendDCA gapSeries (day 0) (day 10) 100 "daily" 200))
     < r_cashIn (result (simulateLumpSum gapSeries (day 0) (day 10) 100 "daily")))%Q.
Proof.
  split.
  { intros data start end_ amount frequency dipPct maN. split; [|apply pile_addedTimes].
    apply Forall_forall. intros k Hk.
    destruct (schedule_in_window _ _ _ _ _ Hk) as (d & Hd & Hin).
    unfold inWindowAt. by rewrite Hd, Hin. }
  split; [intros; apply b64_pile_addedTimes|].
  repeat split; by vm_compute.
Qed.

(** On eight consecutive days with the amount 0.1 the eight additions of
    [simulateDipBuy] and [simulateTrendDCA] leave 0.7999999999999999, less
    than the product 0.1 * 8 = 0.8. *)
Lemma pile_cashIn_is_not_the_product :
  length (remove_dups (buildScheduleIdx (dailySeries 8 100) (day 0) (day 7) "daily")) = 8%nat
  ∧ PrimFloat.ltb
      (B64.r_cashIn (B64.result (B64.simulateDipBuy (dailySeries 8 100) (day 0) (day 7)
                                   (B64.ofQ (1 # 10)) "daily" (B64.ofQ (1 # 5)))))
      (PrimFloat.mul (B64.ofQ (1 # 10)) (B64.ofNat 8)) = true
  ∧ PrimFloat.ltb
      (B64.r_cashIn (B64.result (B64.simulateTrendDCA (dailySeries 8 100) (day 0) (day 7)
                                   (B64.ofQ (1 # 10)) "daily" 3)))
      (PrimFloat.mul (B64.ofQ (1 # 10)) (B64.ofNat 8)) = true.
Proof. split; [by vm_compute|]. split; by vm_compute. Qed.

(** ** Series without gaps: the same number of contributions *)

Lemma remove_dups_NoDup_length (l : list nat) : NoDup l → length (remove_dups l) = length l.
Proof.
  intros Hl. rewrite <- (size_list_to_set (C := gset nat) l Hl).
  fold (scheduleSetOf l). by rewrite scheduleSet_size.
Qed.

(** X10. On a series in which no two neighbouring days are further apart
    than the investment step, the schedule never repeats a position, and
    [simulateDCA], [simulateDipBuy] and [simulateTrendDCA] end with the
    same cash paid in: the amount added to 0 once for each entry of the
    schedule; [simulateLumpSum] invests the product of the number of
    entries and the amount.  This holds in the exact embedding and in the
    binary64 one. *)
Theorem no_gaps_equal_capital (data : Series) (start end_ : Z) (frequency : string) :
  gapsAtMost (stepDays frequency * msPerDay) data →
  let n := length (buildScheduleIdx data start end_ frequency) in
  strictlyIncreasing (buildScheduleIdx data start end_ frequency)
  ∧ (∀ (amount dipPct : Q) (maN : Z),
       r_cashIn (result (simulateDCA data start end_ amount frequency))
       = addedTimes Qplus 0%Q n amount
       ∧ r_cashIn (result (simulateDipBuy data start end_ amount frequency dipPct))
         = addedTimes Qplus 0%Q n amount
       ∧ r_cashIn (result (simulateTrendDCA data start end_ amount frequency maN))
         = addedTimes Qplus 0%Q n amount
       ∧ (r_cashIn (result (simulateLumpSum data start end_ amount frequency))
          == Qnat n * amount)%Q)
  ∧ (∀ (amount dipPct : B64.float) (maN : Z),
       B64.r_cashIn (B64.result (B64.simulateDCA data start end_ amount frequency))
       = addedTimes PrimFloat.add PrimFloat.zero n amount
       ∧ B64.r_cashIn (B64.result (B64.simulateDipBuy data start end_ amount frequency dipPct))
         = addedTimes PrimFloat.add PrimFloat.zero n amount
       ∧ B64.r_cashIn (B64.result (B64.simulateTrendDCA data start end_ amount frequency maN))
         = addedTimes PrimFloat.add PrimFloat.zero n amount
       ∧ ((0 < n)%nat →
          B64.r_cashIn (B64.result (B64.simulateLumpSum data start end_ amount frequency))
          = PrimFloat.mul (B64.ofNat n) amount)).
Proof.
  intros Hgap n.
  pose proof (schedule_strict_without_gaps data start end_ frequency Hgap) as Hstrict.
  pose proof (incPrefix_strict _ Hstrict) as Hprefix.
  pose proof (remove_dups_NoDup_length _ (strictlyIncreasing_NoDup _ Hstrict)) as Hdups.
  split; [done|]. split.
  - intros amount dipPct maN.
    rewrite simulateDCA_addedTimes, Hprefix.
    destruct (pile_addedTimes data start end_ amount frequency dipPct maN) as [-> ->].
    rewrite Hdups. repeat split.
    unfold simulateLumpSum. fold n.
    destruct (findIndex _ data) as [iStart|] eqn:Hfi.
    + destruct (findIndex_Some _ _ _ Hfi) as (d0 & Hd0 & _). by rewrite Hd0.
    + unfold n, buildScheduleIdx. rewrite Hfi. cbn [result r_cashIn length].
      rewrite Qnat_0. ring.
  - intros amount dipPct maN.
    rewrite b64_simulateDCA_addedTimes, Hprefix.
    destruct (b64_pile_addedTimes data start end_ amount frequency dipPct maN) as [-> ->].
    rewrite Hdups. repeat split.
    intros Hn. unfold B64.simulateLumpSum. fold n.
    destruct (findIndex _ data) as [iStart|] eqn:Hfi.
    + destruct (findIndex_Some _ _ _ Hfi) as (d0 & Hd0 & _). by rewrite Hd0.
    + exfalso. unfold n, buildScheduleIdx in Hn. rewrite Hfi in Hn. simpl in Hn. lia.
Qed.

Lemma no_gaps_equal_capital_witness :
  strictlyIncreasing (buildScheduleIdx crashSeries (day 0) (day 1) "daily")
  ∧ B64.r_cashIn (B64.result (B64.simulateDCA crashSeries (day 0) (day 1)
                                (B64.ofQ (1 # 10)) "daily"))
    = addedTimes PrimFloat.add PrimFloat.zero
        (length (buildScheduleIdx crashSeries (day 0) (day 1) "daily")) (B64.ofQ (1 # 10)).
Proof.
  destruct (no_gaps_equal_capital crashSeries (day 0) (day 1) "daily") as (Hs & _ & Hb).
  - intros [|[|i]] a b Ha Hb; simplify_eq/=. vm_compute. discriminate.
  - split; [exact Hs|].
    by destruct (Hb (B64.ofQ (1 # 10)) (B64.ofQ (1 # 5)) 2) as (-> & _).
Defined.

(** ** Ordering of the capital *)

(** X18. [simulateDCA] never makes more contributions than
    [simulateDipBuy] and [simulateTrendDCA], which make the same number,
    and these never more than the schedule has entries; with an amount
    that is not negative the cash paid in by [simulateDCA] is at most that
    of [simulateDipBuy], and the cash paid in by [simulateDipBuy] and by
    [simulateTrendDCA] is the same, in the binary64 embedding too. *)
Theorem capital_ordering (data : Series) (start end_ : Z) (amount : Q)
    (frequency : string) (dipPct : Q) (maN : Z) :
  (0 <= amount)%Q →
  (length (incPrefix (buildScheduleIdx data start end_ frequency))
   ≤ length (remove_dups (buildScheduleIdx data start end_ frequency))
   ≤ length (buildScheduleIdx data start end_ frequency))%nat
  ∧ (r_cashIn (result (simulateDCA data start end_ amount frequency))
     <= r_cashIn (result (simulateDipBuy data start end_ amount frequency dipPct)))%Q
  ∧ r_cashIn (result (simulateDipBuy data start end_ amount frequency dipPct))
    = r_cashIn (result (simulateTrendDCA data start end_ amount frequency maN))
  ∧ ∀ (famount fdipPct : B64.float),
      B64.r_cashIn (B64.result (B64.simulateDipBuy data start end_ famount frequency fdipPct))
      = B64.r_cashIn (B64.result (B64.simulateTrendDCA data start end_ famount frequency maN)).
Proof.
  intros Hamount.
  set (schedule := buildScheduleIdx data start end_ frequency).
  assert (length (incPrefix schedule) ≤ length (remove_dups schedule)
          ≤ length schedule)%nat as Hcount.
  { rewrite <- scheduleSet_size. split; [apply incPrefix_distinct|apply size_list_to_set_le]. }
  split; [done|]. split; [|split].
  - rewrite simulateDCA_addedTimes.
    destruct (pile_addedTimes data start end_ amount frequency dipPct maN) as [-> _].
    fold schedule. rewrite !addedTimes_exact, !(Qmult_comm amount).
    apply Qmult_le_compat_r; [|done]. apply Qnat_le. lia.
  - by destruct (pile_addedTimes data start end_ amount frequency dipPct maN) as [-> ->].
  - intros famount fdipPct.
    by destruct (b64_pile_addedTimes data start end_ famount frequency fdipPct maN) as [-> ->].
Qed.

Lemma capital_ordering_witness :
  (r_cashIn (result (simulateDCA gapSeries (day 0) (day 10) 100 "daily"))
   <= r_cashIn (result (simulateDipBuy gapSeries (day 0) (day 10) 100 "daily" (1 # 5))))%Q
  ∧ r_cashIn (result (simulateDipBuy gapSeries (day 0) (day 10) 100 "daily" (1 # 5)))
    = r_cashIn (result (simulateTrendDCA gapSeries (day 0) (day 10) 100 "daily" 2)).
Proof.
  destruct (capital_ordering gapSeries (day 0) (day 10) 100 "daily" (1 # 5) 2)
    as (_ & Hle & Heq & _); [done|].
  by split.
Defined.

(** ** sma: where the average is defined *)

Lemma b64_smaLoop_prefix arr window rest i sum :
  length (B64.smaLoop arr window rest i sum) = length rest
  ∧ ∀ k, (k < length rest)%nat → Z.of_nat (i + k) < window - 1 →
         B64.smaLoop arr window rest i sum !! k = Some PrimFloat.nan.
Proof.
  revert i sum. induction rest as [|x rest IH]; intros i sum; [split; [done|simpl; lia]|].
  cbn [B64.smaLoop length].
  destruct (IH (S i) (if window <=? Z.of_nat i
                      then PrimFloat.sub (PrimFloat.add sum x)
                             (B64.readNum arr (Z.of_nat i - window))
                      else PrimFloat.add sum x)) as [Hlen Hnan].
  split; [by rewrite Hlen|].
  intros [|k] Hk Hlt.
  - simpl. assert ((window - 1 <=? Z.of_nat i) = false) as -> by lia. done.
  - simpl. apply Hnan; [simpl in Hk; lia|]. lia.
Qed.

(** X1. [sma] returns one value for each element, and for a window of at
    least 1 the value at a position is NaN exactly when fewer than
    [window] elements end at that position.  On binary64 numbers, too, the
    result has the length of the input and starts with [window - 1] times
    NaN. *)
Theorem sma_defined_from_window (window : Z) :
  1 ≤ window →
  (∀ arr : list Q,
     length (sma arr window) = length arr
     ∧ ∀ i, (i < length arr)%nat →
            (sma arr window !! i = Some NaN ↔ Z.of_nat i < window - 1))
  ∧ (∀ arr : list B64.float,
       length (B64.sma arr window) = length arr
       ∧ ∀ i, (i < length arr)%nat → Z.of_nat i < window - 1 →
              B64.sma arr window !! i = Some PrimFloat.nan).
Proof.
  intros Hw. split.
  - intros arr.
    destruct (smaLoop_spec arr window arr 0 0 Hw eq_refl) as [Hlen Hout].
    { unfold smaSumInv. simpl. change (Qsum []) with 0%Q. ring. }
    split; [exact Hlen|]. intros i Hi. specialize (Hout i Hi). simpl in Hout.
    unfold smaOut in Hout. fold (sma arr window) in Hout.
    destruct (Z.of_nat i <? window - 1) eqn:E.
    + split; [lia|done].
    + destruct Hout as (q & -> & _). split; [done|lia].
  - intros arr. destruct (b64_smaLoop_prefix arr window arr 0 PrimFloat.zero) as [Hlen Hnan].
    split; [exact Hlen|]. intros i Hi Hlt. by apply Hnan.
Qed.

Lemma sma_defined_from_window_witness :
  sma [1; 2; 6]%Q 2 !! 0%nat = Some NaN
  ∧ sma [1; 2; 6]%Q 2 !! 1%nat ≠ Some NaN
  ∧ B64.sma [B64.ofQ 1; B64.ofQ 2; B64.ofQ 6] 2 !! 0%nat = Some PrimFloat.nan.
Proof.
  destruct (sma_defined_from_window 2) as [Hq Hf]; [lia|].
  destruct (Hq [1; 2; 6]%Q) as [_ Hiff]. destruct (Hf [B64.ofQ 1; B64.ofQ 2; B64.ofQ 6]) as [_ Hnan].
  split; [apply Hiff; simpl; lia|]. split.
  - intros H. apply Hiff in H; simpl; lia.
  - apply Hnan; simpl; lia.
Defined.

(** ** The schedule, tick by tick *)

Lemma pushIfInRange_app data endDate j idx :
  pushIfInRange data endDate j idx = idx ++ pushIfInRange data endDate j [].
Proof.
  unfold pushIfInRange. destruct (data !! j) as [d|]; [|by rewrite app_nil_r].
  destruct (t d <=? endDate); [done|by rewrite app_nil_r].
Qed.

Lemma scheduleLoop_ticksFrom fuel data iStart endDate stepMs cursor idx :
  scheduleLoop fuel data iStart endDate stepMs cursor idx
  = idx ++ ticksFrom fuel data iStart endDate stepMs cursor.
Proof.
  revert cursor idx. induction fuel as [|fuel IH]; intros cursor idx; simpl;
    [by rewrite app_nil_r|].
  destruct (cursor <=? endDate); [|by rewrite app_nil_r].
  rewrite IH, pushIfInRange_app. by rewrite <- app_assoc.
Qed.

(** The scan passes only days before the cursor. *)
Lemma scanFrom_passed (data rest : Series) j0 cursor i d :
  drop j0 data = rest → (j0 ≤ i < scanFrom rest j0 cursor)%nat →
  data !! i = Some d → t d < cursor.
Proof.
  revert j0. induction rest as [|d0 rest IH]; intros j0 Hdrop Hi Hd; simpl in Hi; [lia|].
  apply drop_cons_inv in Hdrop as [Hd0 Hdrop].
  destruct (t d0 <? cursor) eqn:E; [|lia].
  destruct (decide (i = j0)) as [->|Hne].
  - rewrite Hd0 in Hd. injection Hd as <-. lia.
  - apply (IH (S j0)); [done|lia|done].
Qed.

Lemma scanFrom_first (data : Series) iStart cursor d :
  data !! scanFrom (drop iStart data) iStart cursor = Some d →
  firstDayAtOrAfter data iStart cursor (scanFrom (drop iStart data) iStart cursor).
Proof.
  intros Hd. split; [apply scanFrom_ge|]. split.
  - exists d. split; [done|]. by eapply scanFrom_reaches.
  - intros i d' Hi Hd'. by eapply scanFrom_passed.
Qed.

Lemma firstDayAtOrAfter_scan (data : Series) iStart cursor j :
  firstDayAtOrAfter data iStart cursor j →
  j = scanFrom (drop iStart data) iStart cursor.
Proof.
  intros (Hfrom & (d & Hd & Hdate) & Hbefore).
  pose proof (scanFrom_ge (drop iStart data) iStart cursor) as Hge.
  destruct (Nat.lt_trichotomy j (scanFrom (drop iStart data) iStart cursor))
    as [Hlt|[Heq|Hgt]]; [|done|].
  - pose proof (scanFrom_passed data (drop iStart data) iStart cursor j d eq_refl
                  ltac:(lia) Hd). lia.
  - destruct (lookup_lt_is_Some_2 data (scanFrom (drop iStart data) iStart cursor))
      as [d' Hd']; [apply lookup_lt_Some in Hd; lia|].
    pose proof (scanFrom_reaches data (drop iStart data) iStart cursor d' eq_refl Hd').
    pose proof (Hbefore (scanFrom (drop iStart data) iStart cursor) d' ltac:(lia) Hd'). lia.
Qed.

(** Once the scan stands on a day after [endDate] of an ascending series,
    nothing more is pushed. *)
Lemma ticksFrom_dead fuel data iStart endDate stepMs c0 cursor :
  0 ≤ stepMs → c0 ≤ cursor →
  (∀ j d, (scanFrom (drop iStart data) iStart c0 ≤ j)%nat → data !! j = Some d →
          endDate < t d) →
  ticksFrom fuel data iStart endDate stepMs cursor = [].
Proof.
  intros Hs. revert cursor. induction fuel as [|fuel IH]; intros cursor Hc Hdead; [done|].
  simpl. destruct (cursor <=? endDate); [|done].
  rewrite (IH (cursor + stepMs)); [|lia|exact Hdead]. rewrite app_nil_r.
  unfold pushIfInRange.
  destruct (data !! scanFrom (drop iStart data) iStart cursor) as [d|] eqn:Hd; [|done].
  pose proof (scanFrom_mono (drop iStart data) iStart c0 cursor Hc).
  pose proof (Hdead (scanFrom (drop iStart data) iStart cursor) d ltac:(lia) Hd).
  assert ((t d <=? endDate) = false) as -> by lia. done.
Qed.

Lemma ticksFrom_spec fuel data iStart endDate stepMs cursor k j :
  ascending data → 0 < stepMs →
  (schedule_fuel endDate stepMs cursor ≤ fuel)%nat →
  ticksFrom fuel data iStart endDate stepMs cursor !! k = Some j ↔
  firstDayAtOrAfter data iStart (cursor + Z.of_nat k * stepMs) j
  ∧ ∃ d, data !! j = Some d ∧ t d ≤ endDate.
Proof.
  intros Hasc Hs. revert cursor k.
  assert (∀ cursor k j, endDate < cursor →
            ¬ (firstDayAtOrAfter data iStart (cursor + Z.of_nat k * stepMs) j
               ∧ ∃ d, data !! j = Some d ∧ t d ≤ endDate)) as Hpast.
  { intros cursor k j' Hc [(_ & (d & Hd & Hdate) & _) (d' & Hd' & Hle)].
    rewrite Hd in Hd'. injection Hd' as <-. nia. }
  induction fuel as [|fuel IH]; intros cursor k Hfuel.
  - simpl. split; [done|]. intros H. exfalso. apply (Hpast cursor k j); [|done].
    destruct (Z_le_gt_dec cursor endDate) as [Hc|Hc]; [|lia].
    rewrite schedule_fuel_step in Hfuel by done. lia.
  - simpl. destruct (cursor <=? endDate) eqn:Hc.
    2:{ split; [done|]. intros H. exfalso. apply (Hpast cursor k j); [lia|done]. }
    apply Z.leb_le in Hc. rewrite schedule_fuel_step in Hfuel by done.
    set (j0 := scanFrom (drop iStart data) iStart cursor).
    unfold pushIfInRange.
    destruct (data !! j0) as [d0|] eqn:Hd0.
    + destruct (t d0 <=? endDate) eqn:Hle.
      * cbn [app]. destruct k as [|k].
        -- cbn [lookup list_lookup]. replace (cursor + Z.of_nat 0 * stepMs) with cursor by lia.
           split.
           ++ intros [= <-]. split; [by eapply scanFrom_first|].
              exists d0. split; [done|lia].
           ++ intros [Hfirst _]. f_equal. symmetry. by apply firstDayAtOrAfter_scan.
        -- cbn [lookup list_lookup]. rewrite IH by lia.
           by replace (cursor + stepMs + Z.of_nat k * stepMs)
             with (cursor + Z.of_nat (S k) * stepMs) by lia.
      * assert (∀ j' d, (j0 ≤ j')%nat → data !! j' = Some d → endDate < t d) as Hdead.
        { intros j' d Hj' Hd. pose proof (Hasc j0 j' d0 d Hj' Hd0 Hd). lia. }
        rewrite (ticksFrom_dead fuel data iStart endDate stepMs cursor); [|lia|lia|exact Hdead].
        split; [done|]. intros [Hfirst (d & Hd & Hdle)]. exfalso.
        assert (j0 ≤ j)%nat as Hj0.
        { destruct Hfirst as (Hfrom & (d' & Hd' & Hdate) & _).
          destruct (decide (j0 ≤ j)%nat) as [|Hlt]; [done|].
          pose proof (scanFrom_passed data (drop iStart data) iStart cursor j d' eq_refl
                        ltac:(unfold j0 in Hlt; lia) Hd'). nia. }
        pose proof (Hdead j d Hj0 Hd). lia.
    + assert (∀ j' d, (j0 ≤ j')%nat → data !! j' = Some d → endDate < t d) as Hdead.
      { intros j' d Hj' Hd. apply lookup_ge_None in Hd0. apply lookup_lt_Some in Hd. lia. }
      rewrite (ticksFrom_dead fuel data iStart endDate stepMs cursor); [|lia|lia|exact Hdead].
      split; [done|]. intros [Hfirst (d & Hd & Hdle)]. exfalso.
      assert (j0 ≤ j)%nat as Hj0.
      { destruct Hfirst as (Hfrom & (d' & Hd' & Hdate) & _).
        destruct (decide (j0 ≤ j)%nat) as [|Hlt]; [done|].
        pose proof (scanFrom_passed data (drop iStart data) iStart cursor j d' eq_refl
                      ltac:(unfold j0 in Hlt; lia) Hd'). nia. }
      pose proof (Hdead j d Hj0 Hd). lia.
Qed.

(** On a series in ascending order of date the schedule advances by the
    step of its frequency. *)
Lemma schedule_advances data start end_ frequency :
  ascending data →
  advancesBy (stepDays frequency * msPerDay) data start end_
    (buildScheduleIdx data start end_ frequency).
Proof.
  intros Hasc. unfold advancesBy, buildScheduleIdx.
  destruct (findIndex _ data) as [iStart|]; [|done].
  intros d0 lastD -> -> k j. rewrite scheduleLoop_ticksFrom. cbn [app].
  replace (if end_ <=? lastD then end_ else lastD) with (Z.min end_ lastD)
    by (destruct (end_ <=? lastD) eqn:E; lia).
  apply ticksFrom_spec; [done|apply stepDays_pos|done].
Qed.

Lemma dailySeries_lookup n price i d :
  dailySeries n price !! i = Some d → d = mkPoint (day (Z.of_nat i)) price.
Proof.
  unfold dailySeries. rewrite list_lookup_fmap.
  destruct (seq 0 n !! i) as [x|] eqn:Hx; [|done].
  apply lookup_seq in Hx as [-> _]. simpl. by intros [= <-].
Qed.

Lemma dailySeries_ascending n price : ascending (dailySeries n price).
Proof.
  intros i j a b Hij Ha Hb.
  apply dailySeries_lookup in Ha as ->. apply dailySeries_lookup in Hb as ->.
  unfold day, msPerDay. simpl. lia.
Qed.

(** C10. [buildScheduleIdx] steps by 1 day for ['daily'], by 7 days for
    ['weekly'] and by 30 days for every other frequency: a frequency that
    is neither of the two gives the schedule of ['monthly'] (the function
    is total, nothing is raised), and on a series in ascending order of
    date the entries of the schedule are the first days on or after the
    dates 1, 7 or 30 days apart.  On one row a day these are the positions
    0, 1, 2, ..., or 0, 7, 14, ..., or 0, 30, 60, ... *)
Theorem stepDays_default_monthly (frequency : string) (data : Series) (start end_ : Z) :
  frequency ≠ "daily" → frequency ≠ "weekly" →
  stepDays "daily" = 1 ∧ stepDays "weekly" = 7 ∧ stepDays "monthly" = 30
  ∧ stepDays frequency = 30
  ∧ buildScheduleIdx data start end_ frequency = buildScheduleIdx data start end_ "monthly"
  ∧ (ascending data →
     advancesBy (1 * msPerDay) data start end_ (buildScheduleIdx data start end_ "daily")
     ∧ advancesBy (7 * msPerDay) data start end_ (buildScheduleIdx data start end_ "weekly")
     ∧ advancesBy (30 * msPerDay) data start end_ (buildScheduleIdx data start end_ "monthly")
     ∧ advancesBy (30 * msPerDay) data start end_ (buildScheduleIdx data start end_ frequency))
  ∧ buildScheduleIdx (dailySeries 15 100) (day 0) (day 14) "daily" = seq 0 15
  ∧ buildScheduleIdx (dailySeries 15 100) (day 0) (day 14) "weekly" = [0; 7; 14]%nat
  ∧ buildScheduleIdx (dailySeries 61 100) (day 0) (day 60) "monthly" = [0; 30; 60]%nat
  ∧ buildScheduleIdx (dailySeries 61 100) (day 0) (day 60) "yearly" = [0; 30; 60]%nat.
Proof.
  intros Hd Hw.
  assert (stepDays frequency = 30) as Hstep.
  { unfold stepDays. apply String.eqb_neq in Hd, Hw. by rewrite Hd, Hw. }
  split; [done|]. split; [done|]. split; [done|]. split; [done|].
  split; [unfold buildScheduleIdx; by rewrite Hstep|].
  split.
  - intros Hasc.
    pose proof (schedule_advances data start end_ "daily" Hasc) as H1.
    pose proof (schedule_advances data start end_ "weekly" Hasc) as H7.
    pose proof (schedule_advances data start end_ "monthly" Hasc) as H30.
    pose proof (schedule_advances data start end_ frequency Hasc) as Hf.
    rewrite Hstep in Hf. done.
  - repeat split; by vm_compute.
Qed.

Lemma stepDays_default_monthly_witness :
  stepDays "yearly" = 30
  ∧ buildScheduleIdx (dailySeries 61 100) (day 0) (day 60) "yearly"
    = buildScheduleIdx (dailySeries 61 100) (day 0) (day 60) "monthly"
  ∧ advancesBy (30 * msPerDay) (dailySeries 61 100) (day 0) (day 60)
      (buildScheduleIdx (dailySeries 61 100) (day 0) (day 60) "yearly")
  ∧ advancesBy (7 * msPerDay) (dailySeries 61 100) (day 0) (day 60)
      (buildScheduleIdx (dailySeries 61 100) (day 0) (day 60) "weekly")
  ∧ advancesBy (1 * msPerDay) (dailySeries 61 100) (day 0) (day 60)
      (buildScheduleIdx (dailySeries 61 100) (day 0) (day 60) "daily").
Proof.
  pose proof (stepDays_default_monthly "yearly" (dailySeries 61 100) (day 0) (day 60)) as H.
  destruct H as (_ & _ & _ & H1 & H2 & H3 & _); [discriminate|discriminate|].
  destruct (H3 (dailySeries_ascending 61 100)) as (Hd & Hw & _ & Hy).
  split; [exact H1|]. split; [exact H2|]. split; [exact Hy|]. split; [exact Hw|exact Hd].
Defined.

(** ** simulateDipBuy: the running peak *)






(** ** Daily returns and volatility, as the specification words them *)

Lemma eqv_refl a : a =n= a.
Proof. destruct a; by simpl. Qed.

Lemma eqv_trans a b c : a =n= b → b =n= c → a =n= c.
Proof.
  destruct a, b, c; simpl; try done. intros H1 H2. by rewrite H1.
Qed.

Lemma sgn_proper x y : (x == y)%Q → sgn x = sgn y.
Proof. intros H. unfold sgn. by rewrite H. Qed.

Lemma mul_eqv_l a b c : a =n= b → (a * c)%num =n= (b * c)%num.
Proof.
  destruct a as [x| | |], b as [y| | |]; try done; intros H; try apply eqv_refl.
  simpl in H. destruct c as [z| | |]; simpl; try done.
  - by rewrite H.
  - rewrite (sgn_proper _ _ H). apply eqv_refl.
  - rewrite (sgn_proper _ _ H). apply eqv_refl.
Qed.

Lemma varianceOf_spec rets : (varianceOf rets == specVariance rets)%Q.
Proof.
  destruct rets as [|x [|y l]].
  - apply varianceOf_short. simpl. lia.
  - apply varianceOf_short. simpl. lia.
  - apply varianceOf_sample.
Qed.

Lemma dailyReturns_spec tl : dailyReturns tl = specReturns tl.
Proof. apply dailyReturns_pairs. Qed.

(** C5, as the code has it. The daily returns hold, in order, one element
    for each pair of neighbouring rows whose return is finite: the ratio of
    the values minus one when the earlier value is positive, and zero when
    it is not. The annualised volatility is the square root of the variance
    of these returns times the square root of 365, the variance being the
    sample variance with Bessel's correction from two returns on and zero
    for fewer; [Math.sqrt] is any function of the value of its argument. *)
Theorem daily_returns_and_volatility (tl : Timeline) (Math_pow : num → num → num)
    (Math_sqrt : num → num) :
  (∀ a b, a =n= b → Math_sqrt a =n= Math_sqrt b) →
  dailyReturns tl = specReturns tl
  ∧ match metricsFromTimeline Math_pow Math_sqrt tl with
    | Some m =>
        m_volAnn m
        =n= (Math_sqrt (Fin (specVariance (specReturns tl))) * Math_sqrt (Fin 365))%num
    | None => tl = []
    end
  ∧ (0 <= specVariance (specReturns tl))%Q.
Proof.
  intros Hsqrt.
  assert (Num.max (Fin 0) (Fin (varianceOf (dailyReturns tl)))
          =n= Fin (specVariance (specReturns tl))) as Hvar.
  { eapply eqv_trans; [apply max_zero_nonneg, varianceOf_nonneg|].
    simpl. rewrite varianceOf_spec. by rewrite dailyReturns_spec. }
  split; [apply dailyReturns_spec|]. split.
  - unfold metricsFromTimeline. destruct tl as [|first rest]; [done|].
    destruct (last (first :: rest)) as [lst|] eqn:Hlast; [|by apply last_None in Hlast].
    cbn [m_volAnn]. unfold volAnnOf. apply mul_eqv_l, Hsqrt, Hvar.
  - rewrite <- dailyReturns_spec, <- varianceOf_spec. apply varianceOf_nonneg.
Qed.

Lemma daily_returns_and_volatility_witness :
  dailyReturns slideTimeline = specReturns slideTimeline
  ∧ length (specReturns slideTimeline) = 2%nat
  ∧ match metricsFromTimeline (λ _ _, NaN) (λ x, x) slideTimeline with
    | Some m =>
        m_volAnn m =n= (Fin (sampleVariance (specReturns slideTimeline)) * Fin 365)%num
    | None => slideTimeline = []
    end.
Proof.
  destruct (daily_returns_and_volatility slideTimeline (λ _ _, NaN) (λ x, x))
    as (Hrets & Hvol & _); [done|].
  split; [exact Hrets|]. split; [by vm_compute|exact Hvol].
Defined.

(** ** Empty windows and a price of zero *)

(** C6, as stated, fails: when the first day on or after [start] has the
    price 0, [simulateLumpSum] divides the total 0 by the price 0; for an
    empty window its summary holds NaN units, in the exact embedding and in
    the binary64 one. *)
Lemma zero_price_empty_window_nan :
  Forall (λ d, outOfWindow (day 0) (day 1) d = true) zeroPriceSeries
  ∧ timeline (simulateLumpSum zeroPriceSeries (day 0) (day 1) 100 "daily") = []
  ∧ r_units (result (simulateLumpSum zeroPriceSeries (day 0) (day 1) 100 "daily")) = NaN
  ∧ ¬ emptyResult (simulateLumpSum zeroPriceSeries (day 0) (day 1) 100 "daily")
  ∧ PrimFloat.is_nan
      (B64.r_units (B64.result (B64.simulateLumpSum zeroPriceSeries (day 0) (day 1)
                                  (B64.ofQ 100) "daily"))) = true.
Proof.
  split; [repeat constructor|]. split; [by vm_compute|]. split; [by vm_compute|].
  split; [|by vm_compute].
  intros [_ (_ & Hu & _)]. by vm_compute in Hu.
Qed.

(** ** The stages *)


